(* ===================================================================== *)
(*  crawl.py : a bounded-depth, single-domain crawler                     *)
(*                                                                        *)
(*  Shallow embedding of src/crawl.py and the properties of its           *)
(*  specification.                                                        *)
(*                                                                        *)
(*  Layout                                                                *)
(*    PyStr     the str operations crawl.py and its libraries use         *)
(*    UrlLib    urllib.parse.urlparse / urlunparse  (CPython 3.7)         *)
(*    PathLib   pathlib.Path(...).resolve()         (CPython 3.7, POSIX)  *)
(*    Rfc3986   textual resolution of a path, for comparison              *)
(*    PyEnv     the interface the worker needs from those libraries       *)
(*    Worker    parse_url, the worker loop, as an interleaving of the     *)
(*              operations on the shared queue, lists and files           *)
(*    Report    output_dupimgs                                            *)
(*    Demo      a concrete environment, a small site and a few runs       *)
(*    the invariants of a run, then the lemmas.                           *)
(* ===================================================================== *)

From Stdlib Require Import ZArith List String Ascii Bool Lia Permutation.
From stdpp Require Import base decidable list strings.

Import ListNotations.
Local Open Scope string_scope.
Local Open Scope Z_scope.

(* --------------------------------------------------------------------- *)
(*  Python str operations                                                 *)
(* --------------------------------------------------------------------- *)

Module PyStr.

(* s[n:] *)
Fixpoint drop (n : nat) (s : string) : string :=
  match n, s with
  | O, _ => s
  | S _, EmptyString => EmptyString
  | S n', String _ s' => drop n' s'
  end.

(* s[:n] *)
Fixpoint take (n : nat) (s : string) : string :=
  match n, s with
  | O, _ => EmptyString
  | S _, EmptyString => EmptyString
  | S n', String a s' => String a (take n' s')
  end.

(* s.find(c) for a one-character c; None stands for -1 *)
Fixpoint find (c : ascii) (s : string) : option nat :=
  match s with
  | EmptyString => None
  | String a s' => if Ascii.eqb a c then Some O else option_map S (find c s')
  end.

(* s.find(c, start) *)
Definition find_from (c : ascii) (start : nat) (s : string) : option nat :=
  option_map (Nat.add start) (find c (drop start s)).

(* s.rfind(c) *)
Fixpoint rfind (c : ascii) (s : string) : option nat :=
  match s with
  | EmptyString => None
  | String a s' =>
      match rfind c s' with
      | Some i => Some (S i)
      | None => if Ascii.eqb a c then Some O else None
      end
  end.

(* c in s, for a one-character c *)
Definition has (c : ascii) (s : string) : bool :=
  match find c s with Some _ => true | None => false end.

(* s.startswith(p) *)
Fixpoint startswith (p s : string) : bool :=
  match p, s with
  | EmptyString, _ => true
  | String _ _, EmptyString => false
  | String a p', String b s' => Ascii.eqb a b && startswith p' s'
  end.

(* sub in s *)
Fixpoint contains (sub s : string) : bool :=
  startswith sub s ||
  match s with
  | EmptyString => false
  | String _ s' => contains sub s'
  end.

(* s.split(c): never empty, "".split(c) == [""] *)
Fixpoint split (c : ascii) (s : string) : list string :=
  match s with
  | EmptyString => [EmptyString]
  | String a s' =>
      if Ascii.eqb a c then EmptyString :: split c s'
      else match split c s' with
           | h :: t => String a h :: t
           | [] => [String a EmptyString]
           end
  end.

(* s.split(c, 1) when c occurs in s: the text before the first c and
   the text after it; (s, None) when it does not occur *)
Definition split1 (c : ascii) (s : string) : string * option string :=
  match find c s with
  | Some i => (take i s, Some (drop (S i) s))
  | None => (s, None)
  end.

(* sep.join(l) for a one-character sep *)
Fixpoint join (sep : string) (l : list string) : string :=
  match l with
  | [] => EmptyString
  | [x] => x
  | x :: rest => x ++ sep ++ join sep rest
  end.

(* s.rpartition(c)[0] *)
Definition rpartition_head (c : ascii) (s : string) : string :=
  match rfind c s with
  | Some i => take i s
  | None => EmptyString
  end.

(* s.lstrip(c) *)
Fixpoint lstrip (c : ascii) (s : string) : string :=
  match s with
  | EmptyString => EmptyString
  | String a s' => if Ascii.eqb a c then lstrip c s' else s
  end.

Definition lower_ascii (a : ascii) : ascii :=
  let n := nat_of_ascii a in
  if (Nat.leb 65 n && Nat.leb n 90)%bool then ascii_of_nat (n + 32) else a.

(* s.lower(), on the ASCII letters *)
Fixpoint lower (s : string) : string :=
  match s with
  | EmptyString => EmptyString
  | String a s' => String (lower_ascii a) (lower s')
  end.

(* all(c in chars for c in s) *)
Fixpoint all_in (chars s : string) : bool :=
  match s with
  | EmptyString => true
  | String a s' => has a chars && all_in chars s'
  end.

Definition is_empty (s : string) : bool :=
  match s with EmptyString => true | _ => false end.

Definition str_in (s : string) (l : list string) : bool :=
  existsb (String.eqb s) l.

End PyStr.

(* --------------------------------------------------------------------- *)
(*  Python call outcomes                                                  *)
(* --------------------------------------------------------------------- *)

(* The exceptions crawl.py's handlers tell apart.  InvalidUrl is the
   module's own exception; KeyboardInterrupt is not an Exception;
   RequestException is requests.exceptions.RequestException; OtherError
   is any other subclass of Exception (ValueError, RuntimeError, ...). *)
Inductive exn : Type :=
  | KeyboardInterrupt
  | InvalidUrl
  | RequestException
  | OtherError.

Inductive py (A : Type) : Type :=
  | Return (a : A)
  | Raise (e : exn).
Arguments Return {A} a.
Arguments Raise {A} e.

(* --------------------------------------------------------------------- *)
(*  urllib.parse                                                          *)
(* --------------------------------------------------------------------- *)

(* urllib.parse.ParseResult, a 6-tuple *)
Record ParseResult : Type := mkParseResult {
  scheme : string;
  netloc : string;
  path : string;
  params : string;
  query : string;
  fragment : string
}.

Module UrlLib.
Import PyStr.

Definition uses_netloc : list string :=
  [""; "ftp"; "http"; "gopher"; "nntp"; "telnet"; "imap"; "wais"; "file";
   "mms"; "https"; "shttp"; "snews"; "prospero"; "rtsp"; "rtspu"; "rsync";
   "svn"; "svn+ssh"; "sftp"; "nfs"; "git"; "git+ssh"; "ws"; "wss"].

Definition uses_params : list string :=
  [""; "ftp"; "hdl"; "prospero"; "http"; "imap"; "https"; "shttp"; "rtsp";
   "rtspu"; "sip"; "sips"; "mms"; "sftp"; "tel"].

Definition scheme_chars : string :=
  "abcdefghijklmnopqrstuvwxyzABCDEFGHIJKLMNOPQRSTUVWXYZ0123456789+-.".

Definition digits : string := "0123456789".

(* _splitnetloc(url, 2): (url[2:delim], url[delim:]) where delim is the
   first of / ? # at or after offset 2, or len(url) *)
Definition _splitnetloc (url : string) : string * string :=
  let pick (c : ascii) (delim : nat) :=
    match find_from c 2 url with
    | Some w => Nat.min delim w
    | None => delim
    end in
  let delim := pick "#"%char (pick "?"%char (pick "/"%char (String.length url))) in
  (drop 2 (take delim url), drop delim url).

(* the part of urlsplit after the scheme has been taken off *)
Definition split_rest (sch url : string) : py (string * string * string * string * string) :=
  let '(nl, url1, bad) :=
    if startswith "//" url then
      let '(nl, rest) := _splitnetloc url in
      (nl, rest,
       (has "["%char nl && negb (has "]"%char nl)) ||
       (has "]"%char nl && negb (has "["%char nl)))
    else (EmptyString, url, false) in
  if bad then Raise OtherError            (* ValueError("Invalid IPv6 URL") *)
  else
    let '(url2, frag) :=
      match split1 "#"%char url1 with
      | (u, Some f) => (u, f)
      | (u, None) => (u, EmptyString)
      end in
    let '(url3, qry) :=
      match split1 "?"%char url2 with
      | (u, Some q) => (u, q)
      | (u, None) => (u, EmptyString)
      end in
    Return (sch, nl, url3, qry, frag).

(* urlsplit(url) with the default scheme='' and allow_fragments=True.
   Strings are read as sequences of code points below 256, on which
   _checknetloc never raises. *)
Definition urlsplit (url : string) : py (string * string * string * string * string) :=
  match find ":"%char url with
  | Some (S i' as i) =>
      if String.eqb (take i url) "http" then
        split_rest (lower (take i url)) (drop (S i) url)
      else if all_in scheme_chars (take i url) then
        let rest := drop (S i) url in
        if is_empty rest || negb (all_in digits rest) then
          split_rest (lower (take i url)) rest
        else split_rest EmptyString url
      else split_rest EmptyString url
  | _ => split_rest EmptyString url
  end.

Definition _splitparams (url : string) : string * string :=
  if has "/"%char url then
    match rfind "/"%char url with
    | Some r =>
        match find_from ";"%char r url with
        | Some i => (take i url, drop (S i) url)
        | None => (url, EmptyString)
        end
    | None => (url, EmptyString)
    end
  else
    match find ";"%char url with
    | Some i => (take i url, drop (S i) url)
    | None => (* url[:-1], url[0:] *)
        (take (Nat.pred (String.length url)) url, url)
    end.

Definition urlparse (url : string) : py ParseResult :=
  match urlsplit url with
  | Raise e => Raise e
  | Return (sch, nl, u, qry, frag) =>
      let '(u', prm) :=
        if str_in sch uses_params && has ";"%char u then _splitparams u
        else (u, EmptyString) in
      Return (mkParseResult sch nl u' prm qry frag)
  end.

Definition urlunsplit (sch nl url qry frag : string) : string :=
  let url1 :=
    if negb (is_empty nl) ||
       (negb (is_empty sch) && str_in sch uses_netloc && negb (String.eqb (take 2 url) "//"))
    then
      let u := if negb (is_empty url) && negb (String.eqb (take 1 url) "/")
               then "/" ++ url else url in
      "//" ++ nl ++ u
    else url in
  let url2 := if negb (is_empty sch) then sch ++ ":" ++ url1 else url1 in
  let url3 := if negb (is_empty qry) then url2 ++ "?" ++ qry else url2 in
  if negb (is_empty frag) then url3 ++ "#" ++ frag else url3.

Definition urlunparse (t : ParseResult) : string :=
  let url := if negb (is_empty (params t)) then path t ++ ";" ++ params t else path t in
  urlunsplit (scheme t) (netloc t) url (query t) (fragment t).

End UrlLib.

(* the result of a parse that succeeds *)
Definition pr (a b c d e f : string) : py ParseResult :=
  Return (mkParseResult a b c d e f).

(* --------------------------------------------------------------------- *)
(*  pathlib                                                               *)
(* --------------------------------------------------------------------- *)

Module PathLib.
Import PyStr.

(* What Path.resolve() asks of the machine the crawler runs on:
   os.readlink (None: OSError, the entry is missing or no symlink) and
   os.getcwd. *)
Record filesystem : Type := mkFs {
  readlink : string -> option string;
  getcwd : string
}.

Inductive resolved (A : Type) : Type :=
  | Done (a : A)
  | Raised            (* RuntimeError (symlink loop), ValueError (NUL) *)
  | OutOfFuel.
Arguments Done {A} a.
Arguments Raised {A}.
Arguments OutOfFuel {A}.

Definition sep : string := "/".
Definition sepc : ascii := "/"%char.
Definition nul : ascii := "000"%char.

(* _PosixFlavour.splitroot: (root, rel) *)
Definition splitroot (part : string) : string * string :=
  if startswith sep part then
    let stripped_part := lstrip sepc part in
    if Nat.eqb (String.length part - String.length stripped_part) 2
    then (sep ++ sep, stripped_part)
    else (sep, stripped_part)
  else (EmptyString, part).

Definition keeps (x : string) : bool := negb (is_empty x) && negb (String.eqb x ".").

(* _PosixFlavour.parse_parts([s]): root and the names after it *)
Definition parse_parts (s : string) : string * list string :=
  let '(root, rel) := splitroot s in
  (root, List.filter keeps (split sepc rel)).

(* str(PurePosixPath(s)) *)
Definition path_str (s : string) : string :=
  let '(root, names) := parse_parts s in
  let r := root ++ join sep names in
  if is_empty r then "." else r.

Definition is_absolute (s : string) : bool := negb (is_empty (fst (parse_parts s))).

Definition seen_t : Type := list (string * option string).

Fixpoint seen_get (k : string) (seen : seen_t) : option (option string) :=
  match seen with
  | [] => None
  | (k', v) :: rest => if String.eqb k k' then Some v else seen_get k rest
  end.

(* _PosixFlavour.resolve._resolve(path, rest), non-strict; the dict
   seen is threaded through *)
Fixpoint _resolve (fuel : nat) (fs : filesystem) (seen : seen_t)
         (path rest : string) {struct fuel} : resolved (seen_t * string) :=
  match fuel with
  | O => OutOfFuel
  | S fuel' =>
      (fix loop (names : list string) (seen : seen_t) (path : string)
           {struct names} : resolved (seen_t * string) :=
         match names with
         | [] => Done (seen, path)
         | name :: names' =>
             if is_empty name || String.eqb name "." then loop names' seen path
             else if String.eqb name ".." then
               loop names' seen (rpartition_head sepc path)
             else
               let newpath := path ++ sep ++ name in
               match seen_get newpath seen with
               | Some (Some p) => loop names' seen p
               | Some None => Raised
               | None =>
                   if has nul newpath then Raised
                   else
                     match readlink fs newpath with
                     | None => loop names' seen newpath
                     | Some target =>
                         match _resolve fuel' fs ((newpath, None) :: seen) path target with
                         | Done (seen', p) => loop names' ((newpath, Some p) :: seen') p
                         | r => r
                         end
                     end
               end
         end)
        (split sepc rest) seen
        (if startswith sep rest then EmptyString else path)
  end.

(* posixpath.normpath *)
Definition normpath (p : string) : string :=
  if is_empty p then "."
  else
    let initial_slashes : nat :=
      if startswith sep p then
        if startswith "//" p && negb (startswith "///" p) then 2%nat else 1%nat
      else 0%nat in
    let step (new_comps : list string) (comp : string) : list string :=
      if is_empty comp || String.eqb comp "." then new_comps
      else if negb (String.eqb comp "..")
              || (Nat.eqb initial_slashes 0 && match new_comps with [] => true | _ => false end)
              || (negb (match new_comps with [] => true | _ => false end)
                  && String.eqb (List.last new_comps EmptyString) "..")
      then (new_comps ++ [comp])%list
      else List.removelast new_comps in
    let comps := List.fold_left step (split sepc p) [] in
    let r := join sep comps in
    let r := match initial_slashes with
             | 0%nat => r
             | 1%nat => sep ++ r
             | _ => sep ++ sep ++ r
             end in
    if is_empty r then "." else r.

(* str(Path(s).resolve()) *)
Definition resolve (fuel : nat) (fs : filesystem) (s : string) : resolved string :=
  let base := if is_absolute s then EmptyString else getcwd fs in
  match _resolve fuel fs [] base (path_str s) with
  | Done (_, r) =>
      let r := if is_empty r then sep else r in
      Done (path_str (normpath r))
  | Raised => Raised
  | OutOfFuel => OutOfFuel
  end.

(* no symbolic links anywhere *)
Definition plain_fs : filesystem := mkFs (fun _ => None) "/".

(* a merged-/usr layout: /bin is a symbolic link to usr/bin *)
Definition usrmerge_fs : filesystem :=
  mkFs (fun p => if String.eqb p "/bin" then Some "usr/bin" else None) "/".

End PathLib.


(* --------------------------------------------------------------------- *)
(*  Reference resolution of a path, by the URL rules                      *)
(* --------------------------------------------------------------------- *)

(* Following the specification, which asks for textual resolution with the
   standard URL-resolution semantics: RFC 3986, section 5.2, on the path
   of a reference with no scheme and no authority.  Nothing in crawl.py
   is translated here; C1 compares the code against it. *)
Module Rfc3986.
Import PyStr.

(* 5.2.3: the base path up to its last slash, then the reference *)
Definition merge (base rel : string) : string :=
  match rfind "/"%char base with
  | Some i => take (S i) base ++ rel
  | None => "/" ++ rel
  end.

(* 5.2.4, on the segments after the leading slash: "." is dropped, ".."
   drops the segment before it, and either of them at the end leaves a
   trailing slash *)
Fixpoint remove_dots (segs out : list string) : list string :=
  match segs with
  | [] => out
  | seg :: rest =>
      if String.eqb seg "." then
        match rest with
        | [] => (out ++ [EmptyString])%list
        | _ => remove_dots rest out
        end
      else if String.eqb seg ".." then
        match rest with
        | [] => (List.removelast out ++ [EmptyString])%list
        | _ => remove_dots rest (List.removelast out)
        end
      else remove_dots rest (out ++ [seg])%list
  end.

Definition remove_dot_segments (p : string) : string :=
  "/" ++ join "/" (remove_dots (List.tl (split "/"%char p)) []).

(* the path of the target of the reference rel found on a page of path
   base *)
Definition resolve_path (base rel : string) : string :=
  remove_dot_segments (if startswith "/" rel then rel else merge base rel).

End Rfc3986.

(* --------------------------------------------------------------------- *)
(*  The libraries, as the worker sees them                                *)
(* --------------------------------------------------------------------- *)

(* class URLError(Enum) *)
Inductive URLError : Type :=
  | EXTERNAL_DOMAIN
  | DOWNLOAD_ERROR
  | PARSE_ERROR.

Global Instance URLError_eq_dec : EqDecision URLError.
Proof. solve_decision. Defined.

(* requests.Response, as far as crawl.py reads it *)
Record response : Type := mkResponse {
  content_type : option string;     (* resp.headers.get("Content-Type") *)
  text : string;                    (* resp.text *)
  content : string                  (* resp.content *)
}.

(* The pure library calls of the worker.  The lemmas on the worker hold
   for every implementation of this interface; CPython below is the one
   the examples run. *)
Class PyEnv : Type := {
  urlparse : string -> py ParseResult;
  urlunparse : ParseResult -> string;
  (* str(Path(s).resolve()) *)
  path_resolve : string -> py string;
  (* lines 96-98: BeautifulSoup(text), the href of every a, then the src
     of every img, each through str() *)
  find_all_links : string -> py (list string);
  (* hashlib.md5(content).hexdigest() *)
  md5_hexdigest : string -> string;
  (* the module global, set from --depth (line 228) before the worker
     processes are forked *)
  MAX_DEPTH_LEVEL : Z
}.

Global Instance py_ret : MRet py := fun A a => Return a.
Global Instance py_bind : MBind py := fun A B k m =>
  match m with
  | Return a => k a
  | Raise e => Raise e
  end.

(* --------------------------------------------------------------------- *)
(*  crawl.py                                                              *)
(* --------------------------------------------------------------------- *)

Section Worker.
Context `{E : PyEnv}.
Import PyStr.

(* validate_url, lines 30-39 *)
Definition validate_url (url : string) : py (option ParseResult) :=
  match urlparse url with
  | Return p => Return (Some p)
  | Raise KeyboardInterrupt => Return None
  | Raise e => Raise e
  end.

(* what the body of the loop over links does with one link *)
Inductive link_class : Type :=
  | LinkValid (new_link : string)                 (* valid_urls.append *)
  | LinkInvalid (u : string) (e : URLError).      (* invalid_urls.append *)

(* lines 101-121, one iteration of `for link in links` *)
Definition resolve_link (url_parsed : ParseResult) (link : string) : py link_class :=
  p ← validate_url link;
  match p with
  | None => Return (LinkInvalid link PARSE_ERROR)
  | Some p =>
      let t0 := if is_empty (scheme p) then scheme url_parsed else scheme p in
      let t1 := if is_empty (netloc p) then netloc url_parsed else netloc p in
      t2 ← (if contains ".." (path p)
            then path_resolve ("/" ++ path url_parsed ++ "/" ++ path p)
            else Return (path p));
      let new_link := urlunparse (mkParseResult t0 t1 t2 (params p) (query p) "") in
      p' ← validate_url new_link;
      match p' with
      | None => Return (LinkInvalid new_link PARSE_ERROR)
      | Some p' =>
          if negb (String.eqb (netloc p') (netloc url_parsed))
          then Return (LinkInvalid new_link EXTERNAL_DOMAIN)
          else Return (LinkValid new_link)
      end
  end.

(* lines 100-121: the loop, on the two lists it appends to; it stops at
   the first exception, which leaves the lists as they are then *)
Fixpoint for_links (url_parsed : ParseResult) (links : list string)
         (invalid_urls : list (string * URLError)) (valid_urls : list string)
  : list (string * URLError) * list string * option exn :=
  match links with
  | [] => (invalid_urls, valid_urls, None)
  | link :: links' =>
      match resolve_link url_parsed link with
      | Raise e => (invalid_urls, valid_urls, Some e)
      | Return (LinkInvalid u e) =>
          for_links url_parsed links' (invalid_urls ++ [(u, e)])%list valid_urls
      | Return (LinkValid u) =>
          for_links url_parsed links' invalid_urls (valid_urls ++ [u])%list
      end
  end.

(* Program points of one iteration of `while True` in parse_url: each
   sits before one operation on the shared queue, the shared lists, the
   network or a file, and carries the locals that are live there. *)
Inductive phase : Type :=
  | CheckVisited                                   (* line 65 *)
  | Announce                                       (* lines 70-73 *)
  | Fetch (url_parsed : ParseResult)               (* lines 81-86 *)
  | WriteValid (url_parsed : ParseResult) (resp : response)   (* lines 89-92 *)
  | PushCheck (invalid_urls : list (string * URLError)) (u : string) (us : list string)
                                                   (* line 125 *)
  | Put (invalid_urls : list (string * URLError)) (u : string) (us : list string)
                                                   (* line 126 *)
  | AppendDup (h : string)                         (* line 131 *)
  | LogErr (invalid_urls : list (string * URLError))   (* lines 136-138 *)
  | Flush (invalid_urls : list (string * URLError))    (* lines 140-144 *)
  | AppendVisited                                  (* line 146 *)
  | TaskDone.                                      (* lines 147, 61, 66 *)

(* A worker process: blocked in queue.get(), inside an iteration on the
   item (url, level), or gone through an uncaught exception while it
   held the item. *)
Inductive wstate : Type :=
  | Idle
  | Busy (url : string) (level : Z) (ph : phase)
  | Dead (url : string) (level : Z).

(* What the world answers in one step. *)
Record oracle : Type := mkOracle {
  (* The item queue.get() hands over.  An mp.Queue is fed through a pipe
     by one thread per producing process, so the order across processes
     is not fixed; 0 is first-in first-out. *)
  o_pick : nat;
  (* requests.get(url) followed by resp.raise_for_status() *)
  o_fetch : py response;
  (* a write to, and flush of, one of the open files *)
  o_write : py unit;
  (* when a write of rows raises: how many of the rows reached the file *)
  o_partial : nat;
  (* the order in which set(valid_urls) is iterated *)
  o_order : list string
}.

Record state : Type := mkState {
  queue : list (string * Z);                    (* mp.JoinableQueue *)
  unfinished_tasks : nat;                       (* its counter, for join() *)
  visited_urls : list string;                   (* manager.list() *)
  duplicate_images_urls : list (string * string);   (* manager.list() *)
  valid_urls_fd : list (string * Z);            (* rows of the valid file *)
  invalid_urls_fd : list (string * URLError);   (* rows of the invalid file *)
  stdout : list (string * Z);
  stderr : list string;
  workers : list wstate
}.

(* The operation a step performs, with what it read or wrote. *)
Inductive op : Type :=
  | OpGet
  | OpInVisited (b : bool)
  | OpStdout (r : py unit)
  | OpFetch (r : py response)
  | OpWriteValid (written : list (string * Z)) (r : py unit)
  | OpPushCheck (u : string) (b : bool)
  | OpPut (u : string) (l : Z)
  | OpAppendDup (h : string)
  | OpStderr (r : py unit)
  | OpWriteInvalid (written : list (string * URLError)) (r : py unit)
  | OpAppendVisited
  | OpTaskDone.

(* worker w, working on (url, level), performs op *)
Inductive event : Type :=
  | Ev (w : nat) (url : string) (level : Z) (o : op).

Fixpoint nodupb (l : list string) : bool :=
  match l with
  | [] => true
  | x :: r => negb (str_in x r) && nodupb r
  end.

(* us enumerates set(valid_urls) *)
Definition is_set_order (us valid_urls : list string) : bool :=
  nodupb us && forallb (fun u => str_in u valid_urls) us
            && forallb (fun v => str_in v us) valid_urls.

(* Where an exception raised inside the try block (lines 69-131) leads:
   `except InvalidUrl: pass`, `except Exception:` to the stderr report,
   and anything else out of the function. *)
Definition after_raise (e : exn) (url : string) (level : Z)
           (invalid_urls : list (string * URLError)) : wstate :=
  match e with
  | InvalidUrl => Busy url level (Flush invalid_urls)
  | KeyboardInterrupt => Dead url level
  | RequestException | OtherError => Busy url level (LogErr invalid_urls)
  end.

(* the loop of lines 124-126, before its next iteration *)
Definition after_push (invalid_urls : list (string * URLError)) (us : list string) : phase :=
  match us with
  | [] => Flush invalid_urls
  | u :: us' => PushCheck invalid_urls u us'
  end.

(* lines 94-131, after the row of the valid file is written, up to the
   next shared operation; None when order is no enumeration of
   set(valid_urls) *)
Definition after_valid (url : string) (level : Z) (url_parsed : ParseResult)
           (resp : response) (order : list string) : option wstate :=
  match content_type resp with
  | Some ct =>
      if negb (is_empty ct) && contains "text/html" ct then
        match find_all_links (text resp) with
        | Raise e => Some (after_raise e url level [])
        | Return links =>
            match for_links url_parsed links [] [] with
            | (invalid_urls, _, Some e) => Some (after_raise e url level invalid_urls)
            | (invalid_urls, valid_urls, None) =>
                if is_set_order order valid_urls
                then Some (Busy url level (after_push invalid_urls order))
                else None
            end
        end
      else if negb (is_empty ct) && startswith "image/" ct then
        Some (Busy url level (AppendDup (md5_hexdigest (content resp))))
      else Some (Busy url level (Flush []))
  | None => Some (Busy url level (Flush []))
  end.

Definition set_worker (i : nat) (w : wstate) (s : state) : state :=
  mkState (queue s) (unfinished_tasks s) (visited_urls s) (duplicate_images_urls s)
          (valid_urls_fd s) (invalid_urls_fd s) (stdout s) (stderr s)
          (<[i:=w]> (workers s)).

(* One step of worker i of parse_url, lines 54-147: the operation its
   program point is at, and the local code up to the next one.  None:
   the worker cannot move (no such worker, nothing to get, dead). *)
Definition parse_url (i : nat) (o : oracle) (s : state) : option (event * state) :=
  match workers s !! i with
  | None => None
  | Some Idle =>
      (* line 57, and the test of line 60 *)
      match queue s !! o_pick o with
      | None => None
      | Some (url, level) =>
          let ph := if Z.ltb MAX_DEPTH_LEVEL level then TaskDone else CheckVisited in
          Some (Ev i url level OpGet,
                mkState (delete (o_pick o) (queue s)) (unfinished_tasks s)
                        (visited_urls s) (duplicate_images_urls s)
                        (valid_urls_fd s) (invalid_urls_fd s) (stdout s) (stderr s)
                        (<[i:=Busy url level ph]> (workers s)))
      end
  | Some (Dead _ _) => None
  | Some (Busy url level ph) =>
      match ph with
      | CheckVisited =>
          let b := str_in url (visited_urls s) in
          Some (Ev i url level (OpInVisited b),
                set_worker i (Busy url level (if b then TaskDone else Announce)) s)
      | Announce =>
          match o_write o with
          | Raise e =>
              Some (Ev i url level (OpStdout (Raise e)),
                    set_worker i (after_raise e url level []) s)
          | Return tt =>
              (* lines 75-79 *)
              let w := match validate_url url with
                       | Raise e => after_raise e url level []
                       | Return None => after_raise InvalidUrl url level [(url, PARSE_ERROR)]
                       | Return (Some url_parsed) => Busy url level (Fetch url_parsed)
                       end in
              Some (Ev i url level (OpStdout (Return tt)),
                    mkState (queue s) (unfinished_tasks s) (visited_urls s)
                            (duplicate_images_urls s) (valid_urls_fd s) (invalid_urls_fd s)
                            (stdout s ++ [(url, level)])%list (stderr s)
                            (<[i:=w]> (workers s)))
          end
      | Fetch url_parsed =>
          let w := match o_fetch o with
                   | Return resp => Busy url level (WriteValid url_parsed resp)
                   | Raise RequestException =>
                       after_raise InvalidUrl url level [(url, DOWNLOAD_ERROR)]
                   | Raise e => after_raise e url level []
                   end in
          Some (Ev i url level (OpFetch (o_fetch o)), set_worker i w s)
      | WriteValid url_parsed resp =>
          match o_write o with
          | Raise e =>
              let written := List.firstn (o_partial o) [(url, level)] in
              Some (Ev i url level (OpWriteValid written (Raise e)),
                    mkState (queue s) (unfinished_tasks s) (visited_urls s)
                            (duplicate_images_urls s)
                            (valid_urls_fd s ++ written)%list
                            (invalid_urls_fd s) (stdout s) (stderr s)
                            (<[i:=after_raise e url level []]> (workers s)))
          | Return tt =>
              match after_valid url level url_parsed resp (o_order o) with
              | None => None
              | Some w =>
                  Some (Ev i url level (OpWriteValid [(url, level)] (Return tt)),
                        mkState (queue s) (unfinished_tasks s) (visited_urls s)
                                (duplicate_images_urls s)
                                (valid_urls_fd s ++ [(url, level)])%list
                                (invalid_urls_fd s) (stdout s) (stderr s)
                                (<[i:=w]> (workers s)))
              end
          end
      | PushCheck invalid_urls u us =>
          let b := str_in u (visited_urls s) in
          Some (Ev i url level (OpPushCheck u b),
                set_worker i (Busy url level
                                (if b then after_push invalid_urls us
                                 else Put invalid_urls u us)) s)
      | Put invalid_urls u us =>
          Some (Ev i url level (OpPut u (level + 1)),
                mkState (queue s ++ [(u, level + 1)])%list (S (unfinished_tasks s))
                        (visited_urls s) (duplicate_images_urls s)
                        (valid_urls_fd s) (invalid_urls_fd s) (stdout s) (stderr s)
                        (<[i:=Busy url level (after_push invalid_urls us)]> (workers s)))
      | AppendDup h =>
          Some (Ev i url level (OpAppendDup h),
                mkState (queue s) (unfinished_tasks s) (visited_urls s)
                        (duplicate_images_urls s ++ [(h, url)])%list
                        (valid_urls_fd s) (invalid_urls_fd s) (stdout s) (stderr s)
                        (<[i:=Busy url level (Flush [])]> (workers s)))
      | LogErr invalid_urls =>
          match o_write o with
          | Raise e =>
              (* raised inside the handler: nothing catches it *)
              Some (Ev i url level (OpStderr (Raise e)), set_worker i (Dead url level) s)
          | Return tt =>
              Some (Ev i url level (OpStderr (Return tt)),
                    mkState (queue s) (unfinished_tasks s) (visited_urls s)
                            (duplicate_images_urls s) (valid_urls_fd s) (invalid_urls_fd s)
                            (stdout s) (stderr s ++ [url])%list
                            (<[i:=Busy url level (Flush invalid_urls)]> (workers s)))
          end
      | Flush invalid_urls =>
          match o_write o with
          | Raise e =>
              (* lines 140-144 are after the try statement *)
              let written := List.firstn (o_partial o) invalid_urls in
              Some (Ev i url level (OpWriteInvalid written (Raise e)),
                    mkState (queue s) (unfinished_tasks s) (visited_urls s)
                            (duplicate_images_urls s) (valid_urls_fd s)
                            (invalid_urls_fd s ++ written)%list
                            (stdout s) (stderr s)
                            (<[i:=Dead url level]> (workers s)))
          | Return tt =>
              Some (Ev i url level (OpWriteInvalid invalid_urls (Return tt)),
                    mkState (queue s) (unfinished_tasks s) (visited_urls s)
                            (duplicate_images_urls s) (valid_urls_fd s)
                            (invalid_urls_fd s ++ invalid_urls)%list
                            (stdout s) (stderr s)
                            (<[i:=Busy url level AppendVisited]> (workers s)))
          end
      | AppendVisited =>
          Some (Ev i url level OpAppendVisited,
                mkState (queue s) (unfinished_tasks s) (visited_urls s ++ [url])%list
                        (duplicate_images_urls s) (valid_urls_fd s) (invalid_urls_fd s)
                        (stdout s) (stderr s)
                        (<[i:=Busy url level TaskDone]> (workers s)))
      | TaskDone =>
          match unfinished_tasks s with
          | O =>
              (* ValueError: task_done() called too many times *)
              Some (Ev i url level OpTaskDone, set_worker i (Dead url level) s)
          | S n =>
              Some (Ev i url level OpTaskDone,
                    mkState (queue s) n (visited_urls s) (duplicate_images_urls s)
                            (valid_urls_fd s) (invalid_urls_fd s) (stdout s) (stderr s)
                            (<[i:=Idle]> (workers s)))
          end
      end
  end.

(* A run: the workers move one at a time, as the schedule says. *)
Fixpoint run (sched : list (nat * oracle)) (s : state) : option (list event * state) :=
  match sched with
  | [] => Some ([], s)
  | (i, o) :: sched' =>
      match parse_url i o s with
      | None => None
      | Some (ev, s') =>
          match run sched' s' with
          | None => None
          | Some (tr, s'') => Some (ev :: tr, s'')
          end
      end
  end.

(* Crawler.__init__, lines 176-201: n = mp.cpu_count() workers started,
   then queue.put((starting_url, 0)) *)
Definition Crawler (starting_url : string) (n : nat) : state :=
  mkState [(starting_url, 0)] 1 [] [] [] [] [] [] (replicate n Idle).

(* queue.join() returns *)
Definition joined (s : state) : bool := Nat.eqb (unfinished_tasks s) 0.

(* p.netloc of a URL that parses *)
Definition host (u : string) : option string :=
  match urlparse u with
  | Return p => Some (netloc p)
  | Raise _ => None
  end.

End Worker.

(* --------------------------------------------------------------------- *)
(*  output_dupimgs, lines 150-166                                         *)
(* --------------------------------------------------------------------- *)

Module Report.

(* dp_imgs = defaultdict(lambda: []); a dict keeps its keys in the order
   of their first insertion *)
Definition dict : Type := list (string * list string).

(* dp_imgs[h].append(u) *)
Fixpoint dict_append (h u : string) (d : dict) : dict :=
  match d with
  | [] => [(h, [u])]
  | (k, urls) :: d' =>
      if String.eqb k h then (k, (urls ++ [u])%list) :: d'
      else (k, urls) :: dict_append h u d'
  end.

(* lines 160-161 *)
Definition group (d : dict) (duplicate_images_urls : list (string * string)) : dict :=
  fold_left (fun d '(h, u) => dict_append h u d) duplicate_images_urls d.

(* lines 163-166: the rows written for one entry of dp_imgs *)
Definition rows_of (entry : string * list string) : list (string * string) :=
  let '(h, urls) := entry in
  if Nat.ltb 1 (length urls) then List.map (fun u => (u, h)) urls else [].

(* the rows csv.writer receives, a row [a, b] as the pair (a, b) *)
Definition output_dupimgs (duplicate_images_urls : list (string * string))
  : list (string * string) :=
  ("URL", "md5") :: flat_map rows_of (group [] duplicate_images_urls).

(* the ImageRecords with content hash h *)
Definition with_hash (h : string) (recs : list (string * string)) : list (string * string) :=
  List.filter (fun r => String.eqb (fst r) h) recs.

(* the distinct URLs recorded with content hash h *)
Definition urls_with_hash (h : string) (recs : list (string * string)) : list string :=
  nodup string_dec (List.map snd (with_hash h recs)).

(* the row written for the record (h, u) *)
Definition row_of (r : string * string) : string * string := (snd r, fst r).

(* the records whose hash is that of at least two records *)
Definition repeated (recs : list (string * string)) : list (string * string) :=
  List.filter (fun r => Nat.ltb 1 (length (with_hash (fst r) recs))) recs.

(* dp_imgs[h], [] for a missing key *)
Fixpoint dict_get (h : string) (d : dict) : list string :=
  match d with
  | [] => []
  | (k, urls) :: d' => if String.eqb k h then urls else dict_get h d'
  end.

End Report.

(* --------------------------------------------------------------------- *)
(*  A concrete environment and a small site                               *)
(* --------------------------------------------------------------------- *)

Module Demo.
Import PyStr.

(* Stand-in for BeautifulSoup on the pages below: a body lists the
   values of its href and src attributes, one per line. *)
Definition lines (text : string) : py (list string) :=
  Return (if is_empty text then [] else split "010"%char text).

(* CPython's urllib.parse and pathlib on a machine with file system fs;
   the digest is a stand-in that is injective. *)
Definition cpython (fs : PathLib.filesystem) (max_depth : Z) : PyEnv := {|
  urlparse := UrlLib.urlparse;
  urlunparse := UrlLib.urlunparse;
  path_resolve := fun s =>
    match PathLib.resolve 64 fs s with
    | PathLib.Done r => Return r
    | _ => Raise OtherError
    end;
  find_all_links := lines;
  md5_hexdigest := fun c => c;
  MAX_DEPTH_LEVEL := max_depth
|}.

Definition html (body : string) : py response :=
  Return (mkResponse (Some "text/html; charset=utf-8") body body).

(* oracles: nothing fails, first-in first-out *)
Definition go : oracle := mkOracle 0 (Raise OtherError) (Return tt) 0 [].
Definition fetched (r : py response) : oracle := mkOracle 0 r (Return tt) 0 [].
Definition ordered (us : list string) : oracle :=
  mkOracle 0 (Raise OtherError) (Return tt) 0 us.
Definition write_fails : oracle := mkOracle 0 (Raise OtherError) (Raise OtherError) 0 [].

Definition S_ : string := "http://x.test/".
Definition A_ : string := "http://x.test/a".
Definition B_ : string := "http://x.test/b".

(* the parent page of the normalisation examples *)
Definition parent (url : string) : ParseResult :=
  match UrlLib.urlparse url with
  | Return p => p
  | Raise _ => mkParseResult "" "" "" "" "" ""
  end.

(* One worker, depth limit 0; the seed page has the single link /a. *)
Definition sched_depth : list (nat * oracle) :=
  [(0%nat, go); (0%nat, go); (0%nat, go);
   (0%nat, fetched (html "/a"));
   (0%nat, ordered [A_]);
   (0%nat, go); (0%nat, go)].

(* One worker; the seed page has the single link ::not a url:: ; the
   iteration on the seed runs to its end. *)
Definition NOT_A_URL : string := "http://x.test/::not a url::".
Definition sched_malformed : list (nat * oracle) :=
  [(0%nat, go); (0%nat, go); (0%nat, go);
   (0%nat, fetched (html "::not a url::"));
   (0%nat, ordered [NOT_A_URL]);
   (0%nat, go); (0%nat, go); (0%nat, go); (0%nat, go); (0%nat, go)].

(* The iteration of worker 0 on the seed, whose page links to /a and /b. *)
Definition sched_seed : list (nat * oracle) :=
  [(0%nat, go); (0%nat, go); (0%nat, go);
   (0%nat, fetched (html ("/a" ++ String "010"%char "/b")));
   (0%nat, ordered [A_; B_]);
   (0%nat, go); (0%nat, go); (0%nat, go); (0%nat, go);
   (0%nat, go); (0%nat, go); (0%nat, go)].

(* Two workers.  Worker 0 takes (/a, 1) and is about to fetch it.
   Meanwhile worker 1 takes (/b, 1), whose page links to /a, puts
   (/a, 2), finishes, takes (/a, 2) and fetches it; then worker 0's
   fetch returns.  rest is what the world answers from the fetch of /a
   to the end of the iteration on it. *)
Definition sched_race (rest : list oracle) : list (nat * oracle) :=
  (sched_seed ++
   [(0%nat, go); (0%nat, go); (0%nat, go)] ++
   [(1%nat, go); (1%nat, go); (1%nat, go);
    (1%nat, fetched (html "/a"));
    (1%nat, ordered [A_]);
    (1%nat, go); (1%nat, go); (1%nat, go); (1%nat, go); (1%nat, go)] ++
   [(1%nat, go); (1%nat, go); (1%nat, go)] ++
   List.map (pair 1%nat) rest ++
   List.map (pair 0%nat) rest)%list.

(* /a is an empty page *)
Definition a_is_a_page : list oracle := [fetched (html ""); go; go; go; go].
(* /a cannot be downloaded *)
Definition a_is_down : list oracle := [fetched (Raise RequestException); go; go; go].
(* /a is an image *)
Definition a_is_an_image : list oracle :=
  [fetched (Return (mkResponse (Some "image/png") "" "PNG")); go; go; go; go; go].

(* One worker; the fetch of the seed fails and the row of the invalid
   file cannot be written. *)
Definition sched_crash : list (nat * oracle) :=
  [(0%nat, go); (0%nat, go); (0%nat, go);
   (0%nat, fetched (Raise RequestException));
   (0%nat, write_fails)].

(* The scenario of the specification: one worker, on the seed, whose
   page has the links /a, http://other.test/b and /img.png. *)
Definition IMG_ : string := "http://x.test/img.png".
Definition sched_scenario : list (nat * oracle) :=
  [(0%nat, go); (0%nat, go); (0%nat, go);
   (0%nat, fetched (html ("/a" ++ String "010"%char
                          ("http://other.test/b" ++ String "010"%char "/img.png"))));
   (0%nat, ordered [A_; IMG_]);
   (0%nat, go); (0%nat, go); (0%nat, go); (0%nat, go);
   (0%nat, go); (0%nat, go); (0%nat, go)].

Definition final {E : PyEnv} (sched : list (nat * oracle)) (s : state) : state :=
  match run sched s with
  | Some (_, s') => s'
  | None => s
  end.

Definition trace {E : PyEnv} (sched : list (nat * oracle)) (s : state) : list event :=
  match run sched s with
  | Some (tr, _) => tr
  | None => []
  end.

(* the default depth limit, and the limit 0 *)
Definition env2 : PyEnv := cpython PathLib.plain_fs 2.
Definition env0 : PyEnv := cpython PathLib.plain_fs 0.

End Demo.

(* --------------------------------------------------------------------- *)
(*  What a run keeps true                                                 *)
(* --------------------------------------------------------------------- *)

Section Invariant.
Context `{E : PyEnv} (starting_url : string).

(* u parses, the seed parses, and the two netlocs are the same string *)
Definition in_domain (u : string) : Prop :=
  exists h, host u = Some h /\ host starting_url = Some h.

(* u parses, the seed parses, and the two netlocs differ *)
Definition external (u : string) : Prop :=
  exists h h0, host u = Some h /\ host starting_url = Some h0 /\ h <> h0.

Definition item_ok (it : string * Z) : Prop :=
  0 <= snd it /\ (snd it = 0 \/ snd it <= MAX_DEPTH_LEVEL + 1) /\
  host (fst it) = host starting_url.

(* an EXTERNAL_DOMAIN row names a URL of another netloc *)
Definition rows_ok (rows : list (string * URLError)) : Prop :=
  forall u, In (u, EXTERNAL_DOMAIN) rows -> external u.

(* a DOWNLOAD_ERROR row collected while the item url is processed names
   url itself *)
Definition rows_own (url : string) (rows : list (string * URLError)) : Prop :=
  forall u, In (u, DOWNLOAD_ERROR) rows -> u = url.

Definition valid_ok (row : string * Z) : Prop :=
  snd row <= MAX_DEPTH_LEVEL /\ in_domain (fst row).

Definition phase_ok (url : string) (level : Z) (ph : phase) : Prop :=
  match ph with
  | TaskDone => True
  | CheckVisited | Announce | AppendDup _ | AppendVisited => level <= MAX_DEPTH_LEVEL
  | Fetch url_parsed | WriteValid url_parsed _ =>
      level <= MAX_DEPTH_LEVEL /\ urlparse url = Return url_parsed
  | PushCheck invalid_urls u us | Put invalid_urls u us =>
      level <= MAX_DEPTH_LEVEL /\ rows_ok invalid_urls /\ rows_own url invalid_urls /\
      Forall (fun v => host v = host starting_url) (u :: us)
  | LogErr invalid_urls | Flush invalid_urls =>
      level <= MAX_DEPTH_LEVEL /\ rows_ok invalid_urls /\ rows_own url invalid_urls
  end.

Definition worker_ok (w : wstate) : Prop :=
  match w with
  | Busy url level ph =>
      0 <= level /\ host url = host starting_url /\ phase_ok url level ph
  | _ => True
  end.

Definition Inv (s : state) : Prop :=
  Forall item_ok (queue s) /\ Forall worker_ok (workers s) /\
  Forall valid_ok (valid_urls_fd s) /\ rows_ok (invalid_urls_fd s).

(* Only queue.get() and queue.task_done() are ever performed on an item
   deeper than the limit; a put is one level below the item at hand. *)
Definition ev_ok (ev : event) : Prop :=
  match ev with
  | Ev _ _ level OpGet | Ev _ _ level OpTaskDone => True
  | Ev _ _ level (OpPut u l) =>
      level <= MAX_DEPTH_LEVEL /\ l = level + 1 /\ host u = host starting_url
  | Ev _ url level (OpWriteValid written _) =>
      level <= MAX_DEPTH_LEVEL /\ (written = [] \/ written = [(url, level)])
  | Ev _ url level (OpWriteInvalid written _) =>
      level <= MAX_DEPTH_LEVEL /\ rows_own url written
  | Ev _ _ level _ => level <= MAX_DEPTH_LEVEL
  end.

(* the rows the writes of a trace put in the two files *)
Definition valid_written (tr : list event) : list (string * Z) :=
  flat_map (fun ev => match ev with
                      | Ev _ _ _ (OpWriteValid written _) => written
                      | _ => []
                      end) tr.

Definition invalid_written (tr : list event) : list (string * URLError) :=
  flat_map (fun ev => match ev with
                      | Ev _ _ _ (OpWriteInvalid written _) => written
                      | _ => []
                      end) tr.

End Invariant.

(* --------------------------------------------------------------------- *)
(*  The counter of the queue                                              *)
(* --------------------------------------------------------------------- *)

Section AccountingDefs.
Context `{E : PyEnv}.

(* a worker that has taken an item and not called task_done for it *)
Definition holding (w : wstate) : nat :=
  match w with
  | Idle => 0
  | _ => 1
  end.

Definition in_flight (ws : list wstate) : nat := sum_list (List.map holding ws).

(* the counter of the JoinableQueue counts the queued items and the items
   taken and not marked done *)
Definition accounted (s : state) : Prop :=
  unfinished_tasks s = (length (queue s) + in_flight (workers s))%nat.

End AccountingDefs.

(* --------------------------------------------------------------------- *)
(*  Runs with a single worker                                             *)
(* --------------------------------------------------------------------- *)

Section SequentialDefs.
Context `{E : PyEnv}.

Definition is_download (r : string * URLError) : bool :=
  match snd r with
  | DOWNLOAD_ERROR => true
  | _ => false
  end.

(* the URLs of the DOWNLOAD_ERROR rows *)
Definition downloads (rows : list (string * URLError)) : list string :=
  List.map fst (List.filter is_download rows).

(* the URLs of the rows of the valid file *)
Definition valid_names (s : state) : list string := List.map fst (valid_urls_fd s).





End SequentialDefs.

(* --------------------------------------------------------------------- *)
(*  Where the items come from                                             *)
(* --------------------------------------------------------------------- *)

(* the item an event is on *)
Definition item_of (ev : event) : string * Z :=
  match ev with
  | Ev _ url level _ => (url, level)
  end.

(* the item a worker holds *)
Definition held (w : wstate) : option (string * Z) :=
  match w with
  | Idle => None
  | Busy url level _ | Dead url level => Some (url, level)
  end.

(* the item is the seed at depth 0, or an event of tr put it on the queue
   with this depth *)
Definition enqueued (starting_url : string) (tr : list event) (it : string * Z) : Prop :=
  it = (starting_url, 0) \/
  exists w url level, In (Ev w url level (OpPut (fst it) (snd it))) tr.

(* every event of tr is on an item that was enqueued before it *)
Definition genuine (starting_url : string) (tr : list event) : Prop :=
  forall tr1 ev tr2, tr = (tr1 ++ ev :: tr2)%list -> enqueued starting_url tr1 (item_of ev).

(* after the events tr: the queued items and the items the workers hold
   were enqueued by tr, with the depth they have *)
Definition Provenance (starting_url : string) (tr : list event) (s : state) : Prop :=
  Forall (enqueued starting_url tr) (queue s) /\
  Forall (fun w => forall it, held w = Some it -> enqueued starting_url tr it) (workers s) /\
  genuine starting_url tr.

(* One worker and the depth limit 0: the seed page links to /a, which is
   put on the queue at depth 1, taken from it and dropped. *)
Definition sched_bound : list (nat * oracle) :=
  (Demo.sched_depth ++ replicate 5 (0%nat, Demo.go))%list.

(* Following the specification: the report has the header and one row for
   each record whose hash is shared by at least 2 distinct URLs. *)
Definition spec_dupimgs (recs : list (string * string)) : list (string * string) :=
  ("URL", "md5") ::
  List.map Report.row_of
    (List.filter (fun r => Nat.ltb 1 (length (Report.urls_with_hash (fst r) recs))) recs).

(* --------------------------------------------------------------------- *)
(*  Shutdown, and further invariants of a run                             *)
(* --------------------------------------------------------------------- *)

(* Crawler.__init__, line 204, in the finally clause: the rows
   output_dupimgs writes to the duplicate-image file when the crawl is
   shut down in state s *)
Definition duplicate_img_fd (s : state) : list (string * string) :=
  Report.output_dupimgs (duplicate_images_urls s).

(* the first occurrences of l, in their order: the keys of a dict filled
   from l, and one way to iterate set(l) *)
Fixpoint first_occurrences (l : list string) : list string :=
  match l with
  | [] => []
  | x :: r => x :: List.filter (fun y => negb (String.eqb y x)) (first_occurrences r)
  end.

(* the environment E in which the process is interrupted (SIGINT) while
   urlparse works on the string bad *)
Definition interrupted_at (bad : string) (E : PyEnv) : PyEnv := {|
  urlparse := fun u => if String.eqb u bad then Raise KeyboardInterrupt else urlparse u;
  urlunparse := urlunparse;
  path_resolve := path_resolve;
  find_all_links := find_all_links;
  md5_hexdigest := md5_hexdigest;
  MAX_DEPTH_LEVEL := MAX_DEPTH_LEVEL
|}.

Section Further.
Context `{E : PyEnv}.



(* the program points of lines 124-131, reached only after the row of
   the item at hand has been written to the valid file *)
Definition recorded (ph : phase) : bool :=
  match ph with
  | PushCheck _ _ _ | Put _ _ _ | AppendDup _ => true
  | _ => false
  end.

(* where an item comes from: it is the seed at depth 0, or its depth is
   positive and a page one level above has a row in the valid file *)
Definition origin (starting_url : string) (s : state) (it : string * Z) : Prop :=
  it = (starting_url, 0) \/
  (0 < snd it /\ exists parent, In (parent, snd it - 1) (valid_urls_fd s)).

Definition worker_origin (starting_url : string) (s : state) (w : wstate) : Prop :=
  match w with
  | Busy url level ph =>
      origin starting_url s (url, level) /\
      (recorded ph = true -> In (url, level) (valid_urls_fd s))
  | _ => True
  end.

Definition Origin (starting_url : string) (s : state) : Prop :=
  Forall (origin starting_url s) (queue s) /\
  Forall (worker_origin starting_url s) (workers s) /\
  Forall (origin starting_url s) (valid_urls_fd s) /\
  (forall h u, In (h, u) (duplicate_images_urls s) -> In u (List.map fst (valid_urls_fd s))).

(* a PARSE_ERROR row names a string on which urlparse was interrupted *)
Definition parse_rows_ok (rows : list (string * URLError)) : Prop :=
  forall u, In (u, PARSE_ERROR) rows -> urlparse u = Raise KeyboardInterrupt.

Definition pending_rows (w : wstate) : list (string * URLError) :=
  match w with
  | Busy _ _ (PushCheck rows _ _) | Busy _ _ (Put rows _ _)
  | Busy _ _ (LogErr rows) | Busy _ _ (Flush rows) => rows
  | _ => []
  end.

Definition ParseRows (s : state) : Prop :=
  parse_rows_ok (invalid_urls_fd s) /\
  Forall (fun w => parse_rows_ok (pending_rows w)) (workers s).


(* the links of order that line 125 lets through: those not in visited *)
Definition fresh (visited order : list string) : list string :=
  List.filter (fun u => negb (PyStr.str_in u visited)) order.

(* the worker may have recorded v in one of the two files and has not
   yet appended it to visited_urls *)
Definition in_hand (v : string) (w : wstate) : bool :=
  match w with
  | Idle => false
  | Dead url _ => String.eqb url v
  | Busy url _ ph =>
      String.eqb url v &&
      match ph with
      | PushCheck _ _ _ | Put _ _ _ | AppendDup _ | LogErr _ | Flush _ | AppendVisited => true
      | _ => false
      end
  end.

(* every URL with a row of the valid file or a DOWNLOAD_ERROR row is in
   visited_urls, or still in the hands of the worker that recorded it *)
Definition Closing (s : state) : Prop :=
  forall v, In v (valid_names s) \/ In v (downloads (invalid_urls_fd s)) ->
    In v (visited_urls s) \/ exists i w, workers s !! i = Some w /\ in_hand v w = true.

(* what was printed on stdout covers what worker w is about to record *)
Definition announced_ok (s : state) (w : wstate) : Prop :=
  match w with
  | Busy url level ph =>
      match ph with
      | Fetch _ | WriteValid _ _ => In (url, level) (stdout s)
      | _ => True
      end /\
      forall u, In u (downloads (pending_rows w)) -> exists l, In (u, l) (stdout s)
  | _ => True
  end.

Definition Announced (s : state) : Prop :=
  (forall r, In r (valid_urls_fd s) -> In r (stdout s)) /\
  (forall u, In u (downloads (invalid_urls_fd s)) -> exists l, In (u, l) (stdout s)) /\
  Forall (announced_ok s) (workers s).

End Further.

(* ===================================================================== *)
(*  Lemmas                                                                *)
(* ===================================================================== *)

(* The models of urlparse, urlunparse and Path.resolve() on the values
   CPython gives. *)

Example up1 : UrlLib.urlparse "::not a url::" = pr "" "" "::not a url::" "" "" "".
Proof. reflexivity. Qed.
Example up2 : UrlLib.urlparse "http://x.test/p" = pr "http" "x.test" "/p" "" "" "".
Proof. reflexivity. Qed.
Example up3 : UrlLib.urlparse "HTTP://X.test/A?b#c" = pr "http" "X.test" "/A" "" "b" "c".
Proof. reflexivity. Qed.
Example up4 : UrlLib.urlparse "a;b/c;d?q;r#f" = pr "" "" "a;b/c" "d" "q;r" "f".
Proof. reflexivity. Qed.
Example up5 : UrlLib.urlparse "http://[::1" = Raise OtherError.
Proof. reflexivity. Qed.
Example up6 : UrlLib.urlparse ";x" = pr "" "" "" "x" "" "".
Proof. reflexivity. Qed.
Example up7 : UrlLib.urlparse "x:80" = pr "" "" "x:80" "" "" "".
Proof. reflexivity. Qed.
Example up8 : UrlLib.urlparse "mailto:x@y" = pr "mailto" "" "x@y" "" "" "".
Proof. reflexivity. Qed.
Example up9 : UrlLib.urlparse "//x.test" = pr "" "x.test" "" "" "" "".
Proof. reflexivity. Qed.
Example uu1 : UrlLib.urlunparse (mkParseResult "http" "x.test" "::not a url::" "" "" "") = "http://x.test/::not a url::".
Proof. reflexivity. Qed.
Example uu2 : UrlLib.urlunparse (mkParseResult "http" "" "//a" "p" "q" "") = "http://a;p?q".
Proof. reflexivity. Qed.
Example uu3 : UrlLib.urlunparse (mkParseResult "http" "" "a" "" "" "") = "http:///a".
Proof. reflexivity. Qed.
Example uu4 : UrlLib.urlunparse (mkParseResult "mailto" "" "a" "" "" "") = "mailto:a".
Proof. reflexivity. Qed.
Example ps1 : PathLib.path_str "//p//p/a..b" = "//p/p/a..b". Proof. reflexivity. Qed.
Example ps2 : PathLib.path_str "///../c" = "/../c". Proof. reflexivity. Qed.
Example ps3 : PathLib.path_str "////a//b/./c/" = "/a/b/c". Proof. reflexivity. Qed.
Example ps4 : PathLib.path_str "//" = "//". Proof. reflexivity. Qed.
Example ps5 : PathLib.path_str "" = ".". Proof. reflexivity. Qed.
Example np1 : PathLib.normpath "/a/../../b/./c//d" = "/b/c/d". Proof. reflexivity. Qed.
Example np2 : PathLib.normpath "a/../../b" = "../b". Proof. reflexivity. Qed.
Example np3 : PathLib.normpath "//a/b/.." = "//a". Proof. reflexivity. Qed.
Example rs1 : PathLib.resolve 8 PathLib.plain_fs "//a/b.html/../c" = PathLib.Done "/a/c".
Proof. reflexivity. Qed.
Example rs2 : PathLib.resolve 8 PathLib.plain_fs "//../c" = PathLib.Done "/c".
Proof. reflexivity. Qed.
Example rs3 : PathLib.resolve 8 PathLib.usrmerge_fs "//bin/x.html/../c" = PathLib.Done "/usr/bin/c".
Proof. reflexivity. Qed.
Example rs4 : PathLib.resolve 8 (PathLib.mkFs (fun p => if String.eqb p "/a" then Some "/a" else None) "/") "/a/b" = PathLib.Raised.
Proof. reflexivity. Qed.

Example rf1 : Rfc3986.resolve_path "/bin/x.html" "../c" = "/c". Proof. reflexivity. Qed.
Example rf2 : Rfc3986.resolve_path "/a/b/c" "./d" = "/a/b/d". Proof. reflexivity. Qed.
Example rf3 : Rfc3986.resolve_path "/a/b/c" ".." = "/a/". Proof. reflexivity. Qed.
Example rf4 : Rfc3986.resolve_path "/a/b/c" "../../../g" = "/g". Proof. reflexivity. Qed.
Example rf5 : Rfc3986.resolve_path "/a/b/c" "/x/./y/../z" = "/x/z". Proof. reflexivity. Qed.
Example rf6 : Rfc3986.resolve_path "/a/b/c" "../g/." = "/a/g/". Proof. reflexivity. Qed.
Example rf7 : Rfc3986.resolve_path "/p" "a..b" = "/a..b". Proof. reflexivity. Qed.

Section LinkFacts.
Context `{E : PyEnv}.

Lemma validate_url_some url p :
  validate_url url = Return (Some p) -> urlparse url = Return p.
Proof.
  unfold validate_url. destruct (urlparse url) as [q|[]]; congruence.
Qed.

Lemma validate_url_host url p :
  validate_url url = Return (Some p) -> host url = Some (netloc p).
Proof.
  intros H. apply validate_url_some in H. unfold host. now rewrite H.
Qed.

(* a link the loop keeps has the netloc of the page it was found on *)
Lemma resolve_link_valid url_parsed link u :
  resolve_link url_parsed link = Return (LinkValid u) ->
  host u = Some (netloc url_parsed).
Proof.
  unfold resolve_link, mbind, py_bind. intros H.
  destruct (validate_url link) as [[p|]|]; try discriminate.
  destruct (if PyStr.contains _ _ then _ else _) as [t2|]; try discriminate.
  destruct (validate_url (urlunparse _)) as [[p'|]|] eqn:Hp'; try discriminate.
  destruct (String.eqb (netloc p') (netloc url_parsed)) eqn:Hn; simpl in H; try discriminate.
  injection H as <-. apply String.eqb_eq in Hn.
  rewrite (validate_url_host _ _ Hp'). now rewrite Hn.
Qed.

(* a link recorded as EXTERNAL_DOMAIN parses, to another netloc *)
Lemma resolve_link_external url_parsed link u :
  resolve_link url_parsed link = Return (LinkInvalid u EXTERNAL_DOMAIN) ->
  exists h, host u = Some h /\ h <> netloc url_parsed.
Proof.
  unfold resolve_link, mbind, py_bind. intros H.
  destruct (validate_url link) as [[p|]|]; try discriminate.
  destruct (if PyStr.contains _ _ then _ else _) as [t2|]; try discriminate.
  destruct (validate_url (urlunparse _)) as [[p'|]|] eqn:Hp'; try discriminate.
  destruct (String.eqb (netloc p') (netloc url_parsed)) eqn:Hn; simpl in H; try discriminate.
  injection H as <-. apply String.eqb_neq in Hn.
  exists (netloc p'). split; [now apply validate_url_host | exact Hn].
Qed.

(* the loop over the links never collects a DOWNLOAD_ERROR row *)
Lemma resolve_link_not_download url_parsed link u :
  resolve_link url_parsed link <> Return (LinkInvalid u DOWNLOAD_ERROR).
Proof.
  unfold resolve_link, mbind, py_bind. intros H.
  destruct (validate_url link) as [[p|]|]; try discriminate.
  destruct (if PyStr.contains _ _ then _ else _) as [t2|]; try discriminate.
  destruct (validate_url (urlunparse _)) as [[p'|]|]; try discriminate.
  destruct (negb _); discriminate.
Qed.

Lemma str_in_In x l : PyStr.str_in x l = true <-> In x l.
Proof.
  unfold PyStr.str_in. rewrite existsb_exists. split.
  - intros (y & Hy & Heq). apply String.eqb_eq in Heq. now subst.
  - intros H. exists x. split; [exact H | apply String.eqb_refl].
Qed.

Lemma is_set_order_In us valid_urls u :
  is_set_order us valid_urls = true -> In u us -> In u valid_urls.
Proof.
  unfold is_set_order. intros H Hu.
  apply andb_prop in H as [H _]. apply andb_prop in H as [_ H].
  rewrite forallb_forall in H. apply str_in_In. now apply H.
Qed.

End LinkFacts.

Section InvariantFacts.
Context `{E : PyEnv} (starting_url : string).

Local Abbreviation same_host := (fun v => host v = host starting_url).

Lemma host_of_parse url p : urlparse url = Return p -> host url = Some (netloc p).
Proof. intros H. unfold host. now rewrite H. Qed.

Lemma rows_ok_nil : rows_ok starting_url [].
Proof. intros u []. Qed.

Lemma rows_own_nil url : rows_own url [].
Proof. intros u []. Qed.

Lemma rows_ok_app r1 r2 :
  rows_ok starting_url r1 -> rows_ok starting_url r2 -> rows_ok starting_url (r1 ++ r2).
Proof.
  intros H1 H2 u Hu. apply in_app_or in Hu as [Hu|Hu]; [now apply H1 | now apply H2].
Qed.

Lemma rows_own_app url r1 r2 :
  rows_own url r1 -> rows_own url r2 -> rows_own url (r1 ++ r2).
Proof.
  intros H1 H2 u Hu. apply in_app_or in Hu as [Hu|Hu]; [now apply H1 | now apply H2].
Qed.

Lemma rows_ok_download url : rows_ok starting_url [(url, DOWNLOAD_ERROR)].
Proof. intros u [Hu|[]]. discriminate. Qed.

Lemma rows_own_download url : rows_own url [(url, DOWNLOAD_ERROR)].
Proof. intros u [Hu|[]]. congruence. Qed.

Lemma rows_ok_parse url : rows_ok starting_url [(url, PARSE_ERROR)].
Proof. intros u [Hu|[]]. discriminate. Qed.

Lemma rows_own_parse url u : rows_own url [(u, PARSE_ERROR)].
Proof. intros u' [Hu|[]]. discriminate. Qed.

Lemma In_firstn {A} (x : A) n l : In x (List.firstn n l) -> In x l.
Proof.
  intros H. rewrite <- (firstn_skipn n l). apply in_or_app. now left.
Qed.

Lemma rows_ok_firstn n rows : rows_ok starting_url rows -> rows_ok starting_url (List.firstn n rows).
Proof. intros H u Hu. apply H. eapply In_firstn; eauto. Qed.

Lemma rows_own_firstn url n rows : rows_own url rows -> rows_own url (List.firstn n rows).
Proof. intros H u Hu. apply H. eapply In_firstn; eauto. Qed.

Lemma firstn_one {A} n (x : A) : List.firstn n [x] = [] \/ List.firstn n [x] = [x].
Proof. destruct n; simpl; [now left | right; now rewrite firstn_nil]. Qed.

Create HintDb rows.
Local Hint Resolve rows_ok_nil rows_own_nil rows_ok_download rows_own_download
     rows_ok_parse rows_own_parse : rows.

(* the loop over the links collects EXTERNAL_DOMAIN rows for URLs of
   other netlocs, no DOWNLOAD_ERROR row, and keeps links of the netloc of
   the page *)
Lemma for_links_ok url url_parsed links : forall invalid0 valid0 invalid valid exc,
  host url = host starting_url ->
  urlparse url = Return url_parsed ->
  rows_ok starting_url invalid0 -> rows_own url invalid0 ->
  Forall same_host valid0 ->
  for_links url_parsed links invalid0 valid0 = (invalid, valid, exc) ->
  rows_ok starting_url invalid /\ rows_own url invalid /\ Forall same_host valid.
Proof.
  induction links as [|link links IH]; simpl;
    intros invalid0 valid0 invalid valid exc Hh Hp Hi Ho Hv Hf.
  - injection Hf as <- <- <-. auto.
  - pose proof (host_of_parse _ _ Hp) as Hup.
    destruct (resolve_link url_parsed link) as [[u|u e]|e] eqn:Hr.
    + apply (IH _ _ _ _ _ Hh Hp Hi Ho) in Hf; [exact Hf|].
      apply Forall_app. split; [exact Hv|]. constructor; [|constructor].
      rewrite (resolve_link_valid _ _ _ Hr). congruence.
    + apply (IH _ _ _ _ _ Hh Hp) in Hf; [exact Hf| | |exact Hv].
      * apply rows_ok_app; [exact Hi|].
        intros u' [Hu'|[]]. injection Hu' as -> ->.
        destruct (resolve_link_external _ _ _ Hr) as (h & Hhu & Hne).
        exists h, (netloc url_parsed). split; [exact Hhu|]. split; [congruence | exact Hne].
      * apply rows_own_app; [exact Ho|].
        intros u' [Hu'|[]]. injection Hu' as -> ->.
        now apply resolve_link_not_download in Hr.
    + injection Hf as <- <- <-. auto.
Qed.

Lemma after_raise_ok e url level invalid_urls :
  0 <= level -> host url = host starting_url -> level <= MAX_DEPTH_LEVEL ->
  rows_ok starting_url invalid_urls -> rows_own url invalid_urls ->
  worker_ok starting_url (after_raise e url level invalid_urls).
Proof. intros. destruct e; simpl; auto. Qed.

Lemma after_push_ok url level invalid_urls us :
  level <= MAX_DEPTH_LEVEL -> rows_ok starting_url invalid_urls ->
  rows_own url invalid_urls -> Forall same_host us ->
  phase_ok starting_url url level (after_push invalid_urls us).
Proof. intros Hl Hr Ho Hu. destruct us; simpl; auto. Qed.

Lemma after_valid_ok url level url_parsed resp order w :
  0 <= level -> host url = host starting_url -> level <= MAX_DEPTH_LEVEL ->
  urlparse url = Return url_parsed ->
  after_valid url level url_parsed resp order = Some w ->
  worker_ok starting_url w.
Proof.
  intros H0 Hh Hl Hp. unfold after_valid.
  destruct (content_type resp) as [ct|]; [|intros [= <-]; simpl; auto 6 with rows].
  destruct (negb (PyStr.is_empty ct) && PyStr.contains "text/html" ct).
  - destruct (find_all_links (text resp)) as [links|e].
    + destruct (for_links url_parsed links [] []) as [[invalid valid] exc] eqn:Hf.
      apply (for_links_ok url) in Hf as (Hi & Ho & Hv); auto with rows.
      destruct exc as [e|].
      * intros [= <-]. now apply after_raise_ok.
      * destruct (is_set_order order valid) eqn:Hord; [|discriminate].
        intros [= <-]. simpl. split; [exact H0|]. split; [exact Hh|].
        apply after_push_ok; auto.
        apply Forall_forall. intros u Hu. rewrite Forall_forall in Hv. apply Hv.
        apply list_elem_of_In. apply (is_set_order_In _ _ _ Hord). now apply list_elem_of_In.
    + intros [= <-]. apply after_raise_ok; auto with rows.
  - destruct (negb (PyStr.is_empty ct) && PyStr.startswith "image/" ct);
      intros [= <-]; simpl; auto 6 with rows.
Qed.

Lemma Inv_set_worker i w s :
  Inv starting_url s -> worker_ok starting_url w -> Inv starting_url (set_worker i w s).
Proof.
  intros (Hq & Hw & Hv & Hr) Hok. repeat split; simpl; auto.
  now apply Forall_insert.
Qed.

(* every step keeps the invariant and performs an allowed operation *)
Lemma step_inv i o s ev s' :
  Inv starting_url s -> parse_url i o s = Some (ev, s') ->
  Inv starting_url s' /\ ev_ok starting_url ev.
Proof.
  intros HI Hstep. pose proof HI as (Hq & Hw & Hv & Hr).
  unfold parse_url in Hstep.
  destruct (workers s !! i) as [w|] eqn:Hwi; [|discriminate].
  pose proof (Forall_lookup_1 _ _ _ _ Hw Hwi) as Hok.
  destruct w as [|url level ph|]; [| |discriminate].
  - (* queue.get() *)
    destruct (queue s !! o_pick o) as [[url level]|] eqn:Hpick; [|discriminate].
    injection Hstep as <- <-.
    pose proof (Forall_lookup_1 _ _ _ _ Hq Hpick) as (H0 & Hb & Hh). simpl in *.
    split; [|exact I].
    repeat split; simpl; auto.
    + now apply Forall_delete.
    + apply Forall_insert; [exact Hw|]. simpl. repeat split; auto.
      destruct (Z.ltb_spec MAX_DEPTH_LEVEL level); simpl; auto.
  - destruct Hok as (H0 & Hh & Hph).
    destruct ph as [| |url_parsed|url_parsed resp|invalid u us|invalid u us|h|invalid|invalid| |];
      simpl in Hph.
    + (* url in visited_urls *)
      injection Hstep as <- <-. split; [|exact Hph].
      apply Inv_set_worker; [exact HI|].
      destruct (PyStr.str_in url (visited_urls s)); simpl; auto.
    + (* stdout *)
      destruct (o_write o) as [[]|e]; injection Hstep as <- <-; (split; [|exact Hph]).
      * repeat split; simpl; auto. apply Forall_insert; [exact Hw|].
        destruct (validate_url url) as [[p|]|e] eqn:Hp.
        -- simpl. repeat split; auto. now apply validate_url_some.
        -- apply (after_raise_ok InvalidUrl); auto with rows.
        -- apply after_raise_ok; auto with rows.
      * apply Inv_set_worker; [exact HI|]. apply after_raise_ok; auto with rows.
    + (* requests.get *)
      destruct Hph as [Hl Hp]. injection Hstep as <- <-. split; [|exact Hl].
      apply Inv_set_worker; [exact HI|].
      destruct (o_fetch o) as [resp|[]]; simpl; auto 6 with rows.
    + (* the row of the valid file *)
      destruct Hph as [Hl Hp].
      assert (Hrow : valid_ok starting_url (url, level)).
      { split; [exact Hl|]. simpl. exists (netloc url_parsed).
        pose proof (host_of_parse _ _ Hp). split; congruence. }
      destruct (o_write o) as [[]|e].
      * destruct (after_valid url level url_parsed resp (o_order o)) as [w|] eqn:Hav;
          [|discriminate].
        injection Hstep as <- <-. split; [|simpl; auto].
        repeat split; simpl; auto.
        -- apply Forall_insert; [exact Hw|].
           now apply (after_valid_ok _ _ _ _ _ _ H0 Hh Hl Hp Hav).
        -- apply Forall_app. split; [exact Hv|]. constructor; [exact Hrow | constructor].
      * injection Hstep as <- <-. split; [|split; [exact Hl | apply firstn_one]].
        repeat split; simpl; auto.
        -- apply Forall_insert; [exact Hw|]. apply after_raise_ok; auto with rows.
        -- apply Forall_app. split; [exact Hv|].
           destruct (firstn_one (o_partial o) (url, level)) as [-> | ->];
             [constructor | constructor; [exact Hrow | constructor]].
    + (* u in visited_urls *)
      destruct Hph as (Hl & Hi & Ho & Hu). injection Hstep as <- <-. split; [|exact Hl].
      apply Inv_set_worker; [exact HI|]. simpl. repeat split; auto.
      destruct (PyStr.str_in u (visited_urls s)); simpl; auto.
      apply after_push_ok; auto. now inversion Hu.
    + (* queue.put *)
      destruct Hph as (Hl & Hi & Ho & Hu). injection Hstep as <- <-.
      inversion Hu as [|? ? Hhu Hus]; subst.
      split; [|simpl; auto].
      repeat split; simpl; auto.
      * apply Forall_app. split; [exact Hq|]. constructor; [|constructor].
        repeat split; simpl; auto; lia.
      * apply Forall_insert; [exact Hw|]. simpl. repeat split; auto.
        now apply after_push_ok.
    + (* duplicate_images_urls.append *)
      injection Hstep as <- <-. split; [|exact Hph].
      repeat split; simpl; auto. apply Forall_insert; [exact Hw|].
      simpl. repeat split; auto with rows.
    + (* stderr *)
      destruct Hph as (Hl & Hi & Ho).
      destruct (o_write o) as [[]|e]; injection Hstep as <- <-; (split; [|exact Hl]).
      * repeat split; simpl; auto. apply Forall_insert; [exact Hw|]. simpl. auto.
      * apply Inv_set_worker; [exact HI|]. exact I.
    + (* the rows of the invalid file *)
      destruct Hph as (Hl & Hi & Ho).
      destruct (o_write o) as [[]|e]; injection Hstep as <- <-;
        (split; [|simpl; auto using rows_own_firstn]).
      * repeat split; simpl; auto.
        -- apply Forall_insert; [exact Hw|]. simpl. auto.
        -- now apply rows_ok_app.
      * repeat split; simpl; auto.
        -- apply Forall_insert; [exact Hw|]. exact I.
        -- apply rows_ok_app; [exact Hr | now apply rows_ok_firstn].
    + (* visited_urls.append *)
      injection Hstep as <- <-. split; [|exact Hph].
      repeat split; simpl; auto. apply Forall_insert; [exact Hw|]. simpl. auto.
    + (* queue.task_done() *)
      destruct (unfinished_tasks s); injection Hstep as <- <-; (split; [|exact I]).
      * apply Inv_set_worker; [exact HI|]. exact I.
      * repeat split; simpl; auto. apply Forall_insert; [exact Hw|]. exact I.
Qed.

Lemma Inv_Crawler n : Inv starting_url (Crawler starting_url n).
Proof.
  repeat split; simpl; auto using rows_ok_nil.
  - constructor; [|constructor]. repeat split; simpl; auto; lia.
  - apply Forall_forall. intros w Hw. apply elem_of_replicate in Hw as [-> _]. exact I.
Qed.

(* the invariant holds along every run, and so does ev_ok *)
Lemma run_inv sched : forall s tr s',
  Inv starting_url s -> run sched s = Some (tr, s') ->
  Inv starting_url s' /\ Forall (ev_ok starting_url) tr.
Proof.
  induction sched as [|[i o] sched IH]; simpl; intros s tr s' HI Hrun.
  - injection Hrun as <- <-. split; [exact HI | constructor].
  - destruct (parse_url i o s) as [[ev s1]|] eqn:Hs; [|discriminate].
    destruct (run sched s1) as [[tr1 s2]|] eqn:Hr; [|discriminate].
    injection Hrun as <- <-.
    destruct (step_inv _ _ _ _ _ HI Hs) as [HI1 Hev].
    destruct (IH _ _ _ HI1 Hr) as [HI2 Htr].
    split; [exact HI2 | now constructor].
Qed.

(* the two files hold what the writes of the run put there *)
Lemma step_files i o s ev s' :
  parse_url i o s = Some (ev, s') ->
  valid_urls_fd s' = (valid_urls_fd s ++ valid_written [ev])%list /\
  invalid_urls_fd s' = (invalid_urls_fd s ++ invalid_written [ev])%list.
Proof.
  unfold parse_url, set_worker, valid_written, invalid_written. intros H.
  repeat case_match; simplify_eq; simpl; rewrite ?app_nil_r; auto.
Qed.

Lemma run_files sched : forall s tr s',
  run sched s = Some (tr, s') ->
  valid_urls_fd s' = (valid_urls_fd s ++ valid_written tr)%list /\
  invalid_urls_fd s' = (invalid_urls_fd s ++ invalid_written tr)%list.
Proof.
  induction sched as [|[i o] sched IH]; simpl; intros s tr s' Hrun.
  - injection Hrun as <- <-. simpl. now rewrite !app_nil_r.
  - destruct (parse_url i o s) as [[ev s1]|] eqn:Hs; [|discriminate].
    destruct (run sched s1) as [[tr1 s2]|] eqn:Hr; [|discriminate].
    injection Hrun as <- <-.
    destruct (step_files _ _ _ _ _ Hs) as [Hv1 Hi1].
    destruct (IH _ _ _ Hr) as [Hv2 Hi2].
    rewrite Hv2, Hi2, Hv1, Hi1.
    change (ev :: tr1) with ([ev] ++ tr1)%list.
    unfold valid_written, invalid_written. rewrite !flat_map_app, !app_assoc. auto.
Qed.

End InvariantFacts.

(* queue.join() and the counter of unfinished tasks *)

Section Accounting.
Context `{E : PyEnv}.

Lemma in_flight_insert ws : forall i w w',
  ws !! i = Some w ->
  (in_flight (<[i:=w']> ws) + holding w = in_flight ws + holding w')%nat.
Proof.
  unfold in_flight. induction ws as [|x ws IH]; intros [|i] w w' H; simpl in *; try discriminate.
  - injection H as ->. lia.
  - specialize (IH i w w' H). lia.
Qed.

Lemma after_raise_holding e url level inv : holding (after_raise e url level inv) = 1%nat.
Proof. now destruct e. Qed.

Lemma after_valid_holding url level up resp order w :
  after_valid url level up resp order = Some w -> holding w = 1%nat.
Proof.
  unfold after_valid. intros H.
  repeat case_match; simplify_eq; auto using after_raise_holding.
Qed.

Lemma step_accounted i o s ev s' :
  accounted s -> parse_url i o s = Some (ev, s') -> accounted s'.
Proof.
  unfold accounted, parse_url. intros Ha Hs.
  destruct (workers s !! i) as [w|] eqn:Hwi; [|discriminate].
  destruct w as [|url level ph|]; [| |discriminate].
  - destruct (queue s !! o_pick o) as [[url level]|] eqn:Hpick; [|discriminate].
    injection Hs as <- <-. simpl.
    pose proof (in_flight_insert _ _ _
      (Busy url level (if Z.ltb MAX_DEPTH_LEVEL level then TaskDone else CheckVisited)) Hwi) as Hf.
    pose proof (length_delete (queue s) (o_pick o) (mk_is_Some _ _ Hpick)) as Hd.
    apply lookup_lt_Some in Hpick. simpl in Hf. lia.
  - assert (Hk : forall w', holding w' = 1%nat ->
              in_flight (<[i:=w']> (workers s)) = in_flight (workers s)).
    { intros w' Hw'. pose proof (in_flight_insert _ _ _ w' Hwi) as Hf. simpl in Hf. lia. }
    destruct ph; simpl in Hs.
    + injection Hs as <- <-. simpl. rewrite Hk; [exact Ha | now destruct (PyStr.str_in _ _)].
    + destruct (o_write o) as [[]|e]; injection Hs as <- <-; simpl; rewrite Hk; auto.
      * destruct (validate_url url) as [[p|]|e]; auto using after_raise_holding.
      * apply after_raise_holding.
    + injection Hs as <- <-. simpl. rewrite Hk; [exact Ha|].
      destruct (o_fetch o) as [resp|[]]; reflexivity.
    + destruct (o_write o) as [[]|e].
      * destruct (after_valid _ _ _ _ _) as [w|] eqn:Hav; [|discriminate].
        injection Hs as <- <-. simpl. rewrite Hk; [exact Ha|].
        eapply after_valid_holding; eauto.
      * injection Hs as <- <-. simpl. rewrite Hk; [exact Ha | apply after_raise_holding].
    + injection Hs as <- <-. simpl. rewrite Hk; [exact Ha | reflexivity].
    + injection Hs as <- <-. simpl. rewrite Hk; [|reflexivity].
      rewrite length_app. simpl. lia.
    + injection Hs as <- <-. simpl. rewrite Hk; [exact Ha | reflexivity].
    + destruct (o_write o) as [[]|e]; injection Hs as <- <-; simpl; rewrite Hk; auto.
    + destruct (o_write o) as [[]|e]; injection Hs as <- <-; simpl; rewrite Hk; auto.
    + injection Hs as <- <-. simpl. rewrite Hk; [exact Ha | reflexivity].
    + pose proof (in_flight_insert _ _ _ Idle Hwi) as Hf. simpl in Hf.
      destruct (unfinished_tasks s) as [|m] eqn:Hu; injection Hs as <- <-; simpl; lia.
Qed.

Lemma accounted_Crawler starting_url n : accounted (Crawler starting_url n).
Proof.
  unfold accounted, in_flight. simpl.
  induction n as [|n IH]; simpl; [reflexivity | lia].
Qed.

Lemma run_accounted sched : forall s tr s',
  accounted s -> run sched s = Some (tr, s') -> accounted s'.
Proof.
  induction sched as [|[i o] sched IH]; simpl; intros s tr s' Ha Hrun.
  - now injection Hrun as <- <-.
  - destruct (parse_url i o s) as [[ev s1]|] eqn:Hs; [|discriminate].
    destruct (run sched s1) as [[tr1 s2]|] eqn:Hr; [|discriminate].
    injection Hrun as <- <-. eauto using step_accounted.
Qed.

Lemma in_flight_0 ws : in_flight ws = 0%nat -> Forall (fun w => w = Idle) ws.
Proof.
  unfold in_flight. induction ws as [|w ws IH]; simpl; intros H; constructor.
  - destruct w; simpl in H; [reflexivity | lia | lia].
  - apply IH. lia.
Qed.

(* when queue.join() returns, the queue is empty and every worker is back
   in queue.get() *)
Lemma joined_quiescent starting_url n sched tr s :
  run sched (Crawler starting_url n) = Some (tr, s) ->
  joined s = true ->
  queue s = [] /\ Forall (fun w => w = Idle) (workers s).
Proof.
  intros Hrun Hj. apply Nat.eqb_eq in Hj.
  pose proof (run_accounted _ _ _ _ (accounted_Crawler starting_url n) Hrun) as Ha.
  unfold accounted in Ha. rewrite Hj in Ha. split.
  - destruct (queue s); [reflexivity | simpl in Ha; lia].
  - apply in_flight_0. lia.
Qed.

(* queue.task_done() never raises "called too many times" *)
Lemma task_done_in_time starting_url n sched tr s i url level :
  run sched (Crawler starting_url n) = Some (tr, s) ->
  workers s !! i = Some (Busy url level TaskDone) ->
  (0 < unfinished_tasks s)%nat.
Proof.
  intros Hrun Hw.
  pose proof (run_accounted _ _ _ _ (accounted_Crawler starting_url n) Hrun) as Ha.
  unfold accounted in Ha.
  pose proof (in_flight_insert _ _ _ Idle Hw) as Hf. simpl in Hf. lia.
Qed.

Lemma step_keeps_dead i o s ev s' j url level :
  parse_url i o s = Some (ev, s') ->
  workers s !! j = Some (Dead url level) ->
  workers s' !! j = Some (Dead url level).
Proof.
  intros Hs Hj.
  assert (Hij : i <> j).
  { intros ->. unfold parse_url in Hs. rewrite Hj in Hs. discriminate. }
  unfold parse_url, set_worker in Hs.
  repeat case_match; simplify_eq; simpl; rewrite list_lookup_insert_ne; auto.
Qed.

Lemma run_keeps_dead sched : forall s tr s' j url level,
  run sched s = Some (tr, s') ->
  workers s !! j = Some (Dead url level) ->
  workers s' !! j = Some (Dead url level).
Proof.
  induction sched as [|[i o] sched IH]; simpl; intros s tr s' j url level Hrun Hj.
  - now injection Hrun as <- <-.
  - destruct (parse_url i o s) as [[ev s1]|] eqn:Hs; [|discriminate].
    destruct (run sched s1) as [[tr1 s2]|] eqn:Hr; [|discriminate].
    injection Hrun as <- <-. eauto using step_keeps_dead.
Qed.

(* once a worker is gone with an item, queue.join() does not return,
   whatever the other workers do *)
Lemma dead_worker_blocks_join starting_url n sched tr s j url level sched' tr' s' :
  run sched (Crawler starting_url n) = Some (tr, s) ->
  workers s !! j = Some (Dead url level) ->
  run sched' s = Some (tr', s') ->
  joined s' = false.
Proof.
  intros Hrun Hj Hrun'.
  pose proof (run_accounted _ _ _ _ (accounted_Crawler starting_url n) Hrun) as Ha.
  pose proof (run_accounted _ _ _ _ Ha Hrun') as Ha'.
  pose proof (run_keeps_dead _ _ _ _ _ _ _ Hrun' Hj) as Hj'.
  pose proof (in_flight_insert _ _ _ Idle Hj') as Hf. simpl in Hf.
  unfold accounted in Ha'. unfold joined. apply Nat.eqb_neq. lia.
Qed.

End Accounting.

(* what the except handler does *)

Section Handler.
Context `{E : PyEnv}.

Lemma after_push_not_LogErr inv us inv' : after_push inv us <> LogErr inv'.
Proof. destruct us; discriminate. Qed.

(* A worker that enters the handler of `except Exception` (lines 135-138)
   has put nothing on the queue in that step and written no row of the
   invalid file. *)
Lemma raise_in_try_puts_nothing i o s ev s' url level ph inv :
  workers s !! i = Some (Busy url level ph) ->
  parse_url i o s = Some (ev, s') ->
  workers s' !! i = Some (Busy url level (LogErr inv)) ->
  queue s' = queue s /\ unfinished_tasks s' = unfinished_tasks s /\
  invalid_urls_fd s' = invalid_urls_fd s /\ visited_urls s' = visited_urls s /\
  stderr s' = stderr s.
Proof.
  intros Hw Hs Hw'. pose proof (lookup_lt_Some _ _ _ Hw) as Hlt.
  unfold parse_url, set_worker in Hs. rewrite Hw in Hs.
  destruct ph; repeat case_match; simplify_eq; simpl in *; auto;
    rewrite list_lookup_insert_eq in Hw' by exact Hlt; simplify_eq;
    exfalso; eapply after_push_not_LogErr; eauto.
Qed.

(* From the handler to the end of the iteration, when the writes to stderr
   and to the invalid file succeed: the error is reported on stderr, the
   rows collected so far are written, the URL is appended to visited_urls
   and the item is marked done. *)
Lemma handler_reaches_task_done s i url level inv :
  workers s !! i = Some (Busy url level (LogErr inv)) ->
  (0 < unfinished_tasks s)%nat ->
  exists tr s',
    run [(i, Demo.go); (i, Demo.go); (i, Demo.go); (i, Demo.go)] s = Some (tr, s') /\
    workers s' = <[i:=Idle]> (workers s) /\
    stderr s' = (stderr s ++ [url])%list /\
    invalid_urls_fd s' = (invalid_urls_fd s ++ inv)%list /\
    visited_urls s' = (visited_urls s ++ [url])%list /\
    S (unfinished_tasks s') = unfinished_tasks s /\
    queue s' = queue s /\ valid_urls_fd s' = valid_urls_fd s /\
    duplicate_images_urls s' = duplicate_images_urls s.
Proof.
  intros Hw Hu. pose proof (lookup_lt_Some _ _ _ Hw) as Hlt.
  destruct (unfinished_tasks s) as [|m] eqn:Hm; [lia|].
  unfold run, parse_url. rewrite Hw. simpl.
  rewrite list_lookup_insert_eq by exact Hlt. simpl.
  rewrite list_lookup_insert_eq by (rewrite length_insert; exact Hlt). simpl.
  rewrite list_lookup_insert_eq by (rewrite !length_insert; exact Hlt). simpl.
  rewrite Hm. eexists. eexists. split; [reflexivity|]. simpl.
  rewrite !list_insert_insert_eq. repeat split.
Qed.

End Handler.

(* visited_urls *)

Section Visited.
Context `{E : PyEnv} (starting_url : string).




(* An item whose URL is found in visited_urls is marked done, and nothing
   is written for it. *)
Lemma visited_item_is_dropped s i url level :
  workers s !! i = Some (Busy url level CheckVisited) ->
  In url (visited_urls s) ->
  (0 < unfinished_tasks s)%nat ->
  exists tr s',
    run [(i, Demo.go); (i, Demo.go)] s = Some (tr, s') /\
    workers s' = <[i:=Idle]> (workers s) /\
    S (unfinished_tasks s') = unfinished_tasks s /\
    valid_urls_fd s' = valid_urls_fd s /\ invalid_urls_fd s' = invalid_urls_fd s /\
    stdout s' = stdout s /\ stderr s' = stderr s /\
    visited_urls s' = visited_urls s /\ queue s' = queue s /\
    duplicate_images_urls s' = duplicate_images_urls s.
Proof.
  intros Hw Hin Hu. pose proof (lookup_lt_Some _ _ _ Hw) as Hlt.
  apply str_in_In in Hin.
  destruct (unfinished_tasks s) as [|m] eqn:Hm; [lia|].
  unfold run, parse_url. rewrite Hw. simpl. rewrite Hin.
  rewrite list_lookup_insert_eq by exact Hlt. simpl.
  rewrite Hm. eexists. eexists. split; [reflexivity|]. simpl.
  rewrite !list_insert_insert_eq. repeat split.
Qed.

End Visited.

(* one worker: every URL is recorded once *)

Section Sequential.
Context `{E : PyEnv}.

Lemma downloads_app r1 r2 : downloads (r1 ++ r2) = (downloads r1 ++ downloads r2)%list.
Proof. unfold downloads. now rewrite List.filter_app, List.map_app. Qed.

Lemma for_links_downloads url_parsed links : forall invalid0 valid0 invalid valid exc,
  for_links url_parsed links invalid0 valid0 = (invalid, valid, exc) ->
  downloads invalid = downloads invalid0.
Proof.
  induction links as [|link links IH]; simpl; intros invalid0 valid0 invalid valid exc Hf.
  - now injection Hf as <- <- <-.
  - destruct (resolve_link url_parsed link) as [[u|u e]|e] eqn:Hr.
    + eauto.
    + rewrite (IH _ _ _ _ _ Hf), downloads_app.
      destruct e; simpl; rewrite ?app_nil_r; auto.
      now apply resolve_link_not_download in Hr.
    + now injection Hf as <- <- <-.
Qed.















End Sequential.

(* output_dupimgs *)

Section ReportFacts.
Import Report.

Lemma pair_dec : forall x y : string * string, {x = y} + {x <> y}.
Proof. decide equality; apply string_dec. Qed.

Lemma dict_get_append k h u d :
  dict_get k (dict_append h u d) =
  if String.eqb k h then (dict_get k d ++ [u])%list else dict_get k d.
Proof.
  induction d as [|[k' urls] d IH]; simpl.
  - rewrite String.eqb_sym. destruct (String.eqb k h); reflexivity.
  - destruct (String.eqb k' h) eqn:Hkh; simpl.
    + apply String.eqb_eq in Hkh. subst k'.
      rewrite (String.eqb_sym h k). destruct (String.eqb k h); reflexivity.
    + destruct (String.eqb k' k) eqn:Hkk; [|exact IH].
      apply String.eqb_eq in Hkk. subst k'. now rewrite Hkh.
Qed.

Lemma keys_append h u d :
  List.map fst (dict_append h u d) =
  if PyStr.str_in h (List.map fst d) then List.map fst d else (List.map fst d ++ [h])%list.
Proof.
  induction d as [|[k urls] d IH]; simpl; [reflexivity|].
  rewrite (String.eqb_sym h k).
  destruct (String.eqb k h); simpl; [reflexivity|].
  rewrite IH. unfold PyStr.str_in. now destruct (existsb _ _).
Qed.

Lemma keys_append_NoDup h u d :
  NoDup (List.map fst d) -> NoDup (List.map fst (dict_append h u d)).
Proof.
  intros Hnd. rewrite keys_append.
  destruct (PyStr.str_in h (List.map fst d)) eqn:Hin; [exact Hnd|].
  apply NoDup_app. split; [exact Hnd|]. split; [|apply NoDup_singleton].
  intros x Hx Hx'. apply list_elem_of_In in Hx. apply list_elem_of_singleton in Hx'. subst x.
  apply str_in_In in Hx. congruence.
Qed.

Lemma group_get k recs : forall d,
  dict_get k (group d recs) = (dict_get k d ++ List.map snd (with_hash k recs))%list.
Proof.
  unfold group, with_hash.
  induction recs as [|[h u] recs IH]; simpl; intros d.
  - now rewrite app_nil_r.
  - rewrite IH, dict_get_append. rewrite (String.eqb_sym k h).
    destruct (String.eqb h k); simpl; [now rewrite <- app_assoc | reflexivity].
Qed.

Lemma group_NoDup recs : forall d,
  NoDup (List.map fst d) -> NoDup (List.map fst (group d recs)).
Proof.
  unfold group. induction recs as [|[h u] recs IH]; simpl; intros d Hd; [exact Hd|].
  apply IH. now apply keys_append_NoDup.
Qed.

Lemma dict_get_missing h d : ~ In h (List.map fst d) -> dict_get h d = [].
Proof.
  induction d as [|[k urls] d IH]; simpl; intros Hn; [reflexivity|].
  destruct (String.eqb k h) eqn:Hk.
  - apply String.eqb_eq in Hk. tauto.
  - apply IH. tauto.
Qed.

Lemma count_row_map u h k urls :
  count_occ pair_dec (List.map (fun u' => (u', k)) urls) (u, h) =
  if String.eqb k h then count_occ string_dec urls u else 0%nat.
Proof.
  induction urls as [|u' urls IH]; simpl.
  - now destruct (String.eqb k h).
  - destruct (pair_dec (u', k) (u, h)) as [Heq|Hne].
    + injection Heq as -> ->. rewrite String.eqb_refl in *. rewrite IH.
      destruct (string_dec u u); [reflexivity | congruence].
    + rewrite IH. destruct (String.eqb k h) eqn:Hk; [|reflexivity].
      apply String.eqb_eq in Hk. subst k.
      destruct (string_dec u' u); [congruence | reflexivity].
Qed.

(* how often a row occurs among the rows written for a dict *)
Lemma count_rows u h d :
  NoDup (List.map fst d) ->
  count_occ pair_dec (flat_map rows_of d) (u, h) =
  if Nat.ltb 1 (length (dict_get h d)) then count_occ string_dec (dict_get h d) u else 0%nat.
Proof.
  induction d as [|[k urls] d IH]; simpl; intros Hnd; [reflexivity|].
  apply NoDup_cons in Hnd as [Hk Hnd].
  rewrite count_occ_app, (IH Hnd).
  destruct (String.eqb k h) eqn:Hkh.
  - apply String.eqb_eq in Hkh. subst k.
    rewrite (dict_get_missing h d) by (rewrite <- list_elem_of_In; exact Hk). simpl.
    destruct (Nat.ltb 1 (length urls)); simpl; [|reflexivity].
    rewrite count_row_map, String.eqb_refl. lia.
  - destruct (Nat.ltb 1 (length urls)); simpl; [|reflexivity].
    now rewrite count_row_map, Hkh.
Qed.

Lemma count_with_hash u h recs :
  count_occ string_dec (List.map snd (with_hash h recs)) u = count_occ pair_dec recs (h, u).
Proof.
  unfold with_hash. induction recs as [|[h' u'] recs IH]; simpl; [reflexivity|].
  destruct (String.eqb h' h) eqn:Hh; simpl.
  - apply String.eqb_eq in Hh. subst h'. rewrite IH.
    destruct (string_dec u' u), (pair_dec (h, u') (h, u)); congruence.
  - rewrite IH. apply String.eqb_neq in Hh.
    destruct (pair_dec (h', u') (h, u)); congruence.
Qed.

Lemma count_repeated u h recs0 recs :
  count_occ pair_dec
    (List.map row_of (List.filter (fun r => Nat.ltb 1 (length (with_hash (fst r) recs0))) recs))
    (u, h) =
  if Nat.ltb 1 (length (with_hash h recs0)) then count_occ pair_dec recs (h, u) else 0%nat.
Proof.
  induction recs as [|[h' u'] recs IH]; simpl.
  - now destruct (Nat.ltb _ _).
  - destruct (pair_dec (h', u') (h, u)) as [Heq|Hne].
    + injection Heq as -> ->.
      destruct (Nat.ltb 1 (length (with_hash h recs0))) eqn:Hc; simpl.
      * unfold row_of at 1. simpl. destruct (pair_dec (u, h) (u, h)); [|congruence].
        rewrite IH. reflexivity.
      * rewrite IH. reflexivity.
    + destruct (Nat.ltb 1 (length (with_hash h' recs0))) eqn:Hc; simpl.
      * unfold row_of at 1. simpl. destruct (pair_dec (u', h') (u, h)); [congruence|].
        exact IH.
      * exact IH.
Qed.

(* the rows after the header, up to their order *)
Lemma output_dupimgs_rows recs :
  Permutation (flat_map rows_of (group [] recs)) (List.map row_of (repeated recs)).
Proof.
  apply (Permutation_count_occ pair_dec). intros [u h].
  rewrite count_rows by (apply group_NoDup; constructor).
  unfold repeated. rewrite count_repeated.
  rewrite group_get. simpl. rewrite length_map.
  destruct (Nat.ltb 1 (length (with_hash h recs))); [|reflexivity].
  apply count_with_hash.
Qed.

(* when no record is repeated, the records with hash h are as many as
   the distinct URLs with hash h *)
Lemma with_hash_distinct h recs :
  List.NoDup recs -> length (with_hash h recs) = length (urls_with_hash h recs).
Proof.
  intros Hnd. unfold urls_with_hash.
  rewrite nodup_fixed_point; [now rewrite length_map|].
  unfold with_hash. induction recs as [|[h' u'] recs IH]; simpl; [constructor|].
  apply List.NoDup_cons_iff in Hnd as [Hn Hnd].
  destruct (String.eqb h' h) eqn:Hh; simpl; [|now apply IH].
  apply String.eqb_eq in Hh. subst h'.
  apply List.NoDup_cons_iff. split; [|now apply IH].
  intros Hin. apply Hn. apply in_map_iff in Hin as ([h2 u2] & Hu & Hin).
  simpl in Hu. subst u2. apply filter_In in Hin as [Hin Hh2]. simpl in Hh2.
  apply String.eqb_eq in Hh2. now subst h2.
Qed.

End ReportFacts.

Section CPythonFacts.

Lemma split_rest_raise sch url e : UrlLib.split_rest sch url = Raise e -> e = OtherError.
Proof.
  unfold UrlLib.split_rest. intros H.
  repeat case_match; simplify_eq; reflexivity.
Qed.

Lemma urlsplit_raise url e : UrlLib.urlsplit url = Raise e -> e = OtherError.
Proof.
  unfold UrlLib.urlsplit. intros H.
  repeat case_match; eauto using split_rest_raise.
Qed.

(* urlparse raises ValueError, if anything *)
Lemma urlparse_raise url e : UrlLib.urlparse url = Raise e -> e = OtherError.
Proof.
  unfold UrlLib.urlparse. intros H.
  destruct (UrlLib.urlsplit url) as [[[[[sch nl] u] qry] frag]|e'] eqn:Hs.
  - repeat case_match; discriminate.
  - injection H as <-. eauto using urlsplit_raise.
Qed.

(* with CPython's urlparse, validate_url never returns None *)
Lemma validate_url_never_None fs d url :
  @validate_url (Demo.cpython fs d) url <> Return None.
Proof.
  unfold validate_url. simpl.
  destruct (UrlLib.urlparse url) as [p|e] eqn:Hp; [discriminate|].
  apply urlparse_raise in Hp. subst e. discriminate.
Qed.

(* so no link is ever classified PARSE_ERROR *)
Lemma no_parse_error fs d url_parsed link u :
  @resolve_link (Demo.cpython fs d) url_parsed link <> Return (LinkInvalid u PARSE_ERROR).
Proof.
  unfold resolve_link, mbind, py_bind. intros H.
  destruct (validate_url link) as [[p|]|] eqn:H1; try discriminate.
  - destruct (if PyStr.contains _ _ then _ else _) as [t2|]; try discriminate.
    destruct (validate_url (urlunparse _)) as [[p'|]|] eqn:H2; try discriminate.
    + destruct (negb _); discriminate.
    + now apply validate_url_never_None in H2.
  - now apply validate_url_never_None in H1.
Qed.

End CPythonFacts.

(* the items of the events *)

Section ProvenanceFacts.
Context `{E : PyEnv} (starting_url : string).

Lemma enqueued_mono tr tr' it :
  enqueued starting_url tr it -> enqueued starting_url (tr ++ tr') it.
Proof.
  intros [H|(w & url & level & H)]; [now left|].
  right. exists w, url, level. apply in_or_app. now left.
Qed.

Lemma held_after_raise e url level inv :
  held (after_raise e url level inv) = Some (url, level).
Proof. now destruct e. Qed.

Lemma held_after_valid url level url_parsed resp order w :
  after_valid url level url_parsed resp order = Some w -> held w = Some (url, level).
Proof.
  unfold after_valid. intros H.
  repeat case_match; simplify_eq; auto using held_after_raise.
Qed.

(* what one step does to the items: the event is on an item taken from
   the queue or held by the worker that moves, which holds no other item
   afterwards; the queue gains at most the item the event puts *)
Lemma step_items i o s ev s' :
  parse_url i o s = Some (ev, s') ->
  (In (item_of ev) (queue s) \/
   exists w, workers s !! i = Some w /\ held w = Some (item_of ev)) /\
  (exists w', workers s' = <[i:=w']> (workers s) /\
              forall it, held w' = Some it -> it = item_of ev) /\
  (forall P : string * Z -> Prop,
     Forall P (queue s) ->
     (forall it w url level, ev = Ev w url level (OpPut (fst it) (snd it)) -> P it) ->
     Forall P (queue s')).
Proof.
  unfold parse_url. intros H.
  destruct (workers s !! i) as [w|] eqn:Hwi; [|discriminate].
  destruct w as [|url level ph|]; [| |discriminate].
  - destruct (queue s !! o_pick o) as [[url level]|] eqn:Hpick; [|discriminate].
    injection H as <- <-. simpl. split; [|split].
    + left. apply list_elem_of_In. eapply list_elem_of_lookup_2; eauto.
    + eexists. split; [reflexivity|]. simpl. now intros it [= <-].
    + intros P HP _. now apply Forall_delete.
  - assert (Hme : In (url, level) (queue s) \/
                  exists w, Some (Busy url level ph) = Some w /\ held w = Some (url, level)).
    { right. eexists. split; reflexivity. }
    assert (Hsame : forall ph', forall it, held (Busy url level ph') = Some it -> it = (url, level)).
    { intros ph' it [= <-]. reflexivity. }
    assert (Hraise : forall e inv it, held (after_raise e url level inv) = Some it ->
                                      it = (url, level)).
    { intros e inv it. rewrite held_after_raise. now intros [= <-]. }
    unfold set_worker in H.
    destruct ph as [| |url_parsed|url_parsed resp|inv u us|inv u us|h|inv|inv| |].
    + injection H as <- <-. simpl. split; [exact Hme|]. split; [eauto|auto].
    + destruct (o_write o) as [[]|e]; injection H as <- <-; simpl;
        (split; [exact Hme|]); (split; [|auto]); eexists; (split; [reflexivity|]).
      * destruct (validate_url url) as [[p|]|e]; eauto.
      * apply Hraise.
    + injection H as <- <-. simpl. split; [exact Hme|]. split; [|auto].
      eexists. split; [reflexivity|].
      destruct (o_fetch o) as [resp|e]; [eauto|].
      destruct e; [apply Hraise | apply Hraise | apply (Hraise InvalidUrl) | apply Hraise].
    + destruct (o_write o) as [[]|e].
      * destruct (after_valid url level url_parsed resp (o_order o)) as [w|] eqn:Hav;
          [|discriminate].
        injection H as <- <-. simpl. split; [exact Hme|]. split; [|auto].
        eexists. split; [reflexivity|]. intros it.
        rewrite (held_after_valid _ _ _ _ _ _ Hav). now intros [= <-].
      * injection H as <- <-. simpl. split; [exact Hme|]. split; [|auto].
        eexists. split; [reflexivity|]. apply Hraise.
    + injection H as <- <-. simpl. split; [exact Hme|]. split; [eauto|auto].
    + injection H as <- <-. simpl. split; [exact Hme|]. split; [eauto|].
      intros P HP Hput. apply Forall_app. split; [exact HP|].
      constructor; [|constructor]. eapply (Hput (u, level + 1)). reflexivity.
    + injection H as <- <-. simpl. split; [exact Hme|]. split; [eauto|auto].
    + destruct (o_write o) as [[]|e]; injection H as <- <-; simpl;
        (split; [exact Hme|]); (split; [|auto]); eexists; (split; [reflexivity|]).
      * apply Hsame.
      * simpl. now intros it [= <-].
    + destruct (o_write o) as [[]|e]; injection H as <- <-; simpl;
        (split; [exact Hme|]); (split; [|auto]); eexists; (split; [reflexivity|]).
      * apply Hsame.
      * simpl. now intros it [= <-].
    + injection H as <- <-. simpl. split; [exact Hme|]. split; [eauto|auto].
    + destruct (unfinished_tasks s); injection H as <- <-; simpl;
        (split; [exact Hme|]); (split; [|auto]); eexists; (split; [reflexivity|]).
      * simpl. now intros it [= <-].
      * simpl. discriminate.
Qed.

Lemma step_Provenance tr i o s ev s' :
  Provenance starting_url tr s -> parse_url i o s = Some (ev, s') ->
  Provenance starting_url (tr ++ [ev]) s'.
Proof.
  intros (Hq & Hw & Hg) Hs.
  destruct (step_items _ _ _ _ _ Hs) as (Hfrom & (w' & Hws & Hw') & Hqueue).
  assert (Hev : enqueued starting_url tr (item_of ev)).
  { destruct Hfrom as [Hin|(w & Hwi & Hh)].
    - rewrite Forall_forall in Hq. apply Hq. now apply list_elem_of_In.
    - exact (Forall_lookup_1 _ _ _ _ Hw Hwi _ Hh). }
  split; [|split].
  - apply Hqueue.
    + eapply Forall_impl; [exact Hq|]. intros it. apply enqueued_mono.
    + intros it w url level ->. right. exists w, url, level.
      apply in_or_app. right. now left.
  - rewrite Hws. apply Forall_insert.
    + eapply Forall_impl; [exact Hw|]. intros w H it Hit. apply enqueued_mono. auto.
    + intros it Hit. rewrite (Hw' it Hit). now apply enqueued_mono.
  - intros tr1 e tr2 Heq.
    induction tr2 as [|x tr2' _] using rev_ind.
    + apply app_inj_tail in Heq as [<- <-]. exact Hev.
    + rewrite app_comm_cons, app_assoc in Heq.
      apply app_inj_tail in Heq as [-> _]. eapply Hg. reflexivity.
Qed.

Lemma Provenance_Crawler n : Provenance starting_url [] (Crawler starting_url n).
Proof.
  split; [|split]; simpl.
  - constructor; [now left | constructor].
  - apply Forall_forall. intros w Hw. apply elem_of_replicate in Hw as [-> _]. discriminate.
  - intros [|e tr1] ev tr2 H; discriminate.
Qed.

Lemma run_Provenance sched : forall tr0 s tr s',
  Provenance starting_url tr0 s -> run sched s = Some (tr, s') ->
  Provenance starting_url (tr0 ++ tr) s'.
Proof.
  induction sched as [|[i o] sched IH]; simpl; intros tr0 s tr s' HP Hrun.
  - injection Hrun as <- <-. now rewrite app_nil_r.
  - destruct (parse_url i o s) as [[ev s1]|] eqn:Hs; [|discriminate].
    destruct (run sched s1) as [[tr1 s2]|] eqn:Hr; [|discriminate].
    injection Hrun as <- <-.
    replace (tr0 ++ ev :: tr1)%list with ((tr0 ++ [ev]) ++ tr1)%list
      by now rewrite <- app_assoc.
    eapply IH; [|exact Hr]. eapply step_Provenance; eauto.
Qed.

Lemma In_valid_written x tr :
  In x (valid_written tr) ->
  exists w url level written r, In (Ev w url level (OpWriteValid written r)) tr /\ In x written.
Proof.
  unfold valid_written. intros H. apply in_flat_map in H as ([w url level op] & Hev & Hin).
  destruct op; try (destruct Hin; fail). eauto 8.
Qed.

Lemma In_invalid_written x tr :
  In x (invalid_written tr) ->
  exists w url level written r, In (Ev w url level (OpWriteInvalid written r)) tr /\ In x written.
Proof.
  unfold invalid_written. intros H. apply in_flat_map in H as ([w url level op] & Hev & Hin).
  destruct op; try (destruct Hin; fail). eauto 8.
Qed.

End ProvenanceFacts.

(* --------------------------------------------------------------------- *)
(*  The properties of the specification                                   *)
(* --------------------------------------------------------------------- *)

(** C1.  pathlib's resolve() follows the symbolic links of the machine the
    crawler runs on: the link ../c found on http://x.test/bin/x.html is
    resolved to /bin/c where /bin is a directory and to /usr/bin/c where
    /bin is a symbolic link to usr/bin, while textual resolution by the
    URL rules gives /c on every machine. *)
Theorem C1_resolution_reads_the_file_system :
  @resolve_link (Demo.cpython PathLib.plain_fs 2)
     (Demo.parent "http://x.test/bin/x.html") "../c"
    = Return (LinkValid "http://x.test/bin/c") /\
  @resolve_link (Demo.cpython PathLib.usrmerge_fs 2)
     (Demo.parent "http://x.test/bin/x.html") "../c"
    = Return (LinkValid "http://x.test/usr/bin/c") /\
  path (Demo.parent "http://x.test/bin/x.html") = "/bin/x.html" /\
  Rfc3986.resolve_path "/bin/x.html" "../c" = "/c".
Proof. repeat split; vm_compute; reflexivity. Qed.

(** C2.  The link ::not a url:: found on http://x.test/ is not rejected: it
    is classified valid as http://x.test/::not a url::, put on the queue
    at depth 1, and the invalid file gets no row. *)
Theorem C2_malformed_link_is_enqueued :
  @resolve_link Demo.env2 (Demo.parent Demo.S_) "::not a url::"
    = Return (LinkValid Demo.NOT_A_URL) /\
  exists tr s,
    @run Demo.env2 Demo.sched_malformed (Crawler Demo.S_ 1) = Some (tr, s) /\
    In (Ev 0 Demo.S_ 0 (OpPut Demo.NOT_A_URL 1)) tr /\
    queue s = [(Demo.NOT_A_URL, 1)] /\
    invalid_urls_fd s = [] /\
    workers s = [Idle].
Proof.
  split; [vm_compute; reflexivity|].
  eexists. eexists. split; [vm_compute; reflexivity|].
  split; [vm_compute; tauto|]. repeat split.
Qed.

(** C3 (counterexample).  With the depth limit 0 the worker that processes
    the seed puts the link /a of the seed page on the queue at depth 1:
    an item deeper than the limit is enqueued. *)
Lemma C3_counterexample :
  exists tr s,
    @run Demo.env0 Demo.sched_depth (Crawler Demo.S_ 1) = Some (tr, s) /\
    In (Ev 0 Demo.S_ 0 (OpPut Demo.A_ 1)) tr /\
    In (Demo.A_, 1) (queue s) /\
    @MAX_DEPTH_LEVEL Demo.env0 < 1.
Proof.
  eexists. eexists. split; [vm_compute; reflexivity|].
  split; [|split]; [vm_compute; tauto .. | reflexivity].
Qed.

(** C3 (amended).  In every run, every queue.put by a worker is of an item
    one level below the item the worker holds, which is not deeper than
    MAX_DEPTH_LEVEL: no item is ever enqueued deeper than
    MAX_DEPTH_LEVEL + 1, the seed apart, which is at depth 0.  The limit is
    enforced when an item is taken off the queue: on an item deeper than
    MAX_DEPTH_LEVEL a worker performs queue.get() and queue.task_done()
    and nothing else. *)
Theorem C3_enqueued_depth_at_most_limit_plus_one
  `{E : PyEnv} (starting_url : string) (n : nat) sched tr s :
  run sched (Crawler starting_url n) = Some (tr, s) ->
  (forall w url level u l, In (Ev w url level (OpPut u l)) tr ->
     level <= MAX_DEPTH_LEVEL /\ l = level + 1 /\ l <= MAX_DEPTH_LEVEL + 1) /\
  (forall u l, In (u, l) (queue s) -> 0 <= l /\ (l = 0 \/ l <= MAX_DEPTH_LEVEL + 1)) /\
  (forall w url level o, In (Ev w url level o) tr -> MAX_DEPTH_LEVEL < level ->
     o = OpGet \/ o = OpTaskDone).
Proof.
  intros Hrun.
  destruct (run_inv starting_url _ _ _ _ (Inv_Crawler starting_url n) Hrun) as [(Hq & _) Htr].
  rewrite Forall_forall in Htr.
  split; [|split].
  - intros w url level u l Hin. apply list_elem_of_In, Htr in Hin. simpl in Hin. lia.
  - intros u l Hin. rewrite Forall_forall in Hq. apply list_elem_of_In, Hq in Hin.
    destruct Hin as (H0 & Hb & _). simpl in *. auto.
  - intros w url level o Hin Hdeep. apply list_elem_of_In, Htr in Hin.
    destruct o; simpl in Hin; auto; lia.
Qed.

Lemma C3_enqueued_depth_witness :
  @run Demo.env0 Demo.sched_depth (Crawler Demo.S_ 1)
    = Some (@Demo.trace Demo.env0 Demo.sched_depth (Crawler Demo.S_ 1),
            @Demo.final Demo.env0 Demo.sched_depth (Crawler Demo.S_ 1)) /\
  forall w url level u l,
    In (Ev w url level (OpPut u l)) (@Demo.trace Demo.env0 Demo.sched_depth (Crawler Demo.S_ 1)) ->
    level <= 0 /\ l = level + 1 /\ l <= 0 + 1.
Proof.
  split; [vm_compute; reflexivity|].
  apply (@C3_enqueued_depth_at_most_limit_plus_one Demo.env0 Demo.S_ 1 Demo.sched_depth
           _ (@Demo.final Demo.env0 Demo.sched_depth (Crawler Demo.S_ 1))).
  vm_compute. reflexivity.
Defined.

(** C4.  In every run with depth limit MAX_DEPTH_LEVEL: every row of the
    valid file has a depth of at most the limit; every fetch, every write
    to the valid file and every write of rows to the invalid file is made
    by a worker on an item whose depth is at most the limit; the valid row
    is that of the item, and a DOWNLOAD_ERROR row names the item; the two
    files hold exactly what those writes put there.  The depth of an item
    is the depth it was enqueued with: every event is on the seed at depth
    0 or on an item that an earlier event put on the queue, with this
    depth, one more than the depth of the item processed then.  So a page
    that is fetched is the seed or was put while an item of depth below
    the limit was processed, and a page other than the seed that is only
    put while items of depth MAX_DEPTH_LEVEL are processed is never
    fetched and gets no row in the valid file and no DOWNLOAD_ERROR row. *)
Theorem C4_nothing_recorded_or_fetched_beyond_depth
  `{E : PyEnv} (starting_url : string) (n : nat) sched tr s :
  run sched (Crawler starting_url n) = Some (tr, s) ->
  (forall u l, In (u, l) (valid_urls_fd s) -> l <= MAX_DEPTH_LEVEL) /\
  (forall w url level r, In (Ev w url level (OpFetch r)) tr -> level <= MAX_DEPTH_LEVEL) /\
  (forall w url level written r,
     In (Ev w url level (OpWriteValid written r)) tr ->
     level <= MAX_DEPTH_LEVEL /\ (written = [] \/ written = [(url, level)])) /\
  (forall w url level written r,
     In (Ev w url level (OpWriteInvalid written r)) tr -> level <= MAX_DEPTH_LEVEL) /\
  (forall w url level written r u,
     In (Ev w url level (OpWriteInvalid written r)) tr ->
     In (u, DOWNLOAD_ERROR) written -> u = url) /\
  (forall w url level u l, In (Ev w url level (OpPut u l)) tr -> l = level + 1) /\
  valid_urls_fd s = valid_written tr /\
  invalid_urls_fd s = invalid_written tr /\
  (forall tr1 w url level o tr2,
     tr = (tr1 ++ Ev w url level o :: tr2)%list ->
     (url, level) = (starting_url, 0) \/
     exists w' url' level',
       In (Ev w' url' level' (OpPut url level)) tr1 /\
       level' <= MAX_DEPTH_LEVEL /\ level = level' + 1) /\
  (forall w u level r,
     In (Ev w u level (OpFetch r)) tr ->
     (u, level) = (starting_url, 0) \/
     exists w' url' level',
       In (Ev w' url' level' (OpPut u level)) tr /\ level' < MAX_DEPTH_LEVEL) /\
  (forall u,
     u <> starting_url ->
     (forall w url level l, In (Ev w url level (OpPut u l)) tr -> level = MAX_DEPTH_LEVEL) ->
     (forall w level r, ~ In (Ev w u level (OpFetch r)) tr) /\
     (forall l, ~ In (u, l) (valid_urls_fd s)) /\
     ~ In (u, DOWNLOAD_ERROR) (invalid_urls_fd s)).
Proof.
  intros Hrun.
  destruct (run_inv starting_url _ _ _ _ (Inv_Crawler starting_url n) Hrun)
    as [(_ & _ & Hv & _) Htr].
  destruct (run_files _ _ _ _ Hrun) as [Hfv Hfi]. simpl in Hfv, Hfi.
  destruct (run_Provenance starting_url _ _ _ _ _ (Provenance_Crawler starting_url n) Hrun)
    as (_ & _ & Hg). simpl in Hg.
  rewrite Forall_forall in Htr. rewrite Forall_forall in Hv.
  assert (Hev : forall ev, In ev tr -> ev_ok starting_url ev).
  { intros ev Hin. apply Htr. now apply list_elem_of_In. }
  assert (Hbefore : forall tr1 w url level o tr2,
            tr = (tr1 ++ Ev w url level o :: tr2)%list ->
            (url, level) = (starting_url, 0) \/
            exists w' url' level',
              In (Ev w' url' level' (OpPut url level)) tr1 /\
              level' <= MAX_DEPTH_LEVEL /\ level = level' + 1).
  { intros tr1 w url level o tr2 Heq.
    destruct (Hg _ _ _ Heq) as [Hseed|(w' & url' & level' & Hput)]; [now left|].
    right. exists w', url', level'. split; [exact Hput|].
    simpl in Hput. assert (Hin : In (Ev w' url' level' (OpPut url level)) tr).
    { rewrite Heq. apply in_or_app. now left. }
    apply Hev in Hin. simpl in Hin. tauto. }
  assert (Hitem : forall w url level o,
            In (Ev w url level o) tr ->
            (url, level) = (starting_url, 0) \/
            exists w' url' level',
              In (Ev w' url' level' (OpPut url level)) tr /\
              level' <= MAX_DEPTH_LEVEL /\ level = level' + 1).
  { intros w url level o Hin. apply in_split in Hin as (tr1 & tr2 & Heq).
    destruct (Hbefore _ _ _ _ _ _ Heq) as [Hseed|(w' & url' & level' & Hput & Hl)];
      [now left|].
    right. exists w', url', level'. split; [|exact Hl].
    rewrite Heq. apply in_or_app. now left. }
  assert (Hfetch : forall w u level r,
            In (Ev w u level (OpFetch r)) tr ->
            (u, level) = (starting_url, 0) \/
            exists w' url' level',
              In (Ev w' url' level' (OpPut u level)) tr /\ level' < MAX_DEPTH_LEVEL).
  { intros w u level r Hin. pose proof (Hev _ Hin) as Hok. simpl in Hok.
    destruct (Hitem _ _ _ _ Hin) as [Hseed|(w' & url' & level' & Hput & Hl & Heq)];
      [now left|].
    right. exists w', url', level'. split; [exact Hput | lia]. }
  split; [|split; [|split; [|split; [|split; [|split; [|split; [|split;
    [|split; [|split]]]]]]]]]; auto.
  - intros u l Hin. apply list_elem_of_In, Hv in Hin. apply Hin.
  - intros w url level r Hin. apply Hev in Hin. exact Hin.
  - intros w url level written r Hin. apply Hev in Hin. exact Hin.
  - intros w url level written r Hin. apply Hev in Hin. apply Hin.
  - intros w url level written r u Hin. apply Hev in Hin. apply Hin.
  - intros w url level u l Hin. apply Hev in Hin. apply Hin.
  - intros u Hne Hputs.
    assert (Hnever : forall w level o,
              In (Ev w u level o) tr -> level <= MAX_DEPTH_LEVEL -> False).
    { intros w level o Hin Hle.
      destruct (Hitem _ _ _ _ Hin) as [[= Hu _]|(w' & url' & level' & Hput & Hl & Heq)];
        [contradiction|].
      apply Hputs in Hput. lia. }
    split; [|split].
    + intros w level r Hin. apply (Hnever _ _ _ Hin). apply Hev in Hin. exact Hin.
    + intros l Hin. rewrite Hfv in Hin.
      apply In_valid_written in Hin as (w & url & level & written & r & Hin & Hrow).
      pose proof (Hev _ Hin) as [Hle [-> | ->]]; [destruct Hrow|].
      destruct Hrow as [[= -> ->]|[]]. exact (Hnever _ _ _ Hin Hle).
    + intros Hin. rewrite Hfi in Hin.
      apply In_invalid_written in Hin as (w & url & level & written & r & Hin & Hrow).
      pose proof (Hev _ Hin) as [Hle Hown]. rewrite (Hown _ Hrow) in *.
      exact (Hnever _ _ _ Hin Hle).
Qed.

Lemma C4_depth_witness :
  @run Demo.env0 sched_bound (Crawler Demo.S_ 1)
    = Some (@Demo.trace Demo.env0 sched_bound (Crawler Demo.S_ 1),
            @Demo.final Demo.env0 sched_bound (Crawler Demo.S_ 1)) /\
  In (Ev 0 Demo.S_ 0 (OpPut Demo.A_ 1)) (@Demo.trace Demo.env0 sched_bound (Crawler Demo.S_ 1)) /\
  In (Ev 0 Demo.A_ 1 OpGet) (@Demo.trace Demo.env0 sched_bound (Crawler Demo.S_ 1)) /\
  (forall w level r,
     ~ In (Ev w Demo.A_ level (OpFetch r))
          (@Demo.trace Demo.env0 sched_bound (Crawler Demo.S_ 1))) /\
  (forall l, ~ In (Demo.A_, l)
                  (valid_urls_fd (@Demo.final Demo.env0 sched_bound (Crawler Demo.S_ 1)))) /\
  ~ In (Demo.A_, DOWNLOAD_ERROR)
       (invalid_urls_fd (@Demo.final Demo.env0 sched_bound (Crawler Demo.S_ 1))).
Proof.
  split; [vm_compute; reflexivity|].
  split; [vm_compute; tauto|]. split; [vm_compute; tauto|].
  apply (@C4_nothing_recorded_or_fetched_beyond_depth Demo.env0 Demo.S_ 1 sched_bound
           (@Demo.trace Demo.env0 sched_bound (Crawler Demo.S_ 1))
           (@Demo.final Demo.env0 sched_bound (Crawler Demo.S_ 1))).
  - vm_compute. reflexivity.
  - discriminate.
  - intros w url level l Hin. vm_compute in Hin.
    repeat (destruct Hin as [Hin|Hin]; [try discriminate; now injection Hin as <- <- <- <-|]).
    destruct Hin.
Defined.

(** C5.  In every run: every row of the valid file names a URL that
    parses to the netloc of the seed; every row of the invalid file with
    kind EXTERNAL_DOMAIN names a URL that parses to a netloc other than
    the seed's; and every item on the queue has the host of the seed. *)
Theorem C5_domain_confinement
  `{E : PyEnv} (starting_url : string) (n : nat) sched tr s :
  run sched (Crawler starting_url n) = Some (tr, s) ->
  (forall u l, In (u, l) (valid_urls_fd s) -> in_domain starting_url u) /\
  (forall u, In (u, EXTERNAL_DOMAIN) (invalid_urls_fd s) -> external starting_url u) /\
  (forall u l, In (u, l) (queue s) -> host u = host starting_url).
Proof.
  intros Hrun.
  destruct (run_inv starting_url _ _ _ _ (Inv_Crawler starting_url n) Hrun)
    as [(Hq & _ & Hv & Hr) _].
  rewrite Forall_forall in Hq. rewrite Forall_forall in Hv.
  split; [|split].
  - intros u l Hin. apply list_elem_of_In, Hv in Hin. apply Hin.
  - exact Hr.
  - intros u l Hin. apply list_elem_of_In, Hq in Hin. apply Hin.
Qed.

Lemma C5_domain_witness :
  @run Demo.env2 Demo.sched_scenario (Crawler Demo.S_ 1)
    = Some (@Demo.trace Demo.env2 Demo.sched_scenario (Crawler Demo.S_ 1),
            @Demo.final Demo.env2 Demo.sched_scenario (Crawler Demo.S_ 1)) /\
  invalid_urls_fd (@Demo.final Demo.env2 Demo.sched_scenario (Crawler Demo.S_ 1))
    = [("http://other.test/b", EXTERNAL_DOMAIN)] /\
  @external Demo.env2 Demo.S_ "http://other.test/b".
Proof.
  split; [vm_compute; reflexivity|]. split; [vm_compute; reflexivity|].
  apply (@C5_domain_confinement Demo.env2 Demo.S_ 1 Demo.sched_scenario
           (@Demo.trace Demo.env2 Demo.sched_scenario (Crawler Demo.S_ 1))
           (@Demo.final Demo.env2 Demo.sched_scenario (Crawler Demo.S_ 1))).
  - vm_compute. reflexivity.
  - vm_compute. left. reflexivity.
Defined.

(** C6.  Two workers, the seed page links to /a and /b, the page /b links
    to /a: worker 1 takes (/a, 2) while worker 0 is still fetching (/a, 1),
    finds /a not yet in visited_urls, and both write a row of the valid
    file for http://x.test/a; queue.join() then returns. *)
Theorem C6_two_valid_rows_for_one_url :
  exists tr s,
    @run Demo.env2 (Demo.sched_race Demo.a_is_a_page) (Crawler Demo.S_ 2) = Some (tr, s) /\
    valid_urls_fd s = [(Demo.S_, 0); (Demo.B_, 1); (Demo.A_, 2); (Demo.A_, 1)] /\
    joined s = true.
Proof.
  eexists. eexists. split; [vm_compute; reflexivity|]. split; reflexivity.
Qed.

(** C7.  One worker; the fetch of the seed raises a RequestException, and
    the write of the row (seed, DOWNLOAD_ERROR) to the invalid file raises.
    That write is after the try statement: the worker is gone, the seed is
    not in visited_urls, no task_done was called, nothing can move any
    more and queue.join() does not return. *)
Theorem C7_error_in_invalid_write_is_not_caught :
  exists tr s,
    @run Demo.env2 Demo.sched_crash (Crawler Demo.S_ 1) = Some (tr, s) /\
    workers s = [Dead Demo.S_ 0] /\
    visited_urls s = [] /\
    stderr s = [] /\
    joined s = false /\
    forall i o, @parse_url Demo.env2 i o s = None.
Proof.
  eexists. eexists. split; [vm_compute; reflexivity|].
  repeat split. intros [|i] o; reflexivity.
Qed.

(** C8.  Two workers both fetch the image http://x.test/a (the race of
    C6): the image is recorded twice with its hash, and the report
    written after queue.join() lists http://x.test/a twice as a
    duplicate, although a single distinct URL has that hash; the report
    of the specification has the header only.  output_dupimgs counts the
    records of a hash (len(urls) > 1), not its distinct URLs: any record
    that occurs twice is reported.  On records without repetition the two
    reports have the same rows. *)
Theorem C8_one_url_is_reported_as_its_own_duplicate :
  (exists tr s,
     @run Demo.env2 (Demo.sched_race Demo.a_is_an_image) (Crawler Demo.S_ 2) = Some (tr, s) /\
     joined s = true /\
     duplicate_images_urls s = [("PNG", Demo.A_); ("PNG", Demo.A_)] /\
     Report.output_dupimgs (duplicate_images_urls s)
       = [("URL", "md5"); (Demo.A_, "PNG"); (Demo.A_, "PNG")] /\
     Report.urls_with_hash "PNG" (duplicate_images_urls s) = [Demo.A_] /\
     spec_dupimgs (duplicate_images_urls s) = [("URL", "md5")]) /\
  (forall h u,
     Report.output_dupimgs [(h, u); (h, u)] = [("URL", "md5"); (u, h); (u, h)] /\
     spec_dupimgs [(h, u); (h, u)] = [("URL", "md5")]) /\
  (forall recs,
     List.NoDup recs -> Permutation (Report.output_dupimgs recs) (spec_dupimgs recs)).
Proof.
  split; [|split].
  - eexists. eexists. split; [vm_compute; reflexivity|].
    repeat split; vm_compute; reflexivity.
  - intros h u. split.
    + unfold Report.output_dupimgs, Report.group. simpl. rewrite String.eqb_refl.
      reflexivity.
    + unfold spec_dupimgs, Report.urls_with_hash, Report.with_hash. simpl.
      rewrite String.eqb_refl. simpl.
      destruct (string_dec u u) as [_|Hn]; [reflexivity | now contradiction Hn].
  - intros recs Hnd. unfold Report.output_dupimgs, spec_dupimgs. constructor.
    rewrite (output_dupimgs_rows recs). unfold Report.repeated.
    rewrite (List.filter_ext _
               (fun r => Nat.ltb 1 (length (Report.urls_with_hash (fst r) recs)))).
    + apply Permutation_refl.
    + intros r. now rewrite (with_hash_distinct _ _ Hnd).
Qed.

(** C9.  The link a..b found on http://x.test/p is normalised to
    http://x.test/p/a..b, and that URL, given back as a link of the same
    page, is normalised to http://x.test/p/p/a..b. *)
Theorem C9_normalizer_not_idempotent :
  @resolve_link Demo.env2 (Demo.parent "http://x.test/p") "a..b"
    = Return (LinkValid "http://x.test/p/a..b") /\
  @resolve_link Demo.env2 (Demo.parent "http://x.test/p") "http://x.test/p/a..b"
    = Return (LinkValid "http://x.test/p/p/a..b").
Proof. split; vm_compute; reflexivity. Qed.

(** C10.  The run of C6 with /a failing to download: both workers fetch
    http://x.test/a, and the invalid file gets two DOWNLOAD_ERROR rows for
    it. *)
Theorem C10_two_download_errors_for_one_url :
  exists tr s,
    @run Demo.env2 (Demo.sched_race Demo.a_is_down) (Crawler Demo.S_ 2) = Some (tr, s) /\
    invalid_urls_fd s = [(Demo.A_, DOWNLOAD_ERROR); (Demo.A_, DOWNLOAD_ERROR)] /\
    joined s = true.
Proof.
  eexists. eexists. split; [vm_compute; reflexivity|]. split; reflexivity.
Qed.

(* --------------------------------------------------------------------- *)
(*  Further facts on the run of the workers                               *)
(* --------------------------------------------------------------------- *)

Section FurtherFacts.
Context `{E : PyEnv}.












End FurtherFacts.

Section ClosingFacts.
Context `{E : PyEnv} (starting_url : string).

Lemma run_invariant (P : state -> Prop) :
  (forall i o s ev s', P s -> parse_url i o s = Some (ev, s') -> P s') ->
  forall sched s tr s', P s -> run sched s = Some (tr, s') -> P s'.
Proof.
  intros Hstep. induction sched as [|[i o] sched IH]; simpl; intros s tr s' HP Hrun.
  - now injection Hrun as <- <-.
  - destruct (parse_url i o s) as [[ev s1]|] eqn:Hs; [|discriminate].
    destruct (run sched s1) as [[tr1 s2]|] eqn:Hr; [|discriminate].
    injection Hrun as <- <-. eauto.
Qed.

Lemma in_hand_after_raise v e url level inv :
  in_hand v (after_raise e url level inv) = String.eqb url v.
Proof. destruct e; simpl; now rewrite ?andb_true_r. Qed.

Lemma in_hand_after_push v url level inv us :
  in_hand v (Busy url level (after_push inv us)) = String.eqb url v.
Proof. destruct us; simpl; now rewrite andb_true_r. Qed.

Lemma in_hand_after_valid v url level url_parsed resp order w :
  after_valid url level url_parsed resp order = Some w ->
  in_hand v w = String.eqb url v.
Proof.
  unfold after_valid. intros H.
  repeat case_match; simplify_eq;
    auto using in_hand_after_raise, in_hand_after_push; simpl; now rewrite andb_true_r.
Qed.

(* what one step does to the worker that moves *)
Lemma step_worker i o s ev s' :
  parse_url i o s = Some (ev, s') ->
  exists w w', workers s !! i = Some w /\ workers s' = <[i:=w']> (workers s) /\
    (forall v, In v (visited_urls s) -> In v (visited_urls s')) /\
    (forall v, in_hand v w = true -> in_hand v w' = true \/ In v (visited_urls s')) /\
    (forall v, In v (valid_names s') -> In v (valid_names s) \/ in_hand v w' = true) /\
    (forall v, worker_ok starting_url w ->
       In v (downloads (invalid_urls_fd s')) ->
       In v (downloads (invalid_urls_fd s)) \/ in_hand v w' = true).
Proof.
  unfold parse_url. intros H.
  destruct (workers s !! i) as [w|] eqn:Hwi; [|discriminate].
  exists w. destruct w as [|url level ph|]; [| |discriminate].
  - destruct (queue s !! o_pick o) as [[url level]|]; [|discriminate].
    injection H as <- <-. eexists. repeat split; simpl; auto. discriminate.
  - unfold set_worker in H.
    destruct ph as [| |url_parsed|url_parsed resp|inv u us|inv u us|h|inv|inv| |].
    + injection H as <- <-. eexists. repeat split; simpl; auto.
      intros v; rewrite andb_false_r; discriminate.
    + destruct (o_write o) as [[]|e]; injection H as <- <-; eexists;
        repeat split; simpl; auto;
        intros v; rewrite andb_false_r; discriminate.
    + injection H as <- <-. eexists. repeat split; simpl; auto.
      intros v; rewrite andb_false_r; discriminate.
    + destruct (o_write o) as [[]|e].
      * destruct (after_valid url level url_parsed resp (o_order o)) as [w|] eqn:Hav;
          [|discriminate].
        injection H as <- <-. eexists. repeat split; simpl; auto.
        -- intros v; rewrite andb_false_r; discriminate.
        -- unfold valid_names. simpl. rewrite map_app. simpl. intros v Hv.
           apply in_app_or in Hv as [Hv|[<-|[]]]; auto.
           right. rewrite (in_hand_after_valid _ _ _ _ _ _ _ Hav). apply String.eqb_refl.
      * injection H as <- <-. eexists. repeat split; simpl; auto.
        -- intros v; rewrite andb_false_r; discriminate.
        -- unfold valid_names. simpl. rewrite map_app. intros v Hv.
           apply in_app_or in Hv as [Hv|Hv]; auto.
           right. rewrite in_hand_after_raise.
           destruct (firstn_one (o_partial o) (url, level)) as [Hf|Hf]; rewrite Hf in Hv;
             simpl in Hv; [tauto|]. destruct Hv as [<-|[]]. apply String.eqb_refl.
    + injection H as <- <-. eexists. repeat split; simpl; auto.
      intros v Hv. left. rewrite andb_true_r in Hv. rewrite Hv.
      destruct (PyStr.str_in u (visited_urls s)); [destruct us|]; reflexivity.
    + injection H as <- <-. eexists. repeat split; simpl; auto.
      intros v Hv. left. rewrite andb_true_r in Hv. rewrite Hv.
      destruct us; reflexivity.
    + injection H as <- <-. eexists. repeat split; simpl; auto.
    + destruct (o_write o) as [[]|e]; injection H as <- <-; eexists;
        repeat split; simpl; auto.
      intros v Hv. left. now rewrite andb_true_r in Hv.
    + destruct (o_write o) as [[]|e]; injection H as <- <-; eexists;
        repeat split; simpl; auto.
      * intros v (_ & _ & _ & _ & Hown). rewrite downloads_app. intros Hv.
        apply in_app_or in Hv as [Hv|Hv]; auto. right.
        unfold downloads in Hv. apply in_map_iff in Hv as ([u k] & <- & Hin).
        apply filter_In in Hin as [Hin Hk]. destruct k; try discriminate.
        simpl. rewrite (Hown _ Hin), String.eqb_refl. reflexivity.
      * intros v Hv. left. now rewrite andb_true_r in Hv.
      * intros v (_ & _ & _ & _ & Hown). rewrite downloads_app. intros Hv.
        apply in_app_or in Hv as [Hv|Hv]; auto. right.
        unfold downloads in Hv. apply in_map_iff in Hv as ([u k] & <- & Hin).
        apply filter_In in Hin as [Hin Hk]. destruct k; try discriminate.
        simpl. apply In_firstn in Hin. rewrite (Hown _ Hin). apply String.eqb_refl.
    + injection H as <- <-. eexists. repeat split; simpl; auto.
      * intros v Hv. apply in_or_app. now left.
      * intros v Hv. right. rewrite andb_true_r in Hv. apply String.eqb_eq in Hv as ->.
        apply in_or_app. right. now left.
    + destruct (unfinished_tasks s); injection H as <- <-; eexists;
        repeat split; simpl; auto;
        intros v; rewrite andb_false_r; discriminate.
Qed.

Lemma step_Closing i o s ev s' :
  Inv starting_url s /\ Closing s -> parse_url i o s = Some (ev, s') ->
  Inv starting_url s' /\ Closing s'.
Proof.
  intros [HI HC] Hs. split; [eapply step_inv; eauto|].
  destruct (step_worker _ _ _ _ _ Hs) as (w & w' & Hwi & Hws & Hvis & Hhand & Hval & Hdl).
  assert (Hok : worker_ok starting_url w).
  { destruct HI as (_ & Hw & _). exact (Forall_lookup_1 _ _ _ _ Hw Hwi). }
  assert (Hnew : forall v, in_hand v w' = true ->
            exists j w0, workers s' !! j = Some w0 /\ in_hand v w0 = true).
  { intros v Hv. exists i, w'. split; [|exact Hv]. rewrite Hws.
    apply list_lookup_insert_eq. eapply lookup_lt_Some; eauto. }
  assert (Hold : forall v, In v (visited_urls s) \/
              (exists j w0, workers s !! j = Some w0 /\ in_hand v w0 = true) ->
            In v (visited_urls s') \/
            exists j w0, workers s' !! j = Some w0 /\ in_hand v w0 = true).
  { intros v [Hv|(j & w0 & Hj & Hw0)]; [auto|].
    destruct (decide (j = i)) as [->|Hne].
    - rewrite Hwi in Hj. injection Hj as <-.
      destruct (Hhand v Hw0) as [Hh|Hh]; auto.
    - right. exists j, w0. split; [|exact Hw0]. rewrite Hws.
      rewrite list_lookup_insert_ne; auto. }
  intros v [Hv|Hv].
  - destruct (Hval v Hv) as [Hv'|Hv']; auto.
  - destruct (Hdl v Hok Hv) as [Hv'|Hv']; auto.
Qed.

Lemma Closing_Crawler n : Closing (Crawler starting_url n).
Proof. intros v [[]|[]]. Qed.

End ClosingFacts.

Section OriginFacts.
Context `{E : PyEnv} (starting_url : string).

Lemma origin_mono s s' it :
  (forall r, In r (valid_urls_fd s) -> In r (valid_urls_fd s')) ->
  origin starting_url s it -> origin starting_url s' it.
Proof. intros Hsub [H|[H0 [p Hp]]]; [now left | right; eauto]. Qed.

Lemma worker_origin_mono s s' w :
  (forall r, In r (valid_urls_fd s) -> In r (valid_urls_fd s')) ->
  worker_origin starting_url s w -> worker_origin starting_url s' w.
Proof.
  intros Hsub. destruct w as [|url level ph|]; simpl; auto.
  intros [Ho Hr]. split; [eapply origin_mono; eauto | auto].
Qed.

Lemma recorded_after_raise e url level inv s :
  origin starting_url s (url, level) ->
  worker_origin starting_url s (after_raise e url level inv).
Proof. intros Ho. destruct e; simpl; auto; split; auto; discriminate. Qed.

Lemma after_valid_origin url level url_parsed resp order w s :
  origin starting_url s (url, level) -> In (url, level) (valid_urls_fd s) ->
  after_valid url level url_parsed resp order = Some w ->
  worker_origin starting_url s w.
Proof.
  unfold after_valid. intros Ho Hin H.
  repeat case_match; simplify_eq; auto using recorded_after_raise; simpl; auto.
Qed.

Lemma Origin_mono_frame s s' :
  (forall r, In r (valid_urls_fd s) -> In r (valid_urls_fd s')) ->
  Forall (origin starting_url s) (queue s) ->
  Forall (worker_origin starting_url s) (workers s) ->
  Forall (origin starting_url s') (queue s) /\
  Forall (worker_origin starting_url s') (workers s).
Proof.
  intros Hsub Hq Hw. split.
  - eapply Forall_impl; [exact Hq|]. intros it. now apply origin_mono.
  - eapply Forall_impl; [exact Hw|]. intros w. now apply worker_origin_mono.
Qed.

Lemma step_Origin i o s ev s' :
  Origin starting_url s -> parse_url i o s = Some (ev, s') -> Origin starting_url s'.
Proof.
  intros (Hq & Hw & Hv & Hd) Hs. unfold parse_url in Hs.
  destruct (workers s !! i) as [w|] eqn:Hwi; [|discriminate].
  pose proof (Forall_lookup_1 _ _ _ _ Hw Hwi) as Hok.
  destruct w as [|url level ph|]; [| |discriminate].
  - destruct (queue s !! o_pick o) as [[url level]|] eqn:Hpick; [|discriminate].
    injection Hs as <- <-.
    pose proof (Forall_lookup_1 _ _ _ _ Hq Hpick) as Hit.
    split; [|split; [|split]]; simpl; auto.
    + now apply Forall_delete.
    + apply Forall_insert; auto. simpl. split; [exact Hit|].
      destruct (Z.ltb MAX_DEPTH_LEVEL level); discriminate.
  - destruct Hok as [Ho Hrec].
    assert (Hset : forall ph', (recorded ph' = true -> In (url, level) (valid_urls_fd s)) ->
              Origin starting_url (set_worker i (Busy url level ph') s)).
    { intros ph' Hph. split; [|split; [|split]]; simpl; auto.
      apply Forall_insert; auto. simpl. auto. }
    assert (Hraise : forall e inv, Origin starting_url (set_worker i (after_raise e url level inv) s)).
    { intros e inv. split; [|split; [|split]]; simpl; auto.
      apply Forall_insert; auto. now apply recorded_after_raise. }
    destruct ph as [| |url_parsed|url_parsed resp|inv u us|inv u us|h|inv|inv| |].
    + injection Hs as <- <-. apply Hset. now destruct (PyStr.str_in _ _).
    + destruct (o_write o) as [[]|e]; injection Hs as <- <-; [|apply Hraise].
      split; [|split; [|split]]; simpl; auto.
      apply Forall_insert; auto.
      destruct (validate_url url) as [[p|]|e].
      * simpl. split; [exact Ho | discriminate].
      * apply (recorded_after_raise InvalidUrl). exact Ho.
      * apply recorded_after_raise. exact Ho.
    + injection Hs as <- <-. destruct (o_fetch o) as [resp|e].
      * apply Hset. discriminate.
      * destruct e;
          [exact (Hraise KeyboardInterrupt []) | exact (Hraise InvalidUrl [])
          | exact (Hraise InvalidUrl [(url, DOWNLOAD_ERROR)]) | exact (Hraise OtherError [])].
    + assert (Hsub : forall written r, In r (valid_urls_fd s) ->
                In r (valid_urls_fd s ++ written)%list).
      { intros written r Hr. apply in_or_app. now left. }
      destruct (o_write o) as [[]|e].
      * destruct (after_valid url level url_parsed resp (o_order o)) as [w|] eqn:Hav;
          [|discriminate].
        injection Hs as <- <-.
        set (s1 := mkState _ _ _ _ _ _ _ _ _).
        destruct (Origin_mono_frame s s1 (Hsub _) Hq Hw) as [Hq1 Hw1].
        split; [|split; [|split]]; simpl; auto.
        -- apply Forall_insert; auto.
           eapply after_valid_origin; [| |exact Hav].
           ++ eapply origin_mono; [apply Hsub | exact Ho].
           ++ simpl. apply in_or_app. right. now left.
        -- apply Forall_app. split.
           ++ eapply Forall_impl; [exact Hv|]. intros it. apply origin_mono. apply Hsub.
           ++ constructor; [|constructor]. eapply origin_mono; [apply Hsub | exact Ho].
        -- intros h0 u0 Hin. rewrite map_app. apply in_or_app. left. eauto.
      * injection Hs as <- <-.
        set (s1 := mkState _ _ _ _ _ _ _ _ _).
        destruct (Origin_mono_frame s s1 (Hsub _) Hq Hw) as [Hq1 Hw1].
        split; [|split; [|split]]; simpl; auto.
        -- apply Forall_insert; auto. apply recorded_after_raise.
           eapply origin_mono; [apply Hsub | exact Ho].
        -- apply Forall_app. split.
           ++ eapply Forall_impl; [exact Hv|]. intros it. apply origin_mono. apply Hsub.
           ++ destruct (firstn_one (o_partial o) (url, level)) as [-> | ->];
                constructor; [|constructor]. eapply origin_mono; [apply Hsub | exact Ho].
        -- intros h0 u0 Hin. rewrite map_app. apply in_or_app. left. eauto.
    + injection Hs as <- <-. apply Hset. intros _. now apply Hrec.
    + injection Hs as <- <-. specialize (Hrec eq_refl).
      split; [|split; [|split]]; simpl; auto.
      * apply Forall_app. split; [exact Hq|]. constructor; [|constructor].
        right. simpl. split.
        -- destruct Ho as [[= _ ->]|[H0 _]]; simpl in *; lia.
        -- exists url. now replace (level + 1 - 1) with level by lia.
      * apply Forall_insert; auto. simpl. auto.
    + injection Hs as <- <-. specialize (Hrec eq_refl).
      split; [|split; [|split]]; simpl; auto.
      * apply Forall_insert; auto. simpl. split; [exact Ho | discriminate].
      * intros h0 u0 Hin. apply in_app_or in Hin as [Hin|[[= <- <-]|[]]]; eauto.
        apply in_map_iff. now exists (url, level).
    + destruct (o_write o) as [[]|e]; injection Hs as <- <-.
      * split; [|split; [|split]]; simpl; auto.
        apply Forall_insert; auto. simpl. split; [exact Ho | discriminate].
      * split; [|split; [|split]]; simpl; auto. apply Forall_insert; simpl; auto.
    + destruct (o_write o) as [[]|e]; injection Hs as <- <-.
      * split; [|split; [|split]]; simpl; auto.
        apply Forall_insert; auto. simpl. split; [exact Ho | discriminate].
      * split; [|split; [|split]]; simpl; auto. apply Forall_insert; simpl; auto.
    + injection Hs as <- <-. split; [|split; [|split]]; simpl; auto.
      apply Forall_insert; auto. simpl. split; [exact Ho | discriminate].
    + destruct (unfinished_tasks s); injection Hs as <- <-;
        (split; [|split; [|split]]; simpl; auto); apply Forall_insert; simpl; auto.
Qed.

Lemma Origin_Crawler n : Origin starting_url (Crawler starting_url n).
Proof.
  split; [|split; [|split]]; simpl.
  - constructor; [now left | constructor].
  - apply Forall_forall. intros w Hw. apply elem_of_replicate in Hw as [-> _]. exact I.
  - constructor.
  - intros h u [].
Qed.

Lemma run_Origin n sched tr s :
  run sched (Crawler starting_url n) = Some (tr, s) -> Origin starting_url s.
Proof.
  exact (run_invariant (Origin starting_url) step_Origin _ _ _ _ (Origin_Crawler n)).
Qed.

End OriginFacts.

Section ParseRowsFacts.
Context `{E : PyEnv}.

Lemma validate_url_None url :
  validate_url url = Return None -> urlparse url = Raise KeyboardInterrupt.
Proof. unfold validate_url. destruct (urlparse url) as [p|[]]; congruence. Qed.

Lemma resolve_link_parse_error url_parsed link u :
  resolve_link url_parsed link = Return (LinkInvalid u PARSE_ERROR) ->
  urlparse u = Raise KeyboardInterrupt.
Proof.
  unfold resolve_link, mbind, py_bind. intros H.
  destruct (validate_url link) as [[p|]|] eqn:Hl; try discriminate.
  - destruct (if PyStr.contains _ _ then _ else _) as [t2|]; try discriminate.
    destruct (validate_url (urlunparse _)) as [[p'|]|] eqn:Hp'; try discriminate.
    + destruct (negb _); discriminate.
    + injection H as <-. now apply validate_url_None.
  - injection H as <-. now apply validate_url_None.
Qed.

Lemma parse_rows_ok_nil : parse_rows_ok [].
Proof. intros u []. Qed.

Lemma parse_rows_ok_app r1 r2 :
  parse_rows_ok r1 -> parse_rows_ok r2 -> parse_rows_ok (r1 ++ r2).
Proof.
  intros H1 H2 u Hu. apply in_app_or in Hu as [Hu|Hu]; [now apply H1 | now apply H2].
Qed.

Lemma parse_rows_ok_firstn n rows : parse_rows_ok rows -> parse_rows_ok (List.firstn n rows).
Proof. intros H u Hu. apply H. eapply In_firstn; eauto. Qed.

Lemma parse_rows_ok_download url : parse_rows_ok [(url, DOWNLOAD_ERROR)].
Proof. intros u [Hu|[]]. discriminate. Qed.

Lemma for_links_parse_rows url_parsed links : forall invalid0 valid0 invalid valid exc,
  parse_rows_ok invalid0 ->
  for_links url_parsed links invalid0 valid0 = (invalid, valid, exc) ->
  parse_rows_ok invalid.
Proof.
  induction links as [|link links IH]; simpl; intros invalid0 valid0 invalid valid exc H0 H.
  - now injection H as <- <- <-.
  - destruct (resolve_link url_parsed link) as [[v|u e]|e] eqn:Hl.
    + eapply IH; eauto.
    + eapply IH; [|exact H]. apply parse_rows_ok_app; [exact H0|].
      intros u' [[= -> ->]|[]]. eapply resolve_link_parse_error; eauto.
    + now injection H as <- <- <-.
Qed.

Lemma pending_after_raise e url level inv :
  parse_rows_ok inv -> parse_rows_ok (pending_rows (after_raise e url level inv)).
Proof. intros H. destruct e; simpl; auto using parse_rows_ok_nil. Qed.

Lemma pending_after_push url level inv us :
  parse_rows_ok inv -> parse_rows_ok (pending_rows (Busy url level (after_push inv us))).
Proof. intros H. destruct us; simpl; auto. Qed.

Lemma after_valid_parse_rows url level url_parsed resp order w :
  after_valid url level url_parsed resp order = Some w ->
  parse_rows_ok (pending_rows w).
Proof.
  unfold after_valid. intros H.
  repeat case_match; simplify_eq;
    eauto using pending_after_raise, pending_after_push, parse_rows_ok_nil, for_links_parse_rows.
Qed.

Lemma step_ParseRows i o s ev s' :
  ParseRows s -> parse_url i o s = Some (ev, s') -> ParseRows s'.
Proof.
  intros [Hr Hw] Hs. unfold parse_url in Hs.
  destruct (workers s !! i) as [w|] eqn:Hwi; [|discriminate].
  pose proof (Forall_lookup_1 _ _ _ _ Hw Hwi) as Hok.
  destruct w as [|url level ph|]; [| |discriminate].
  - destruct (queue s !! o_pick o) as [[url level]|]; [|discriminate].
    injection Hs as <- <-. split; simpl; auto. apply Forall_insert; auto.
    destruct (Z.ltb MAX_DEPTH_LEVEL level); apply parse_rows_ok_nil.
  - unfold set_worker in Hs.
    destruct ph as [| |url_parsed|url_parsed resp|inv u us|inv u us|h|inv|inv| |];
      simpl in Hok.
    + injection Hs as <- <-. split; simpl; auto. apply Forall_insert; auto.
      destruct (PyStr.str_in _ _); apply parse_rows_ok_nil.
    + destruct (o_write o) as [[]|e]; injection Hs as <- <-; (split; simpl; auto);
        apply Forall_insert; auto using pending_after_raise, parse_rows_ok_nil.
      destruct (validate_url url) as [[p|]|e] eqn:Hv.
      * apply parse_rows_ok_nil.
      * intros u [[= <-]|[]]. now apply validate_url_None.
      * apply pending_after_raise, parse_rows_ok_nil.
    + injection Hs as <- <-. split; simpl; auto. apply Forall_insert; auto.
      destruct (o_fetch o) as [resp|[]]; simpl;
        auto using parse_rows_ok_nil, parse_rows_ok_download.
    + destruct (o_write o) as [[]|e].
      * destruct (after_valid url level url_parsed resp (o_order o)) as [w|] eqn:Hav;
          [|discriminate].
        injection Hs as <- <-. split; simpl; auto. apply Forall_insert; auto.
        eapply after_valid_parse_rows; eauto.
      * injection Hs as <- <-. split; simpl; auto. apply Forall_insert; auto.
        apply pending_after_raise, parse_rows_ok_nil.
    + injection Hs as <- <-. split; simpl; auto. apply Forall_insert; auto.
      destruct (PyStr.str_in _ _); [now apply pending_after_push | exact Hok].
    + injection Hs as <- <-. split; simpl; auto. apply Forall_insert; auto.
      now apply pending_after_push.
    + injection Hs as <- <-. split; simpl; auto. apply Forall_insert; auto.
    + destruct (o_write o) as [[]|e]; injection Hs as <- <-; (split; simpl; auto);
        apply Forall_insert; auto using parse_rows_ok_nil.
    + destruct (o_write o) as [[]|e]; injection Hs as <- <-; split; simpl;
        auto using parse_rows_ok_app, parse_rows_ok_firstn;
        apply Forall_insert; auto using parse_rows_ok_nil.
    + injection Hs as <- <-. split; simpl; auto. apply Forall_insert; auto.
    + destruct (unfinished_tasks s); injection Hs as <- <-; (split; simpl; auto);
        apply Forall_insert; auto using parse_rows_ok_nil.
Qed.

Lemma ParseRows_Crawler starting_url n : ParseRows (Crawler starting_url n).
Proof.
  split; simpl; [apply parse_rows_ok_nil|].
  apply Forall_forall. intros w Hw. apply elem_of_replicate in Hw as [-> _].
  apply parse_rows_ok_nil.
Qed.

Lemma run_ParseRows starting_url n sched tr s :
  run sched (Crawler starting_url n) = Some (tr, s) -> ParseRows s.
Proof.
  exact (run_invariant ParseRows step_ParseRows _ _ _ _ (ParseRows_Crawler starting_url n)).
Qed.

End ParseRowsFacts.

Section ApartFacts.
Context `{E : PyEnv}.





End ApartFacts.

Section IterationFacts.
Context `{E : PyEnv}.

(* the loop of lines 124-126, run by worker i with no other worker moving *)
Lemma push_loop i url level inv : forall us s,
  workers s !! i = Some (Busy url level (after_push inv us)) ->
  exists sched tr s',
    Forall (fun x => fst x = i) sched /\
    run sched s = Some (tr, s') /\
    workers s' = <[i:=Busy url level (Flush inv)]> (workers s) /\
    queue s' = (queue s ++ List.map (fun u => (u, level + 1)) (fresh (visited_urls s) us))%list /\
    unfinished_tasks s' = (unfinished_tasks s + length (fresh (visited_urls s) us))%nat /\
    visited_urls s' = visited_urls s /\ valid_urls_fd s' = valid_urls_fd s /\
    invalid_urls_fd s' = invalid_urls_fd s /\
    duplicate_images_urls s' = duplicate_images_urls s /\
    stdout s' = stdout s /\ stderr s' = stderr s.
Proof.
  induction us as [|u us IH]; intros s Hw.
  - exists [], [], s. simpl in *. rewrite app_nil_r, Nat.add_0_r.
    rewrite (list_insert_id _ _ _ Hw). repeat split; auto.
  - simpl in Hw. pose proof (lookup_lt_Some _ _ _ Hw) as Hlt.
    unfold fresh. simpl. fold (fresh (visited_urls s) us).
    destruct (PyStr.str_in u (visited_urls s)) eqn:Hin; simpl.
    + destruct (IH (set_worker i (Busy url level (after_push inv us)) s))
        as (sched & tr & s' & Hall & Hrun & Hws & Hq & Hu & Hvis & Hval & Hinv & Hd & Ho & He).
      { simpl. now apply list_lookup_insert_eq. }
      exists ((i, Demo.go) :: sched). eexists. exists s'.
      split; [constructor; auto|]. split.
      { simpl. unfold parse_url at 1. rewrite Hw, Hin. rewrite Hrun. reflexivity. }
      simpl in *. rewrite list_insert_insert_eq in Hws. repeat split; auto.
    + destruct (IH (mkState (queue s ++ [(u, level + 1)])%list (S (unfinished_tasks s))
                       (visited_urls s) (duplicate_images_urls s)
                       (valid_urls_fd s) (invalid_urls_fd s) (stdout s) (stderr s)
                       (<[i:=Busy url level (after_push inv us)]> (workers s))))
        as (sched & tr & s' & Hall & Hrun & Hws & Hq & Hu & Hvis & Hval & Hinv & Hd & Ho & He).
      { simpl. now apply list_lookup_insert_eq. }
      exists ((i, Demo.go) :: (i, Demo.go) :: sched). eexists. exists s'.
      split; [constructor; auto|]. split.
      { simpl. unfold parse_url at 1. rewrite Hw, Hin.
        unfold parse_url at 1. simpl. rewrite list_lookup_insert_eq by exact Hlt.
        rewrite list_insert_insert_eq. rewrite Hrun. reflexivity. }
      simpl in *. rewrite list_insert_insert_eq in Hws.
      rewrite <- app_assoc in Hq. simpl in Hq.
      repeat split; auto. lia.
Qed.

Lemma run_cons i o s ev s1 sched tr s' :
  parse_url i o s = Some (ev, s1) -> run sched s1 = Some (tr, s') ->
  run ((i, o) :: sched) s = Some (ev :: tr, s').
Proof. intros H1 H2. simpl. now rewrite H1, H2. Qed.

Lemma run_app_intro sched1 : forall sched2 s tr1 s1 tr2 s2,
  run sched1 s = Some (tr1, s1) -> run sched2 s1 = Some (tr2, s2) ->
  run (sched1 ++ sched2) s = Some ((tr1 ++ tr2)%list, s2).
Proof.
  induction sched1 as [|[i o] sched1 IH]; simpl; intros sched2 s tr1 s1 tr2 s2 H1 H2.
  - now injection H1 as <- <-.
  - destruct (parse_url i o s) as [[ev s0]|]; [|discriminate].
    destruct (run sched1 s0) as [[tr0 s3]|] eqn:Hr; [|discriminate].
    injection H1 as <- <-. now rewrite (IH _ _ _ _ _ _ Hr H2).
Qed.

(* lines 140-147, after a try block that was left without an uncaught
   exception *)
Lemma closing_steps i o1 o2 o3 s url level inv :
  workers s !! i = Some (Busy url level (Flush inv)) ->
  o_write o1 = Return tt ->
  (0 < unfinished_tasks s)%nat ->
  exists tr s',
    run [(i, o1); (i, o2); (i, o3)] s = Some (tr, s') /\
    workers s' = <[i:=Idle]> (workers s) /\
    invalid_urls_fd s' = (invalid_urls_fd s ++ inv)%list /\
    visited_urls s' = (visited_urls s ++ [url])%list /\
    S (unfinished_tasks s') = unfinished_tasks s /\
    queue s' = queue s /\ valid_urls_fd s' = valid_urls_fd s /\
    duplicate_images_urls s' = duplicate_images_urls s /\
    stdout s' = stdout s /\ stderr s' = stderr s.
Proof.
  intros Hw Ho Hu. pose proof (lookup_lt_Some _ _ _ Hw) as Hlt.
  destruct (unfinished_tasks s) as [|m] eqn:Hm; [lia|].
  unfold run, parse_url. rewrite Hw, Ho. simpl.
  rewrite list_lookup_insert_eq by exact Hlt. simpl.
  rewrite list_lookup_insert_eq by (rewrite !length_insert; exact Hlt). simpl.
  rewrite Hm. eexists. eexists. split; [reflexivity|]. simpl.
  rewrite !list_insert_insert_eq. repeat split.
Qed.

End IterationFacts.

Section LoopFacts.
Context `{E : PyEnv}.

Lemma for_links_app url_parsed l1 : forall l2 inv val,
  for_links url_parsed (l1 ++ l2) inv val =
  match for_links url_parsed l1 inv val with
  | (inv', val', None) => for_links url_parsed l2 inv' val'
  | r => r
  end.
Proof.
  induction l1 as [|link l1 IH]; simpl; intros l2 inv val; [reflexivity|].
  destruct (resolve_link url_parsed link) as [[u|u e]|e]; auto.
Qed.

Lemma for_links_acc url_parsed links : forall inv val,
  for_links url_parsed links inv val =
  let '(di, dv, exc) := for_links url_parsed links [] [] in
  ((inv ++ di)%list, (val ++ dv)%list, exc).
Proof.
  induction links as [|link links IH]; simpl; intros inv val.
  - now rewrite !app_nil_r.
  - destruct (resolve_link url_parsed link) as [[u|u e]|e].
    + rewrite (IH inv (val ++ [u])%list), (IH [] [u]).
      destruct (for_links url_parsed links [] []) as [[di dv] exc].
      now rewrite <- app_assoc.
    + rewrite (IH (inv ++ [(u, e)])%list val), (IH [(u, e)] []).
      destruct (for_links url_parsed links [] []) as [[di dv] exc].
      now rewrite <- app_assoc.
    + now rewrite !app_nil_r.
Qed.

Lemma for_links_count url_parsed links : forall inv val inv' val' exc,
  for_links url_parsed links inv val = (inv', val', exc) ->
  (length inv' + length val' <= length inv + length val + length links)%nat /\
  (exc = None ->
   (length inv' + length val' = length inv + length val + length links)%nat).
Proof.
  induction links as [|link links IH]; simpl; intros inv val inv' val' exc H.
  - injection H as <- <- <-. split; intros; lia.
  - destruct (resolve_link url_parsed link) as [[u|u e]|e].
    + apply IH in H. rewrite length_app in H. simpl in H.
      destruct H as [H1 H2]. split; [lia | intros He; specialize (H2 He); lia].
    + apply IH in H. rewrite length_app in H. simpl in H.
      destruct H as [H1 H2]. split; [lia | intros He; specialize (H2 He); lia].
    + injection H as <- <- <-. split; [lia | discriminate].
Qed.

End LoopFacts.

Section ReportOrder.
Import Report.

Lemma filter_filter_and {A} (f g : A -> bool) l :
  List.filter f (List.filter g l) = List.filter (fun x => g x && f x) l.
Proof.
  induction l as [|x l IH]; simpl; [reflexivity|].
  destruct (g x); simpl; [destruct (f x)|]; now rewrite IH.
Qed.

Lemma filter_nil_iff {A} (f : A -> bool) l :
  List.filter f l = [] <-> forall x, In x l -> f x = false.
Proof.
  induction l as [|x l IH]; simpl; [tauto|].
  destruct (f x) eqn:Hx; split.
  - discriminate.
  - intros H. specialize (H x (or_introl eq_refl)). congruence.
  - intros H y [<-|Hy]; [exact Hx | now apply IH].
  - intros H. apply IH. auto.
Qed.

Lemma filter_true {A} (f : A -> bool) l :
  (forall x, In x l -> f x = true) -> List.filter f l = l.
Proof.
  induction l as [|x l IH]; simpl; intros H; [reflexivity|].
  rewrite (H x (or_introl eq_refl)), IH; auto.
Qed.

Lemma str_in_app x l1 l2 :
  PyStr.str_in x (l1 ++ l2) = PyStr.str_in x l1 || PyStr.str_in x l2.
Proof. unfold PyStr.str_in. apply existsb_app. Qed.

(* the keys of dp_imgs after the loop of lines 160-161: those it had,
   then the new hashes in the order of their first record *)
Lemma keys_group recs : forall d,
  List.map fst (group d recs) =
  (List.map fst d ++
   List.filter (fun h => negb (PyStr.str_in h (List.map fst d)))
     (first_occurrences (List.map fst recs)))%list.
Proof.
  induction recs as [|[h u] recs IH]; intros d; simpl.
  - now rewrite app_nil_r.
  - unfold group in *. simpl. rewrite IH, keys_append.
    rewrite filter_filter_and.
    destruct (PyStr.str_in h (List.map fst d)) eqn:Hin; simpl.
    + f_equal. apply List.filter_ext_in. intros x _.
      destruct (String.eqb x h) eqn:Hx; simpl; [|reflexivity].
      apply String.eqb_eq in Hx as ->. now rewrite Hin.
    + rewrite <- app_assoc. simpl. f_equal. f_equal.
      apply List.filter_ext_in. intros x _. rewrite str_in_app.
      unfold PyStr.str_in at 2. simpl. rewrite orb_false_r, negb_orb.
      apply andb_comm.
Qed.

(* a dict is its keys, in their order, each with its entry *)
Lemma dict_by_keys (d : dict) :
  List.NoDup (List.map fst d) ->
  d = List.map (fun h => (h, dict_get h d)) (List.map fst d).
Proof.
  induction d as [|[k v] d IH]; simpl; intros Hnd; [reflexivity|].
  apply List.NoDup_cons_iff in Hnd as [Hk Hnd].
  rewrite String.eqb_refl. f_equal.
  rewrite (IH Hnd) at 1. apply List.map_ext_in. intros h Hh.
  destruct (String.eqb k h) eqn:Hkh; [|reflexivity].
  apply String.eqb_eq in Hkh as ->. contradiction.
Qed.

Lemma group_by_first_occurrence recs :
  group [] recs =
  List.map (fun h => (h, List.map snd (with_hash h recs)))
    (first_occurrences (List.map fst recs)).
Proof.
  assert (Hnd : List.NoDup (List.map fst (group [] recs))).
  { apply NoDup_ListNoDup. apply group_NoDup. constructor. }
  rewrite (dict_by_keys _ Hnd) at 1. rewrite keys_group. simpl.
  rewrite filter_true by reflexivity.
  apply List.map_ext. intros h. now rewrite group_get.
Qed.

Lemma with_hash_length h recs :
  length (with_hash h recs) = count_occ string_dec (List.map fst recs) h.
Proof.
  unfold with_hash. induction recs as [|[k u] recs IH]; simpl; [reflexivity|].
  destruct (string_dec k h) as [->|Hne].
  - rewrite String.eqb_refl. simpl. now rewrite IH.
  - apply String.eqb_neq in Hne. now rewrite Hne.
Qed.

Lemma with_hash_Permutation h recs recs' :
  Permutation recs recs' -> length (with_hash h recs) = length (with_hash h recs').
Proof.
  intros HP. rewrite !with_hash_length.
  apply Permutation_count_occ. now apply Permutation_map.
Qed.

Lemma filter_Permutation' {A} (f : A -> bool) l l' :
  Permutation l l' -> Permutation (List.filter f l) (List.filter f l').
Proof.
  induction 1 as [|x l l' HP IH|x y l|l l' l'' H1 IH1 H2 IH2]; simpl.
  - constructor.
  - destruct (f x); [now constructor | exact IH].
  - destruct (f x), (f y); try reflexivity. constructor.
  - etransitivity; eauto.
Qed.

End ReportOrder.

Section AnnouncedFacts.
Context `{E : PyEnv}.

Lemma announced_ok_mono s s' w :
  (forall r, In r (stdout s) -> In r (stdout s')) ->
  announced_ok s w -> announced_ok s' w.
Proof.
  intros Hsub. destruct w as [|url level ph|]; simpl; auto.
  intros [H1 H2]. split.
  - destruct ph; auto.
  - intros u Hu. destruct (H2 u Hu) as [l Hl]. eauto.
Qed.

Lemma announced_quiet s url level ph :
  match ph with Fetch _ | WriteValid _ _ => False | _ => True end ->
  downloads (pending_rows (Busy url level ph)) = [] ->
  announced_ok s (Busy url level ph).
Proof.
  intros Hph Hd. simpl. split; [destruct ph; tauto|].
  intros u. simpl in Hd. rewrite Hd. intros [].
Qed.

Lemma announced_after_raise s e url level inv :
  (forall u, In u (downloads inv) -> exists l, In (u, l) (stdout s)) ->
  announced_ok s (after_raise e url level inv).
Proof. intros H. destruct e; simpl; auto. Qed.

Lemma announced_after_valid s url level url_parsed resp order w :
  after_valid url level url_parsed resp order = Some w -> announced_ok s w.
Proof.
  unfold after_valid.
  destruct (content_type resp) as [ct|];
    [|intros [= <-]; simpl; split; [exact I | intros v []]].
  destruct (negb (PyStr.is_empty ct) && PyStr.contains "text/html" ct).
  - destruct (find_all_links (text resp)) as [links|e].
    + destruct (for_links url_parsed links [] []) as [[inv val] [e|]] eqn:Hfl;
        apply for_links_downloads in Hfl.
      * intros [= <-]. apply announced_after_raise. rewrite Hfl. intros v [].
      * destruct (is_set_order order val); intros [= <-].
        destruct order; simpl; (split; [exact I | rewrite Hfl; intros v []]).
    + intros [= <-]. apply announced_after_raise. intros v [].
  - destruct (negb (PyStr.is_empty ct) && PyStr.startswith "image/" ct);
      intros [= <-]; simpl; (split; [exact I | intros v []]).
Qed.

Lemma step_Announced i o s ev s' :
  Announced s -> parse_url i o s = Some (ev, s') -> Announced s'.
Proof.
  intros (Hv & Hd & Hw) Hs. unfold parse_url in Hs.
  destruct (workers s !! i) as [w|] eqn:Hwi; [|discriminate].
  pose proof (Forall_lookup_1 _ _ _ _ Hw Hwi) as Hok.
  destruct w as [|url level ph|]; [| |discriminate].
  - destruct (queue s !! o_pick o) as [[url level]|]; [|discriminate].
    injection Hs as <- <-. split; [|split]; simpl; auto. apply Forall_insert; auto.
    destruct (Z.ltb MAX_DEPTH_LEVEL level); now apply announced_quiet.
  - unfold set_worker in Hs. destruct Hok as [Hph Hrows].
    assert (Hset : forall w', announced_ok s w' ->
              Announced (set_worker i w' s)).
    { intros w' Hw'. split; [|split]; simpl; auto. apply Forall_insert; auto. }
    unfold set_worker in Hset.
    destruct ph as [| |url_parsed|url_parsed resp|inv u us|inv u us|h|inv|inv| |];
      simpl in Hrows.
    + injection Hs as <- <-. apply Hset.
      destruct (PyStr.str_in _ _); now apply announced_quiet.
    + destruct (o_write o) as [[]|e]; injection Hs as <- <-.
      * set (s1 := mkState _ _ _ _ _ _ _ _ _).
        assert (Hsub : forall r, In r (stdout s) -> In r (stdout s1)).
        { intros r Hr. simpl. apply in_or_app. now left. }
        split; [|split]; simpl.
        -- intros r Hr. apply in_or_app. left. auto.
        -- intros v Hin. destruct (Hd v Hin) as [l Hl]. exists l. apply in_or_app. now left.
        -- apply Forall_insert.
           ++ eapply Forall_impl; [exact Hw|]. intros w. now apply announced_ok_mono.
           ++ assert (Hme : In (url, level) (stdout s1)).
              { simpl. apply in_or_app. right. now left. }
              destruct (validate_url url) as [[p|]|e].
              ** simpl. split; [exact Hme | intros v []].
              ** simpl. split; [exact I | intros v []].
              ** apply announced_after_raise. intros v [].
      * apply Hset. apply announced_after_raise. intros v [].
    + injection Hs as <- <-. apply Hset. destruct (o_fetch o) as [resp|e].
      * simpl. split; [exact Hph | intros v []].
      * destruct e; simpl; auto; (split; [exact I|]); try (intros v []; fail).
        intros v [<-|[]]. eauto.
    + destruct (o_write o) as [[]|e].
      * destruct (after_valid url level url_parsed resp (o_order o)) as [w|] eqn:Hav;
          [|discriminate].
        injection Hs as <- <-. split; [|split]; simpl; auto.
        -- intros r Hr. apply in_app_or in Hr as [Hr|[<-|[]]]; auto.
        -- apply Forall_insert; auto. eapply announced_after_valid; eauto.
      * injection Hs as <- <-. split; [|split]; simpl; auto.
        -- intros r Hr. apply in_app_or in Hr as [Hr|Hr]; auto.
           apply In_firstn in Hr. destruct Hr as [<-|[]]. exact Hph.
        -- apply Forall_insert; auto. apply announced_after_raise. intros v [].
    + injection Hs as <- <-. apply Hset. split; [|].
      * destruct (PyStr.str_in _ _); [destruct us|]; exact I.
      * destruct (PyStr.str_in _ _); [destruct us|]; exact Hrows.
    + injection Hs as <- <-. split; [|split]; simpl; auto. apply Forall_insert; auto.
      split; destruct us; simpl; auto.
    + injection Hs as <- <-. split; [|split]; simpl; auto. apply Forall_insert; auto;
      (split; [exact I | intros v []]).
    + destruct (o_write o) as [[]|e]; injection Hs as <- <-.
      * split; [|split]; simpl; auto. apply Forall_insert; auto; split; auto.
      * apply Hset; exact I.
    + destruct (o_write o) as [[]|e]; injection Hs as <- <-.
      * split; [|split]; simpl; auto.
        -- intros v Hin. rewrite downloads_app in Hin.
           apply in_app_or in Hin as [Hin|Hin]; auto.
        -- apply Forall_insert; auto; (split; [exact I | intros v []]).
      * split; [|split]; simpl; auto.
        -- intros v Hin. rewrite downloads_app in Hin.
           apply in_app_or in Hin as [Hin|Hin]; auto.
           apply Hrows. unfold downloads in *. apply in_map_iff in Hin as (r & <- & Hr).
           apply in_map_iff. exists r. split; [reflexivity|].
           apply filter_In in Hr as [Hr Hdl]. apply filter_In. split; [|exact Hdl].
           eapply In_firstn; eauto.
        -- apply Forall_insert; auto; exact I.
    + injection Hs as <- <-. split; [|split]; simpl; auto. apply Forall_insert; auto;
      (split; [exact I | intros v []]).
    + destruct (unfinished_tasks s); injection Hs as <- <-.
      * apply Hset; exact I.
      * split; [|split]; simpl; auto. apply Forall_insert; auto; exact I.
Qed.

Lemma Announced_Crawler starting_url n : Announced (Crawler starting_url n).
Proof.
  split; [|split]; simpl; [intros r [] | intros u [] |].
  apply Forall_forall. intros w Hw. apply elem_of_replicate in Hw as [-> _]. exact I.
Qed.

End AnnouncedFacts.

Section VisitedOrigin.
Context `{E : PyEnv} (starting_url : string).



End VisitedOrigin.

(* --------------------------------------------------------------------- *)
(*  Further properties of the code                                        *)
(* --------------------------------------------------------------------- *)

(** X1.  The counter of the JoinableQueue is exact in every run: it is the
    number of queued items plus the number of items a worker has taken
    and not yet marked done.  So task_done() is never called too often:
    at each call the counter is positive. *)
Theorem X1_counter_is_exact `{E : PyEnv} starting_url n sched tr s :
  run sched (Crawler starting_url n) = Some (tr, s) ->
  unfinished_tasks s = (length (queue s) + in_flight (workers s))%nat /\
  forall i url level,
    workers s !! i = Some (Busy url level TaskDone) -> (0 < unfinished_tasks s)%nat.
Proof.
  intros Hrun. split.
  - exact (run_accounted _ _ _ _ (accounted_Crawler starting_url n) Hrun).
  - intros i url level. exact (task_done_in_time _ _ _ _ _ _ _ _ Hrun).
Qed.

Lemma X1_counter_witness :
  @run Demo.env2 Demo.sched_seed (Crawler Demo.S_ 1)
    = Some (@Demo.trace Demo.env2 Demo.sched_seed (Crawler Demo.S_ 1),
            @Demo.final Demo.env2 Demo.sched_seed (Crawler Demo.S_ 1)) /\
  unfinished_tasks (@Demo.final Demo.env2 Demo.sched_seed (Crawler Demo.S_ 1)) =
    (length (queue (@Demo.final Demo.env2 Demo.sched_seed (Crawler Demo.S_ 1))) +
     in_flight (workers (@Demo.final Demo.env2 Demo.sched_seed (Crawler Demo.S_ 1))))%nat.
Proof.
  split; [vm_compute; reflexivity|].
  apply (@X1_counter_is_exact Demo.env2 Demo.S_ 1 Demo.sched_seed
           (@Demo.trace Demo.env2 Demo.sched_seed (Crawler Demo.S_ 1))).
  vm_compute. reflexivity.
Defined.

(** X2.  When queue.join() returns, the queue is empty, every worker is
    blocked in queue.get(), and no worker can move any more: the main
    process terminates workers that are in the middle of nothing. *)
Theorem X2_join_returns_at_rest `{E : PyEnv} starting_url n sched tr s :
  run sched (Crawler starting_url n) = Some (tr, s) ->
  joined s = true ->
  queue s = [] /\ Forall (fun w => w = Idle) (workers s) /\
  forall i o, parse_url i o s = None.
Proof.
  intros Hrun Hj.
  destruct (joined_quiescent _ _ _ _ _ Hrun Hj) as [Hq Hw].
  split; [exact Hq|]. split; [exact Hw|].
  intros i o. unfold parse_url.
  destruct (workers s !! i) as [w|] eqn:Hwi; [|reflexivity].
  rewrite (Forall_lookup_1 _ _ _ _ Hw Hwi), Hq. reflexivity.
Qed.

Lemma X2_join_witness :
  @run Demo.env2 (Demo.sched_race Demo.a_is_an_image) (Crawler Demo.S_ 2)
    = Some (@Demo.trace Demo.env2 (Demo.sched_race Demo.a_is_an_image) (Crawler Demo.S_ 2),
            @Demo.final Demo.env2 (Demo.sched_race Demo.a_is_an_image) (Crawler Demo.S_ 2)) /\
  joined (@Demo.final Demo.env2 (Demo.sched_race Demo.a_is_an_image) (Crawler Demo.S_ 2)) = true /\
  queue (@Demo.final Demo.env2 (Demo.sched_race Demo.a_is_an_image) (Crawler Demo.S_ 2)) = [].
Proof.
  split; [vm_compute; reflexivity|]. split; [vm_compute; reflexivity|].
  apply (@X2_join_returns_at_rest Demo.env2 Demo.S_ 2 (Demo.sched_race Demo.a_is_an_image)
           (@Demo.trace Demo.env2 (Demo.sched_race Demo.a_is_an_image) (Crawler Demo.S_ 2))).
  - vm_compute. reflexivity.
  - vm_compute. reflexivity.
Defined.

(** X3.  A worker that has left parse_url through an uncaught exception
    never calls task_done() for the item it held: from then on, however
    the other workers go on, queue.join() never returns. *)
Theorem X3_lost_worker_blocks_join `{E : PyEnv}
  starting_url n sched tr s j url level sched' tr' s' :
  run sched (Crawler starting_url n) = Some (tr, s) ->
  workers s !! j = Some (Dead url level) ->
  run sched' s = Some (tr', s') ->
  joined s' = false.
Proof. apply dead_worker_blocks_join. Qed.

Lemma X3_lost_worker_witness :
  @run Demo.env2 Demo.sched_crash (Crawler Demo.S_ 1)
    = Some (@Demo.trace Demo.env2 Demo.sched_crash (Crawler Demo.S_ 1),
            @Demo.final Demo.env2 Demo.sched_crash (Crawler Demo.S_ 1)) /\
  workers (@Demo.final Demo.env2 Demo.sched_crash (Crawler Demo.S_ 1)) !! 0%nat
    = Some (Dead Demo.S_ 0) /\
  joined (@Demo.final Demo.env2 Demo.sched_crash (Crawler Demo.S_ 1)) = false.
Proof.
  split; [vm_compute; reflexivity|]. split; [vm_compute; reflexivity|].
  apply (@X3_lost_worker_blocks_join Demo.env2 Demo.S_ 1 Demo.sched_crash
           (@Demo.trace Demo.env2 Demo.sched_crash (Crawler Demo.S_ 1))
           (@Demo.final Demo.env2 Demo.sched_crash (Crawler Demo.S_ 1))
           0%nat Demo.S_ 0 [] []).
  - vm_compute. reflexivity.
  - vm_compute. reflexivity.
  - reflexivity.
Defined.







(** X7.  When queue.join() returns, every URL that has a row in the valid
    file and every URL that has a DOWNLOAD_ERROR row in the invalid file
    is in visited_urls: the iteration that recorded it ran to its end. *)
Theorem X7_recorded_is_visited_at_join `{E : PyEnv} starting_url n sched tr s :
  run sched (Crawler starting_url n) = Some (tr, s) ->
  joined s = true ->
  forall u, (exists l, In (u, l) (valid_urls_fd s)) \/ In (u, DOWNLOAD_ERROR) (invalid_urls_fd s) ->
    In u (visited_urls s).
Proof.
  intros Hrun Hj u Hu.
  destruct (joined_quiescent _ _ _ _ _ Hrun Hj) as [_ Hw].
  assert (HC : Inv starting_url s /\ Closing s).
  { apply (run_invariant (fun s => Inv starting_url s /\ Closing s)
             (step_Closing starting_url) _ _ _ _
             (conj (Inv_Crawler starting_url n) (Closing_Crawler starting_url n)) Hrun). }
  destruct HC as [_ HC]. destruct (HC u) as [Hv|(i & w & Hwi & Hh)]; auto.
  - destruct Hu as [[l Hu]|Hu].
    + left. unfold valid_names. apply in_map_iff. now exists (u, l).
    + right. unfold downloads. apply in_map_iff. exists (u, DOWNLOAD_ERROR).
      split; [reflexivity|]. apply filter_In. auto.
  - rewrite (Forall_lookup_1 _ _ _ _ Hw Hwi) in Hh. discriminate.
Qed.

Lemma X7_recorded_witness :
  @run Demo.env2 (Demo.sched_race Demo.a_is_an_image) (Crawler Demo.S_ 2)
    = Some (@Demo.trace Demo.env2 (Demo.sched_race Demo.a_is_an_image) (Crawler Demo.S_ 2),
            @Demo.final Demo.env2 (Demo.sched_race Demo.a_is_an_image) (Crawler Demo.S_ 2)) /\
  In Demo.B_
     (visited_urls (@Demo.final Demo.env2 (Demo.sched_race Demo.a_is_an_image)
                      (Crawler Demo.S_ 2))).
Proof.
  split; [vm_compute; reflexivity|].
  apply (@X7_recorded_is_visited_at_join Demo.env2 Demo.S_ 2
           (Demo.sched_race Demo.a_is_an_image)
           (@Demo.trace Demo.env2 (Demo.sched_race Demo.a_is_an_image) (Crawler Demo.S_ 2))).
  - vm_compute. reflexivity.
  - vm_compute. reflexivity.
  - left. exists 1. vm_compute. right. left. reflexivity.
Defined.

(** X8.  Depths are genuine: in every run, an item on the queue or a row
    of the valid file is the seed at depth 0, or it has a positive depth
    l and the valid file has a row of depth l - 1, written by the worker
    that put the item before it put it. *)
Theorem X8_every_item_has_a_recorded_parent `{E : PyEnv} starting_url n sched tr s :
  run sched (Crawler starting_url n) = Some (tr, s) ->
  forall u l, In (u, l) (queue s) \/ In (u, l) (valid_urls_fd s) ->
    (u = starting_url /\ l = 0) \/
    (0 < l /\ exists parent, In (parent, l - 1) (valid_urls_fd s)).
Proof.
  intros Hrun u l Hin.
  destruct (run_Origin starting_url _ _ _ _ Hrun) as (Hq & _ & Hv & _).
  rewrite Forall_forall in Hq, Hv.
  assert (Ho : origin starting_url s (u, l)).
  { destruct Hin as [Hin|Hin]; [apply Hq | apply Hv]; now apply list_elem_of_In. }
  destruct Ho as [[= -> ->]|Ho]; [left; auto | right; exact Ho].
Qed.

Lemma X8_parent_witness :
  @run Demo.env2 (Demo.sched_race Demo.a_is_an_image) (Crawler Demo.S_ 2)
    = Some (@Demo.trace Demo.env2 (Demo.sched_race Demo.a_is_an_image) (Crawler Demo.S_ 2),
            @Demo.final Demo.env2 (Demo.sched_race Demo.a_is_an_image) (Crawler Demo.S_ 2)) /\
  ((Demo.A_ = Demo.S_ /\ 2 = 0) \/
   (0 < 2 /\ exists parent,
      In (parent, 2 - 1)
         (valid_urls_fd (@Demo.final Demo.env2 (Demo.sched_race Demo.a_is_an_image)
                           (Crawler Demo.S_ 2))))).
Proof.
  split; [vm_compute; reflexivity|].
  apply (@X8_every_item_has_a_recorded_parent Demo.env2 Demo.S_ 2
           (Demo.sched_race Demo.a_is_an_image)
           (@Demo.trace Demo.env2 (Demo.sched_race Demo.a_is_an_image) (Crawler Demo.S_ 2))).
  - vm_compute. reflexivity.
  - right. vm_compute. right. right. left. reflexivity.
Defined.

(** X9.  The depths of the valid file have no gap: if it has a row of
    depth l, then l is not negative, the seed has a row of depth 0, and
    every depth from 0 to l has a row. *)
Theorem X9_depths_have_no_gap `{E : PyEnv} starting_url n sched tr s u l :
  run sched (Crawler starting_url n) = Some (tr, s) ->
  In (u, l) (valid_urls_fd s) ->
  0 <= l /\ In (starting_url, 0) (valid_urls_fd s) /\
  forall k, 0 <= k <= l -> exists u', In (u', k) (valid_urls_fd s).
Proof.
  intros Hrun.
  destruct (run_Origin starting_url _ _ _ _ Hrun) as (_ & _ & Hv & _).
  rewrite Forall_forall in Hv.
  assert (H : forall m : nat, forall u l, Z.to_nat l = m -> In (u, l) (valid_urls_fd s) ->
            0 <= l /\ In (starting_url, 0) (valid_urls_fd s) /\
            forall k, 0 <= k <= l -> exists u', In (u', k) (valid_urls_fd s)).
  { induction m as [|m IH]; intros u0 l0 Hm Hin;
      destruct (Hv (u0, l0) (proj2 (list_elem_of_In _ _) Hin)) as [[= -> ->]|[H0 [p Hp]]];
      simpl in *.
    - split; [lia|]. split; [exact Hin|]. intros k Hk.
      assert (k = 0) as -> by lia. eauto.
    - lia.
    - discriminate.
    - destruct (IH p (l0 - 1)) as (Hl & Hseed & Hall); [lia | exact Hp |].
      split; [lia|]. split; [exact Hseed|]. intros k Hk.
      destruct (Z.eq_dec k l0) as [->|Hne]; [eauto|]. apply Hall. lia. }
  intros Hin. exact (H (Z.to_nat l) u l eq_refl Hin).
Qed.

Lemma X9_no_gap_witness :
  @run Demo.env2 (Demo.sched_race Demo.a_is_an_image) (Crawler Demo.S_ 2)
    = Some (@Demo.trace Demo.env2 (Demo.sched_race Demo.a_is_an_image) (Crawler Demo.S_ 2),
            @Demo.final Demo.env2 (Demo.sched_race Demo.a_is_an_image) (Crawler Demo.S_ 2)) /\
  In (Demo.S_, 0)
     (valid_urls_fd (@Demo.final Demo.env2 (Demo.sched_race Demo.a_is_an_image)
                       (Crawler Demo.S_ 2))).
Proof.
  split; [vm_compute; reflexivity|].
  apply (@X9_depths_have_no_gap Demo.env2 Demo.S_ 2
           (Demo.sched_race Demo.a_is_an_image)
           (@Demo.trace Demo.env2 (Demo.sched_race Demo.a_is_an_image) (Crawler Demo.S_ 2))
           (@Demo.final Demo.env2 (Demo.sched_race Demo.a_is_an_image) (Crawler Demo.S_ 2))
           Demo.A_ 2).
  - vm_compute. reflexivity.
  - vm_compute. right. right. left. reflexivity.
Defined.

(** X10.  Every image record names a URL that has a row in the valid file
    and the netloc of the seed; so does every row, after the header, of
    the duplicate-image report written at shutdown, which moreover is
    the row of an image record. *)
Theorem X10_reported_images_are_recorded_pages `{E : PyEnv} starting_url n sched tr s :
  run sched (Crawler starting_url n) = Some (tr, s) ->
  (forall h u, In (h, u) (duplicate_images_urls s) ->
     in_domain starting_url u /\ exists l, In (u, l) (valid_urls_fd s)) /\
  (forall u h, In (u, h) (duplicate_img_fd s) ->
     (u, h) = ("URL", "md5") \/
     (In (h, u) (duplicate_images_urls s) /\ in_domain starting_url u /\
      exists l, In (u, l) (valid_urls_fd s))).
Proof.
  intros Hrun.
  destruct (run_Origin starting_url _ _ _ _ Hrun) as (_ & _ & _ & Hd).
  destruct (run_inv starting_url _ _ _ _ (Inv_Crawler starting_url n) Hrun)
    as [(_ & _ & Hv & _) _].
  rewrite Forall_forall in Hv.
  assert (Himg : forall h u, In (h, u) (duplicate_images_urls s) ->
            in_domain starting_url u /\ exists l, In (u, l) (valid_urls_fd s)).
  { intros h u Hin. apply Hd, in_map_iff in Hin as ([u0 l] & Heq & Hin).
    simpl in Heq. subst u0. split; [|eauto].
    exact (proj2 (Hv (u, l) (proj2 (list_elem_of_In _ _) Hin))). }
  split; [exact Himg|].
  intros u h [Hin|Hin]; [left; now symmetry|]. right.
  apply (Permutation_in _ (output_dupimgs_rows _)) in Hin.
  apply in_map_iff in Hin as ([h0 u0] & Heq & Hin). unfold Report.row_of in Heq.
  simpl in Heq. injection Heq as -> ->.
  unfold Report.repeated in Hin. apply filter_In in Hin as [Hin _].
  split; [exact Hin|]. now apply (Himg h).
Qed.

Lemma X10_reported_witness :
  @run Demo.env2 (Demo.sched_race Demo.a_is_an_image) (Crawler Demo.S_ 2)
    = Some (@Demo.trace Demo.env2 (Demo.sched_race Demo.a_is_an_image) (Crawler Demo.S_ 2),
            @Demo.final Demo.env2 (Demo.sched_race Demo.a_is_an_image) (Crawler Demo.S_ 2)) /\
  duplicate_img_fd (@Demo.final Demo.env2 (Demo.sched_race Demo.a_is_an_image)
                      (Crawler Demo.S_ 2))
    = [("URL", "md5"); (Demo.A_, "PNG"); (Demo.A_, "PNG")] /\
  exists l, In (Demo.A_, l)
              (valid_urls_fd (@Demo.final Demo.env2 (Demo.sched_race Demo.a_is_an_image)
                                (Crawler Demo.S_ 2))).
Proof.
  split; [vm_compute; reflexivity|]. split; [vm_compute; reflexivity|].
  apply (@X10_reported_images_are_recorded_pages Demo.env2 Demo.S_ 2
           (Demo.sched_race Demo.a_is_an_image)
           (@Demo.trace Demo.env2 (Demo.sched_race Demo.a_is_an_image) (Crawler Demo.S_ 2))
           (@Demo.final Demo.env2 (Demo.sched_race Demo.a_is_an_image) (Crawler Demo.S_ 2)))
    with (h := "PNG").
  - vm_compute. reflexivity.
  - vm_compute. left. reflexivity.
Defined.

(** X11.  A row of kind PARSE_ERROR is written only for a string on which
    urlparse raised KeyboardInterrupt, the one exception validate_url
    catches: in every run, each PARSE_ERROR row of the invalid file names
    such a string. *)
Theorem X11_parse_error_rows `{E : PyEnv} starting_url n sched tr s u :
  run sched (Crawler starting_url n) = Some (tr, s) ->
  In (u, PARSE_ERROR) (invalid_urls_fd s) ->
  urlparse u = Raise KeyboardInterrupt /\ validate_url u = Return None.
Proof.
  intros Hrun Hin. destruct (run_ParseRows _ _ _ _ _ Hrun) as [Hr _].
  pose proof (Hr u Hin) as Hu. split; [exact Hu|].
  unfold validate_url. now rewrite Hu.
Qed.

Lemma X11_parse_error_witness :
  @run (interrupted_at Demo.S_ Demo.env2) [(0%nat, Demo.go); (0%nat, Demo.go);
                                            (0%nat, Demo.go); (0%nat, Demo.go)]
       (Crawler Demo.S_ 1)
    = Some (@Demo.trace (interrupted_at Demo.S_ Demo.env2)
              [(0%nat, Demo.go); (0%nat, Demo.go); (0%nat, Demo.go); (0%nat, Demo.go)]
              (Crawler Demo.S_ 1),
            @Demo.final (interrupted_at Demo.S_ Demo.env2)
              [(0%nat, Demo.go); (0%nat, Demo.go); (0%nat, Demo.go); (0%nat, Demo.go)]
              (Crawler Demo.S_ 1)) /\
  invalid_urls_fd (@Demo.final (interrupted_at Demo.S_ Demo.env2)
                     [(0%nat, Demo.go); (0%nat, Demo.go); (0%nat, Demo.go); (0%nat, Demo.go)]
                     (Crawler Demo.S_ 1)) = [(Demo.S_, PARSE_ERROR)] /\
  @urlparse (interrupted_at Demo.S_ Demo.env2) Demo.S_ = Raise KeyboardInterrupt /\
  @validate_url (interrupted_at Demo.S_ Demo.env2) Demo.S_ = Return None.
Proof.
  split; [vm_compute; reflexivity|]. split; [vm_compute; reflexivity|].
  apply (@X11_parse_error_rows (interrupted_at Demo.S_ Demo.env2) Demo.S_ 1
           [(0%nat, Demo.go); (0%nat, Demo.go); (0%nat, Demo.go); (0%nat, Demo.go)]
           (@Demo.trace (interrupted_at Demo.S_ Demo.env2)
              [(0%nat, Demo.go); (0%nat, Demo.go); (0%nat, Demo.go); (0%nat, Demo.go)]
              (Crawler Demo.S_ 1))
           (@Demo.final (interrupted_at Demo.S_ Demo.env2)
              [(0%nat, Demo.go); (0%nat, Demo.go); (0%nat, Demo.go); (0%nat, Demo.go)]
              (Crawler Demo.S_ 1))).
  - vm_compute. reflexivity.
  - vm_compute. left. reflexivity.
Defined.

(** X12.  Where urlparse never raises KeyboardInterrupt, as CPython's,
    which raises nothing but ValueError, the invalid file never gets a
    PARSE_ERROR row, whatever the pages contain, whatever the HTML parser
    and Path.resolve() do, and however the workers are scheduled. *)
Theorem X12_no_parse_error_row_unless_interrupted `{E : PyEnv}
  starting_url n sched tr s u :
  (forall v, urlparse v <> Raise KeyboardInterrupt) ->
  run sched (Crawler starting_url n) = Some (tr, s) ->
  ~ In (u, PARSE_ERROR) (invalid_urls_fd s).
Proof.
  intros Hnever Hrun Hin.
  destruct (run_ParseRows _ _ _ _ _ Hrun) as [Hr _].
  exact (Hnever u (Hr u Hin)).
Qed.

Lemma X12_no_parse_error_witness :
  (forall v, @urlparse Demo.env2 v <> Raise KeyboardInterrupt) /\
  @run Demo.env2 Demo.sched_malformed (Crawler Demo.S_ 1)
    = Some (@Demo.trace Demo.env2 Demo.sched_malformed (Crawler Demo.S_ 1),
            @Demo.final Demo.env2 Demo.sched_malformed (Crawler Demo.S_ 1)) /\
  ~ In ("::not a url::", PARSE_ERROR)
       (invalid_urls_fd (@Demo.final Demo.env2 Demo.sched_malformed (Crawler Demo.S_ 1))).
Proof.
  assert (Hnever : forall v, @urlparse Demo.env2 v <> Raise KeyboardInterrupt).
  { intros v H. change (UrlLib.urlparse v = Raise KeyboardInterrupt) in H.
    apply urlparse_raise in H. discriminate. }
  split; [exact Hnever|]. split; [vm_compute; reflexivity|].
  apply (@X12_no_parse_error_row_unless_interrupted Demo.env2 Demo.S_ 1 Demo.sched_malformed
           (@Demo.trace Demo.env2 Demo.sched_malformed (Crawler Demo.S_ 1))
           (@Demo.final Demo.env2 Demo.sched_malformed (Crawler Demo.S_ 1))).
  - exact Hnever.
  - vm_compute. reflexivity.
Defined.



(** X14.  An item that is deeper than MAX_DEPTH_LEVEL, or whose URL is
    already in visited_urls, is dropped without a trace: the worker that
    gets it calls task_done() after the test of the depth (two
    operations) or of visited_urls (three), and nothing is printed,
    fetched, written, enqueued or appended. *)
Theorem X14_skipped_item_leaves_no_trace `{E : PyEnv} i o1 o2 o3 s url level :
  workers s !! i = Some Idle ->
  queue s !! o_pick o1 = Some (url, level) ->
  (0 < unfinished_tasks s)%nat ->
  MAX_DEPTH_LEVEL < level \/ In url (visited_urls s) ->
  exists tr s',
    run (if Z.ltb MAX_DEPTH_LEVEL level then [(i, o1); (i, o2)]
         else [(i, o1); (i, o2); (i, o3)]) s = Some (tr, s') /\
    queue s' = delete (o_pick o1) (queue s) /\
    S (unfinished_tasks s') = unfinished_tasks s /\
    workers s' = workers s /\
    visited_urls s' = visited_urls s /\ valid_urls_fd s' = valid_urls_fd s /\
    invalid_urls_fd s' = invalid_urls_fd s /\
    duplicate_images_urls s' = duplicate_images_urls s /\
    stdout s' = stdout s /\ stderr s' = stderr s.
Proof.
  intros Hw Hq Hu Hskip. pose proof (lookup_lt_Some _ _ _ Hw) as Hlt.
  destruct (unfinished_tasks s) as [|m] eqn:Hm; [lia|].
  destruct (Z.ltb MAX_DEPTH_LEVEL level) eqn:Hdeep.
  - unfold run, parse_url. rewrite Hw, Hq, Hdeep. simpl.
    rewrite list_lookup_insert_eq by exact Hlt. simpl. rewrite Hm.
    eexists. eexists. split; [reflexivity|]. simpl.
    rewrite list_insert_insert_eq, (list_insert_id _ _ _ Hw). repeat split.
  - destruct Hskip as [Hskip|Hskip]; [apply Z.ltb_ge in Hdeep; lia|].
    apply str_in_In in Hskip.
    unfold run, parse_url. rewrite Hw, Hq, Hdeep. simpl.
    rewrite list_lookup_insert_eq by exact Hlt. simpl. rewrite Hskip.
    rewrite list_lookup_insert_eq by (rewrite !length_insert; exact Hlt). simpl. rewrite Hm.
    eexists. eexists. split; [reflexivity|]. simpl.
    rewrite !list_insert_insert_eq, (list_insert_id _ _ _ Hw). repeat split.
Qed.

Lemma X14_skipped_item_witness :
  @MAX_DEPTH_LEVEL (Demo.cpython PathLib.plain_fs (-1)) < 0 /\
  exists tr s',
    @run (Demo.cpython PathLib.plain_fs (-1)) [(0%nat, Demo.go); (0%nat, Demo.go)]
         (Crawler Demo.S_ 1) = Some (tr, s') /\
    queue s' = [] /\ valid_urls_fd s' = [] /\ stdout s' = [].
Proof.
  split; [reflexivity|].
  destruct (@X14_skipped_item_leaves_no_trace (Demo.cpython PathLib.plain_fs (-1))
              0%nat Demo.go Demo.go Demo.go (Crawler Demo.S_ 1) Demo.S_ 0)
    as (tr & s' & Hrun & Hq & _ & _ & _ & Hv & _ & _ & Ho & _).
  - reflexivity.
  - reflexivity.
  - simpl. lia.
  - left. reflexivity.
  - exists tr, s'. split; [exact Hrun|]. split; [exact Hq|]. split; [exact Hv | exact Ho].
Defined.

(** X15.  A failed download costs exactly one row: when requests.get or
    raise_for_status raises a RequestException and the invalid file can
    be written, the iteration ends with the row (url, DOWNLOAD_ERROR)
    appended to the invalid file, url appended to visited_urls and the
    item marked done; nothing goes to the valid file, the queue, the
    image records or stderr. *)
Theorem X15_download_failure `{E : PyEnv} i o1 o2 o3 o4 s url level url_parsed :
  workers s !! i = Some (Busy url level (Fetch url_parsed)) ->
  o_fetch o1 = Raise RequestException ->
  o_write o2 = Return tt ->
  (0 < unfinished_tasks s)%nat ->
  exists tr s',
    run [(i, o1); (i, o2); (i, o3); (i, o4)] s = Some (tr, s') /\
    workers s' = <[i:=Idle]> (workers s) /\
    invalid_urls_fd s' = (invalid_urls_fd s ++ [(url, DOWNLOAD_ERROR)])%list /\
    visited_urls s' = (visited_urls s ++ [url])%list /\
    S (unfinished_tasks s') = unfinished_tasks s /\
    queue s' = queue s /\ valid_urls_fd s' = valid_urls_fd s /\
    duplicate_images_urls s' = duplicate_images_urls s /\
    stdout s' = stdout s /\ stderr s' = stderr s.
Proof.
  intros Hw Hf Ho Hu. pose proof (lookup_lt_Some _ _ _ Hw) as Hlt.
  destruct (closing_steps i o2 o3 o4
              (set_worker i (Busy url level (Flush [(url, DOWNLOAD_ERROR)])) s)
              url level [(url, DOWNLOAD_ERROR)])
    as (tr & s' & Hrun & Hws & H); auto.
  { simpl. now apply list_lookup_insert_eq. }
  exists (Ev i url level (OpFetch (Raise RequestException)) :: tr), s'.
  split.
  - apply run_cons with (s1 := set_worker i (Busy url level (Flush [(url, DOWNLOAD_ERROR)])) s);
      [|exact Hrun].
    unfold parse_url. rewrite Hw, Hf. reflexivity.
  - simpl in Hws. rewrite list_insert_insert_eq in Hws. split; [exact Hws | exact H].
Qed.

Lemma X15_download_failure_witness :
  workers (@Demo.final Demo.env2 (List.firstn 3 Demo.sched_crash) (Crawler Demo.S_ 1)) !! 0%nat
    = Some (Busy Demo.S_ 0 (Fetch (Demo.parent Demo.S_))) /\
  exists tr s',
    @run Demo.env2 [(0%nat, Demo.fetched (Raise RequestException)); (0%nat, Demo.go);
                    (0%nat, Demo.go); (0%nat, Demo.go)]
         (@Demo.final Demo.env2 (List.firstn 3 Demo.sched_crash) (Crawler Demo.S_ 1))
      = Some (tr, s') /\
    invalid_urls_fd s' = [(Demo.S_, DOWNLOAD_ERROR)].
Proof.
  split; [vm_compute; reflexivity|].
  destruct (@X15_download_failure Demo.env2 0%nat
              (Demo.fetched (Raise RequestException)) Demo.go Demo.go Demo.go
              (@Demo.final Demo.env2 (List.firstn 3 Demo.sched_crash) (Crawler Demo.S_ 1))
              Demo.S_ 0 (Demo.parent Demo.S_))
    as (tr & s' & Hrun & _ & Hinv & _).
  - vm_compute. reflexivity.
  - reflexivity.
  - reflexivity.
  - vm_compute. lia.
  - exists tr, s'. split; [exact Hrun | exact Hinv].
Defined.

(** X16.  An exception that `except Exception` catches does not lose the
    item: if the report to stderr and the write of the invalid file
    succeed, the URL is written to stderr, the rows collected before the
    exception are appended to the invalid file, the URL is appended to
    visited_urls and the item is marked done; no link of the page is put
    on the queue. *)
Theorem X16_caught_exception_ends_the_iteration `{E : PyEnv} i o1 o2 o3 o4 s url level inv :
  workers s !! i = Some (Busy url level (LogErr inv)) ->
  o_write o1 = Return tt ->
  o_write o2 = Return tt ->
  (0 < unfinished_tasks s)%nat ->
  exists tr s',
    run [(i, o1); (i, o2); (i, o3); (i, o4)] s = Some (tr, s') /\
    workers s' = <[i:=Idle]> (workers s) /\
    stderr s' = (stderr s ++ [url])%list /\
    invalid_urls_fd s' = (invalid_urls_fd s ++ inv)%list /\
    visited_urls s' = (visited_urls s ++ [url])%list /\
    S (unfinished_tasks s') = unfinished_tasks s /\
    queue s' = queue s /\ valid_urls_fd s' = valid_urls_fd s /\
    duplicate_images_urls s' = duplicate_images_urls s /\
    stdout s' = stdout s.
Proof.
  intros Hw Ho1 Ho2 Hu. pose proof (lookup_lt_Some _ _ _ Hw) as Hlt.
  destruct (closing_steps i o2 o3 o4
              (mkState (queue s) (unfinished_tasks s) (visited_urls s)
                 (duplicate_images_urls s) (valid_urls_fd s) (invalid_urls_fd s)
                 (stdout s) (stderr s ++ [url])%list
                 (<[i:=Busy url level (Flush inv)]> (workers s)))
              url level inv)
    as (tr & s' & Hrun & Hws & Hi & Hv & Hn & Hq & Hva & Hd & Hso & Hse); auto.
  { simpl. now apply list_lookup_insert_eq. }
  exists (Ev i url level (OpStderr (Return tt)) :: tr), s'.
  split.
  - eapply run_cons; [|exact Hrun]. unfold parse_url. rewrite Hw, Ho1. reflexivity.
  - simpl in *. rewrite list_insert_insert_eq in Hws. repeat split; auto.
Qed.

Lemma X16_caught_exception_witness :
  workers (@Demo.final Demo.env2
             [(0%nat, Demo.go); (0%nat, Demo.go); (0%nat, Demo.go); (0%nat, Demo.go)]
             (Crawler Demo.S_ 1)) !! 0%nat
    = Some (Busy Demo.S_ 0 (LogErr [])) /\
  exists tr s',
    @run Demo.env2 [(0%nat, Demo.go); (0%nat, Demo.go); (0%nat, Demo.go); (0%nat, Demo.go)]
         (@Demo.final Demo.env2
            [(0%nat, Demo.go); (0%nat, Demo.go); (0%nat, Demo.go); (0%nat, Demo.go)]
            (Crawler Demo.S_ 1))
      = Some (tr, s') /\
    stderr s' = [Demo.S_].
Proof.
  split; [vm_compute; reflexivity|].
  destruct (@X16_caught_exception_ends_the_iteration Demo.env2 0%nat
              Demo.go Demo.go Demo.go Demo.go
              (@Demo.final Demo.env2
                 [(0%nat, Demo.go); (0%nat, Demo.go); (0%nat, Demo.go); (0%nat, Demo.go)]
                 (Crawler Demo.S_ 1))
              Demo.S_ 0 [])
    as (tr & s' & Hrun & _ & Herr & _).
  - vm_compute. reflexivity.
  - reflexivity.
  - reflexivity.
  - vm_compute. lia.
  - exists tr, s'. split; [exact Hrun | exact Herr].
Defined.

(** X17.  An image costs one row and one record: for a response whose
    Content-Type starts with image/ and does not contain text/html, if
    the files can be written, the iteration appends (url, level) to the
    valid file and (md5 of the content, url) to the image records,
    appends url to visited_urls and marks the item done; its body is not
    searched for links and nothing is enqueued. *)
Theorem X17_image_iteration `{E : PyEnv} i o1 o2 o3 o4 o5 s url level url_parsed resp ct :
  workers s !! i = Some (Busy url level (WriteValid url_parsed resp)) ->
  content_type resp = Some ct ->
  PyStr.startswith "image/" ct = true ->
  PyStr.contains "text/html" ct = false ->
  o_write o1 = Return tt ->
  o_write o3 = Return tt ->
  (0 < unfinished_tasks s)%nat ->
  exists tr s',
    run [(i, o1); (i, o2); (i, o3); (i, o4); (i, o5)] s = Some (tr, s') /\
    workers s' = <[i:=Idle]> (workers s) /\
    valid_urls_fd s' = (valid_urls_fd s ++ [(url, level)])%list /\
    duplicate_images_urls s' =
      (duplicate_images_urls s ++ [(md5_hexdigest (content resp), url)])%list /\
    visited_urls s' = (visited_urls s ++ [url])%list /\
    S (unfinished_tasks s') = unfinished_tasks s /\
    queue s' = queue s /\ invalid_urls_fd s' = invalid_urls_fd s /\
    stdout s' = stdout s /\ stderr s' = stderr s.
Proof.
  intros Hw Hct Himg Hhtml Ho1 Ho3 Hu. pose proof (lookup_lt_Some _ _ _ Hw) as Hlt.
  assert (Hav : after_valid url level url_parsed resp (o_order o1) =
                Some (Busy url level (AppendDup (md5_hexdigest (content resp))))).
  { unfold after_valid. rewrite Hct, Hhtml, Himg, andb_false_r.
    destruct ct; [discriminate | reflexivity]. }
  destruct (closing_steps i o3 o4 o5
              (mkState (queue s) (unfinished_tasks s) (visited_urls s)
                 (duplicate_images_urls s ++ [(md5_hexdigest (content resp), url)])%list
                 (valid_urls_fd s ++ [(url, level)])%list (invalid_urls_fd s)
                 (stdout s) (stderr s)
                 (<[i:=Busy url level (Flush [])]> (workers s)))
              url level [])
    as (tr & s' & Hrun & Hws & Hi & Hv & Hn & Hq & Hva & Hd & Hso & Hse); auto.
  { simpl. now apply list_lookup_insert_eq. }
  eexists. exists s'. split.
  - eapply run_cons.
    { unfold parse_url. rewrite Hw, Ho1, Hav. reflexivity. }
    eapply run_cons; [|exact Hrun].
    unfold parse_url. simpl. rewrite list_lookup_insert_eq by exact Hlt.
    rewrite list_insert_insert_eq. reflexivity.
  - simpl in *. rewrite list_insert_insert_eq in Hws. rewrite app_nil_r in Hi.
    repeat split; auto.
Qed.

Lemma X17_image_witness :
  workers (@Demo.final Demo.env2
             [(0%nat, Demo.go); (0%nat, Demo.go); (0%nat, Demo.go);
              (0%nat, Demo.fetched (Return (mkResponse (Some "image/png") "" "PNG")))]
             (Crawler Demo.S_ 1)) !! 0%nat
    = Some (Busy Demo.S_ 0 (WriteValid (Demo.parent Demo.S_)
                              (mkResponse (Some "image/png") "" "PNG"))) /\
  exists tr s',
    @run Demo.env2 [(0%nat, Demo.go); (0%nat, Demo.go); (0%nat, Demo.go);
                    (0%nat, Demo.go); (0%nat, Demo.go)]
         (@Demo.final Demo.env2
            [(0%nat, Demo.go); (0%nat, Demo.go); (0%nat, Demo.go);
             (0%nat, Demo.fetched (Return (mkResponse (Some "image/png") "" "PNG")))]
            (Crawler Demo.S_ 1))
      = Some (tr, s') /\
    duplicate_images_urls s' = [("PNG", Demo.S_)].
Proof.
  split; [vm_compute; reflexivity|].
  destruct (@X17_image_iteration Demo.env2 0%nat Demo.go Demo.go Demo.go Demo.go Demo.go
              (@Demo.final Demo.env2
                 [(0%nat, Demo.go); (0%nat, Demo.go); (0%nat, Demo.go);
                  (0%nat, Demo.fetched (Return (mkResponse (Some "image/png") "" "PNG")))]
                 (Crawler Demo.S_ 1))
              Demo.S_ 0 (Demo.parent Demo.S_) (mkResponse (Some "image/png") "" "PNG")
              "image/png")
    as (tr & s' & Hrun & _ & _ & Hd & _).
  - vm_compute. reflexivity.
  - reflexivity.
  - reflexivity.
  - reflexivity.
  - reflexivity.
  - reflexivity.
  - vm_compute. lia.
  - exists tr, s'. split; [exact Hrun | exact Hd].
Defined.

(** X18.  What a page costs and yields: for a text/html response whose
    links are all classified without an exception, a worker that is not
    overtaken appends (url, level) to the valid file, puts on the queue,
    at depth level + 1 and in the order set(valid_urls) is iterated,
    each kept link that is not in visited_urls, appends the rejected
    links to the invalid file and url to visited_urls, and marks the
    item done. *)
Theorem X18_page_iteration `{E : PyEnv} i s url level url_parsed resp ct links inv val order :
  workers s !! i = Some (Busy url level (WriteValid url_parsed resp)) ->
  content_type resp = Some ct ->
  PyStr.contains "text/html" ct = true ->
  find_all_links (text resp) = Return links ->
  for_links url_parsed links [] [] = (inv, val, None) ->
  is_set_order order val = true ->
  (0 < unfinished_tasks s)%nat ->
  exists sched tr s',
    Forall (fun x => fst x = i) sched /\
    run sched s = Some (tr, s') /\
    workers s' = <[i:=Idle]> (workers s) /\
    valid_urls_fd s' = (valid_urls_fd s ++ [(url, level)])%list /\
    queue s' =
      (queue s ++ List.map (fun u => (u, level + 1)) (fresh (visited_urls s) order))%list /\
    invalid_urls_fd s' = (invalid_urls_fd s ++ inv)%list /\
    visited_urls s' = (visited_urls s ++ [url])%list /\
    S (unfinished_tasks s') =
      (unfinished_tasks s + length (fresh (visited_urls s) order))%nat /\
    duplicate_images_urls s' = duplicate_images_urls s /\
    stdout s' = stdout s /\ stderr s' = stderr s.
Proof.
  intros Hw Hct Hhtml Hlinks Hfor Hord Hu. pose proof (lookup_lt_Some _ _ _ Hw) as Hlt.
  assert (Hav : after_valid url level url_parsed resp order =
                Some (Busy url level (after_push inv order))).
  { unfold after_valid. rewrite Hct, Hhtml, Hlinks, Hfor, Hord.
    destruct ct; [discriminate | reflexivity]. }
  set (s1 := mkState (queue s) (unfinished_tasks s) (visited_urls s)
               (duplicate_images_urls s) (valid_urls_fd s ++ [(url, level)])%list
               (invalid_urls_fd s) (stdout s) (stderr s)
               (<[i:=Busy url level (after_push inv order)]> (workers s))).
  destruct (push_loop i url level inv order s1)
    as (sched & tr2 & s2 & Hall & Hrun2 & Hws2 & Hq2 & Hu2 & Hvis2 & Hval2 & Hinv2 & Hd2 & Ho2 & He2).
  { simpl. now apply list_lookup_insert_eq. }
  destruct (closing_steps i Demo.go Demo.go Demo.go s2 url level inv)
    as (tr3 & s3 & Hrun3 & Hws3 & Hi3 & Hv3 & Hn3 & Hq3 & Hva3 & Hd3 & Hso3 & Hse3).
  { rewrite Hws2. simpl. apply list_lookup_insert_eq. now rewrite length_insert. }
  { reflexivity. }
  { rewrite Hu2. simpl. lia. }
  exists ((i, Demo.ordered order) :: sched ++ [(i, Demo.go); (i, Demo.go); (i, Demo.go)])%list.
  eexists. exists s3. split.
  { constructor; [reflexivity|]. apply Forall_app. split; [exact Hall|].
    repeat constructor. }
  split.
  { eapply run_cons.
    - unfold parse_url. rewrite Hw. simpl. rewrite Hav. reflexivity.
    - eapply run_app_intro; [exact Hrun2 | exact Hrun3]. }
  simpl in *.
  rewrite Hws3, Hws2, Hva3, Hval2, Hq3, Hq2, Hi3, Hinv2, Hv3, Hvis2, Hd3, Hd2, Hso3, Ho2, Hse3, He2.
  rewrite !list_insert_insert_eq. repeat split; auto. lia.
Qed.

Lemma X18_page_witness :
  workers (@Demo.final Demo.env2 (List.firstn 4 Demo.sched_seed) (Crawler Demo.S_ 1)) !! 0%nat
    = Some (Busy Demo.S_ 0
              (WriteValid (Demo.parent Demo.S_)
                 (mkResponse (Some "text/html; charset=utf-8")
                    ("/a" ++ String "010"%char "/b") ("/a" ++ String "010"%char "/b")))) /\
  exists sched tr s',
    @run Demo.env2 sched
         (@Demo.final Demo.env2 (List.firstn 4 Demo.sched_seed) (Crawler Demo.S_ 1))
      = Some (tr, s') /\
    queue s' = [(Demo.A_, 1); (Demo.B_, 1)].
Proof.
  split; [vm_compute; reflexivity|].
  destruct (@X18_page_iteration Demo.env2 0%nat
              (@Demo.final Demo.env2 (List.firstn 4 Demo.sched_seed) (Crawler Demo.S_ 1))
              Demo.S_ 0 (Demo.parent Demo.S_)
              (mkResponse (Some "text/html; charset=utf-8")
                 ("/a" ++ String "010"%char "/b") ("/a" ++ String "010"%char "/b"))
              "text/html; charset=utf-8" ["/a"; "/b"] [] [Demo.A_; Demo.B_]
              [Demo.A_; Demo.B_])
    as (sched & tr & s' & _ & Hrun & _ & _ & Hq & _).
  - vm_compute. reflexivity.
  - reflexivity.
  - reflexivity.
  - vm_compute. reflexivity.
  - vm_compute. reflexivity.
  - vm_compute. reflexivity.
  - vm_compute. lia.
  - exists sched, tr, s'. split; [exact Hrun | exact Hq].
Defined.

(** X19.  One link that makes the classification raise costs the page all
    its links.  If urlparse or resolve() raises an exception other than
    InvalidUrl or KeyboardInterrupt on a link of a text/html page, then,
    writes succeeding, the page keeps its row in the valid file and is
    reported on stderr, the links rejected before the exception get
    their rows in the invalid file, and no link of the page is put on
    the queue, neither those after the exception nor the valid ones
    before it. *)
Theorem X19_raising_link_drops_every_link `{E : PyEnv}
  i o1 o2 o3 o4 o5 s url level url_parsed resp ct l1 bad l2 inv val e :
  workers s !! i = Some (Busy url level (WriteValid url_parsed resp)) ->
  content_type resp = Some ct ->
  PyStr.contains "text/html" ct = true ->
  find_all_links (text resp) = Return (l1 ++ bad :: l2)%list ->
  for_links url_parsed l1 [] [] = (inv, val, None) ->
  resolve_link url_parsed bad = Raise e ->
  e = OtherError \/ e = RequestException ->
  o_write o1 = Return tt -> o_write o2 = Return tt -> o_write o3 = Return tt ->
  (0 < unfinished_tasks s)%nat ->
  exists tr s',
    run [(i, o1); (i, o2); (i, o3); (i, o4); (i, o5)] s = Some (tr, s') /\
    workers s' = <[i:=Idle]> (workers s) /\
    queue s' = queue s /\
    valid_urls_fd s' = (valid_urls_fd s ++ [(url, level)])%list /\
    stderr s' = (stderr s ++ [url])%list /\
    invalid_urls_fd s' = (invalid_urls_fd s ++ inv)%list /\
    visited_urls s' = (visited_urls s ++ [url])%list /\
    S (unfinished_tasks s') = unfinished_tasks s /\
    duplicate_images_urls s' = duplicate_images_urls s /\
    stdout s' = stdout s.
Proof.
  intros Hw Hct Hhtml Hlinks Hfor Hbad He Ho1 Ho2 Ho3 Hu.
  pose proof (lookup_lt_Some _ _ _ Hw) as Hlt.
  assert (Hav : after_valid url level url_parsed resp (o_order o1) =
                Some (Busy url level (LogErr inv))).
  { unfold after_valid. rewrite Hct, Hhtml, Hlinks, for_links_app, Hfor. simpl.
    rewrite Hbad. destruct ct; [discriminate|]. simpl. now destruct He as [-> | ->]. }
  destruct (closing_steps i o3 o4 o5
              (mkState (queue s) (unfinished_tasks s) (visited_urls s)
                 (duplicate_images_urls s) (valid_urls_fd s ++ [(url, level)])%list
                 (invalid_urls_fd s) (stdout s) (stderr s ++ [url])%list
                 (<[i:=Busy url level (Flush inv)]> (workers s)))
              url level inv)
    as (tr & s' & Hrun & Hws & Hi & Hv & Hn & Hq & Hva & Hd & Hso & Hse); auto.
  { simpl. now apply list_lookup_insert_eq. }
  eexists. exists s'. split.
  - eapply run_cons.
    { unfold parse_url. rewrite Hw, Ho1, Hav. reflexivity. }
    eapply run_cons; [|exact Hrun].
    unfold parse_url. simpl. rewrite list_lookup_insert_eq by exact Hlt. rewrite Ho2.
    rewrite list_insert_insert_eq. reflexivity.
  - simpl in *. rewrite list_insert_insert_eq in Hws. repeat split; auto.
Qed.

Lemma X19_raising_link_witness :
  workers (@Demo.final Demo.env2
             [(0%nat, Demo.go); (0%nat, Demo.go); (0%nat, Demo.go);
              (0%nat, Demo.fetched (Demo.html ("/a" ++ String "010"%char "http://[x")))]
             (Crawler Demo.S_ 1)) !! 0%nat
    = Some (Busy Demo.S_ 0
              (WriteValid (Demo.parent Demo.S_)
                 (mkResponse (Some "text/html; charset=utf-8")
                    ("/a" ++ String "010"%char "http://[x")
                    ("/a" ++ String "010"%char "http://[x")))) /\
  @resolve_link Demo.env2 (Demo.parent Demo.S_) "/a" = Return (LinkValid Demo.A_) /\
  @resolve_link Demo.env2 (Demo.parent Demo.S_) "http://[x" = Raise OtherError /\
  exists tr s',
    @run Demo.env2 [(0%nat, Demo.go); (0%nat, Demo.go); (0%nat, Demo.go);
                    (0%nat, Demo.go); (0%nat, Demo.go)]
         (@Demo.final Demo.env2
            [(0%nat, Demo.go); (0%nat, Demo.go); (0%nat, Demo.go);
             (0%nat, Demo.fetched (Demo.html ("/a" ++ String "010"%char "http://[x")))]
            (Crawler Demo.S_ 1))
      = Some (tr, s') /\
    queue s' = [] /\ valid_urls_fd s' = [(Demo.S_, 0)] /\ stderr s' = [Demo.S_].
Proof.
  split; [vm_compute; reflexivity|]. split; [vm_compute; reflexivity|].
  split; [vm_compute; reflexivity|].
  destruct (@X19_raising_link_drops_every_link Demo.env2 0%nat
              Demo.go Demo.go Demo.go Demo.go Demo.go
              (@Demo.final Demo.env2
                 [(0%nat, Demo.go); (0%nat, Demo.go); (0%nat, Demo.go);
                  (0%nat, Demo.fetched (Demo.html ("/a" ++ String "010"%char "http://[x")))]
                 (Crawler Demo.S_ 1))
              Demo.S_ 0 (Demo.parent Demo.S_)
              (mkResponse (Some "text/html; charset=utf-8")
                 ("/a" ++ String "010"%char "http://[x")
                 ("/a" ++ String "010"%char "http://[x"))
              "text/html; charset=utf-8" ["/a"] "http://[x" [] [] [Demo.A_] OtherError)
    as (tr & s' & Hrun & _ & Hq & Hv & He & _).
  - vm_compute. reflexivity.
  - reflexivity.
  - reflexivity.
  - vm_compute. reflexivity.
  - vm_compute. reflexivity.
  - vm_compute. reflexivity.
  - now left.
  - reflexivity.
  - reflexivity.
  - reflexivity.
  - vm_compute. lia.
  - exists tr, s'. split; [exact Hrun|]. split; [exact Hq|]. split; [exact Hv | exact He].
Defined.

(** X20.  The loop over the links classifies them one by one, from left
    to right, each into exactly one of the two lists: what it appends
    does not depend on what the lists hold already, a list of links
    split in two is classified as the first part followed by the second,
    and when no link raises, the appended entries are as many as the
    links. *)
Theorem X20_links_are_classified_one_by_one `{E : PyEnv} url_parsed :
  (forall links inv val,
     for_links url_parsed links inv val =
     let '(di, dv, exc) := for_links url_parsed links [] [] in
     ((inv ++ di)%list, (val ++ dv)%list, exc)) /\
  (forall l1 l2 inv val,
     for_links url_parsed (l1 ++ l2) inv val =
     match for_links url_parsed l1 inv val with
     | (inv', val', None) => for_links url_parsed l2 inv' val'
     | r => r
     end) /\
  (forall links,
     let '(di, dv, exc) := for_links url_parsed links [] [] in
     (length di + length dv <= length links)%nat /\
     (exc = None -> (length di + length dv = length links)%nat)).
Proof.
  split; [|split].
  - intros links inv val. apply for_links_acc.
  - intros l1 l2 inv val. apply for_links_app.
  - intros links.
    destruct (for_links url_parsed links [] []) as [[di dv] exc] eqn:H.
    apply for_links_count in H. exact H.
Qed.

(** X21.  The file system is read for links with .. in their path only:
    two machines whose urlparse and urlunparse agree classify a link
    alike, whatever Path.resolve() does on each, as soon as the path of
    the parsed link does not contain two dots in a row. *)
Theorem X21_only_dotted_paths_reach_the_file_system (E1 E2 : PyEnv) url_parsed link :
  (forall u, @urlparse E1 u = @urlparse E2 u) ->
  (forall p, @urlunparse E1 p = @urlunparse E2 p) ->
  (forall p, @urlparse E1 link = Return p -> PyStr.contains ".." (path p) = false) ->
  @resolve_link E1 url_parsed link = @resolve_link E2 url_parsed link.
Proof.
  intros Hp Hu Hdots.
  assert (Hv : forall u, @validate_url E1 u = @validate_url E2 u).
  { intros u. unfold validate_url. now rewrite Hp. }
  unfold resolve_link, mbind, py_bind. rewrite <- Hv.
  destruct (@validate_url E1 link) as [[p|]|e] eqn:Hl; try reflexivity.
  rewrite (Hdots p (validate_url_some _ _ Hl)).
  rewrite <- Hu, <- Hv. reflexivity.
Qed.

Lemma X21_file_system_witness :
  @resolve_link (Demo.cpython PathLib.plain_fs 2) (Demo.parent "http://x.test/bin/x.html") "c"
  = @resolve_link (Demo.cpython PathLib.usrmerge_fs 2)
      (Demo.parent "http://x.test/bin/x.html") "c".
Proof.
  apply (X21_only_dotted_paths_reach_the_file_system
           (Demo.cpython PathLib.plain_fs 2) (Demo.cpython PathLib.usrmerge_fs 2)
           (Demo.parent "http://x.test/bin/x.html") "c").
  - intros u. change (UrlLib.urlparse u = UrlLib.urlparse u). reflexivity.
  - intros p. change (UrlLib.urlunparse p = UrlLib.urlunparse p). reflexivity.
  - intros p H. vm_compute in H. injection H as <-. reflexivity.
Defined.

(** X22.  The order of the duplicate-image report: after the header, the
    rows come grouped by hash, the hashes in the order of their first
    image record, the URLs of one hash in the order of their records;
    a hash with a single record gives no row. *)
Theorem X22_report_is_grouped_by_first_occurrence (recs : list (string * string)) :
  Report.output_dupimgs recs =
  ("URL", "md5") ::
  flat_map (fun h => Report.rows_of (h, List.map snd (Report.with_hash h recs)))
           (first_occurrences (List.map fst recs)).
Proof.
  unfold Report.output_dupimgs. f_equal.
  rewrite group_by_first_occurrence. rewrite flat_map_concat_map, List.map_map.
  now rewrite <- flat_map_concat_map.
Qed.

(** X23.  The report has the header row and nothing else exactly when no
    two image records have the same hash; in particular when there is
    no image record at all. *)
Theorem X23_report_is_empty_iff_hashes_are_distinct (recs : list (string * string)) :
  Report.output_dupimgs recs = [("URL", "md5")] <-> List.NoDup (List.map fst recs).
Proof.
  unfold Report.output_dupimgs.
  assert (Hrows : flat_map Report.rows_of (Report.group [] recs) = [] <->
                  Report.repeated recs = []).
  { split; intros H.
    - pose proof (output_dupimgs_rows recs) as HP. rewrite H in HP.
      apply Permutation_nil in HP. now apply map_eq_nil in HP.
    - pose proof (output_dupimgs_rows recs) as HP. rewrite H in HP. simpl in HP.
      apply Permutation_sym, Permutation_nil in HP. exact HP. }
  split.
  - intros [= H]. apply Hrows in H. unfold Report.repeated in H.
    rewrite filter_nil_iff in H.
    apply (List.NoDup_count_occ string_dec). intros h.
    destruct (in_dec string_dec h (List.map fst recs)) as [Hin|Hnin].
    + apply in_map_iff in Hin as (r & <- & Hr). specialize (H r Hr).
      apply Nat.ltb_ge in H. now rewrite <- with_hash_length.
    + apply (count_occ_not_In string_dec) in Hnin. lia.
  - intros Hnd. f_equal. apply Hrows. unfold Report.repeated.
    apply filter_nil_iff. intros r Hr. apply Nat.ltb_ge.
    rewrite with_hash_length. now apply (List.NoDup_count_occ string_dec).
Qed.

(** X24.  The report does not depend on the order in which the workers
    appended the image records, except for the order of its rows: two
    lists with the same records give the same rows, each as often. *)
Theorem X24_report_ignores_the_order_of_records (recs recs' : list (string * string)) :
  Permutation recs recs' ->
  Permutation (Report.output_dupimgs recs) (Report.output_dupimgs recs').
Proof.
  intros HP. unfold Report.output_dupimgs. constructor.
  rewrite (output_dupimgs_rows recs), (output_dupimgs_rows recs').
  apply Permutation_map. unfold Report.repeated.
  rewrite (List.filter_ext _ (fun r => Nat.ltb 1 (length (Report.with_hash (fst r) recs')))).
  - now apply filter_Permutation'.
  - intros r. now rewrite (with_hash_Permutation _ _ _ HP).
Qed.

Lemma X24_report_order_witness :
  Permutation [("h", "u1"); ("k", "u2"); ("h", "u3")] [("h", "u3"); ("h", "u1"); ("k", "u2")] /\
  Permutation (Report.output_dupimgs [("h", "u1"); ("k", "u2"); ("h", "u3")])
              (Report.output_dupimgs [("h", "u3"); ("h", "u1"); ("k", "u2")]).
Proof.
  assert (H : Permutation [("h", "u1"); ("k", "u2"); ("h", "u3")]
                          [("h", "u3"); ("h", "u1"); ("k", "u2")]).
  { apply perm_trans with [("h", "u1"); ("h", "u3"); ("k", "u2")].
    - apply perm_skip. apply perm_swap.
    - apply perm_swap. }
  split; [exact H|].
  apply (X24_report_ignores_the_order_of_records _ _ H).
Defined.

(** X25.  What is recorded was announced: in every run, each row (url,
    level) of the valid file is an item that was printed on stdout, and
    each URL with a DOWNLOAD_ERROR row in the invalid file was printed
    there with some depth. *)
Theorem X25_recorded_items_were_announced `{E : PyEnv} starting_url n sched tr s :
  run sched (Crawler starting_url n) = Some (tr, s) ->
  (forall u l, In (u, l) (valid_urls_fd s) -> In (u, l) (stdout s)) /\
  (forall u, In (u, DOWNLOAD_ERROR) (invalid_urls_fd s) -> exists l, In (u, l) (stdout s)).
Proof.
  intros Hrun.
  destruct (run_invariant Announced step_Announced _ _ _ _
              (Announced_Crawler starting_url n) Hrun) as (Hv & Hd & _).
  split.
  - intros u l. apply Hv.
  - intros u Hin. apply Hd. unfold downloads. apply in_map_iff.
    exists (u, DOWNLOAD_ERROR). split; [reflexivity|]. apply filter_In. auto.
Qed.

Lemma X25_announced_witness :
  @run Demo.env2 (Demo.sched_race Demo.a_is_down) (Crawler Demo.S_ 2)
    = Some (@Demo.trace Demo.env2 (Demo.sched_race Demo.a_is_down) (Crawler Demo.S_ 2),
            @Demo.final Demo.env2 (Demo.sched_race Demo.a_is_down) (Crawler Demo.S_ 2)) /\
  exists l, In (Demo.A_, l)
              (stdout (@Demo.final Demo.env2 (Demo.sched_race Demo.a_is_down)
                         (Crawler Demo.S_ 2))).
Proof.
  split; [vm_compute; reflexivity|].
  apply (@X25_recorded_items_were_announced Demo.env2 Demo.S_ 2
           (Demo.sched_race Demo.a_is_down)
           (@Demo.trace Demo.env2 (Demo.sched_race Demo.a_is_down) (Crawler Demo.S_ 2))
           (@Demo.final Demo.env2 (Demo.sched_race Demo.a_is_down) (Crawler Demo.S_ 2))).
  - vm_compute. reflexivity.
  - vm_compute. left. reflexivity.
Defined.

(** X26.  The rows output_dupimgs writes are the header row
    URL,md5 followed by one (url, hash) row for each record whose hash is
    the hash of at least 2 records, and no row for a hash that occurs in
    one record only.  When no record occurs twice, the records with a
    hash are as many as the distinct URLs with that hash. *)
Theorem X26_report_rows_by_record_count (recs : list (string * string)) :
  exists rows,
    Report.output_dupimgs recs = ("URL", "md5") :: rows /\
    Permutation rows (List.map Report.row_of (Report.repeated recs)) /\
    (forall u h, In (u, h) rows <->
       In (h, u) recs /\ (2 <= length (Report.with_hash h recs))%nat) /\
    (List.NoDup recs ->
     forall h, length (Report.with_hash h recs) = length (Report.urls_with_hash h recs)).
Proof.
  exists (flat_map Report.rows_of (Report.group [] recs)).
  split; [reflexivity|]. split; [apply output_dupimgs_rows|]. split.
  - intros u h. rewrite (Permutation_in' (eq_refl (u, h)) (output_dupimgs_rows recs)).
    unfold Report.repeated. rewrite in_map_iff. split.
    + intros ([h' u'] & Heq & Hin). unfold Report.row_of in Heq. simpl in Heq.
      injection Heq as -> ->. apply filter_In in Hin as [Hin Hc]. simpl in Hc.
      apply Nat.ltb_lt in Hc. split; [exact Hin | lia].
    + intros [Hin Hc]. exists (h, u). split; [reflexivity|].
      apply filter_In. split; [exact Hin|]. simpl. apply Nat.ltb_lt. lia.
  - intros Hnd h. now apply with_hash_distinct.
Qed.

Lemma X26_report_rows_witness :
  List.NoDup [("h1", "u1"); ("h2", "u3"); ("h1", "u2")] /\
  Report.output_dupimgs [("h1", "u1"); ("h2", "u3"); ("h1", "u2")]
    = [("URL", "md5"); ("u1", "h1"); ("u2", "h1")] /\
  length (Report.with_hash "h1" [("h1", "u1"); ("h2", "u3"); ("h1", "u2")])
    = length (Report.urls_with_hash "h1" [("h1", "u1"); ("h2", "u3"); ("h1", "u2")]).
Proof.
  assert (Hnd : List.NoDup [("h1", "u1"); ("h2", "u3"); ("h1", "u2")]).
  { repeat constructor; simpl; intuition congruence. }
  split; [exact Hnd|]. split; [reflexivity|].
  destruct (X26_report_rows_by_record_count [("h1", "u1"); ("h2", "u3"); ("h1", "u2")]) as (rows & _ & _ & _ & H).
  exact (H Hnd "h1").
Defined.
